(** * Movie catalog backend: identity scheme, aggregator and ledgers

    A shallow embedding of the dual-source movie identity and aggregation
    layer (routes/movies.js, models/Movie.js) and of the review and
    watchlist ledgers (models/Review.js, models/Watchlist.js and their
    routes), with the PostgreSQL tables they work on modelled as lists of
    rows threaded through the operations. *)

From Stdlib Require Import ZArith QArith Qround Lia Ascii.
From stdpp Require Import base gmap strings pretty list sorting.

Set Default Proof Using "Type".

(** ** What the code takes from its platform

    Text is held as its UTF-8 bytes. On text of ASCII characters the text
    functions of the JavaScript engine, of the validator library and of the
    database are written out below; on other text they follow the tables of
    Unicode and the locale of the database, and are taken as they are.
    Numbers are doubles: integers are exact up to 2^53 - 1, and what a sum
    beyond that is rendered as is taken as it is, too; so is the digit that
    toFixed gives for the double read from the text of a numeric, where it
    depends on how that double is rounded. *)
Class Platform := {
  (** [s.toLowerCase()] *)
  unicode_toLowerCase : string → string;
  (** [LOWER(s)] in the locale of the database *)
  locale_LOWER : string → string;
  (** the length that [isLength] of the validator library measures *)
  unicode_isLength : string → nat;
  (** [(a + n).toString()] for integers [a] and [n] where [a] or [a + n]
      is beyond the safe integers *)
  inexact_sum : Z → Z → string;
  (** [parseFloat(text).toFixed(1)] for the text the database gives of a
      numeric that is no whole number of tenths *)
  double_toFixed1 : Q → string
}.

(** ** JavaScript primitives used by the code *)

Module JS.

(** [s.startsWith(p)] *)
Fixpoint startsWith (p s : string) : bool :=
  match p with
  | EmptyString => true
  | String a p' =>
      match s with
      | EmptyString => false
      | String b s' => if Ascii.eqb a b then startsWith p' s' else false
      end
  end.

(** The part of [s] after its first [n] characters. *)
Fixpoint string_drop (n : nat) (s : string) : string :=
  match n, s with
  | O, _ => s
  | S n', EmptyString => EmptyString
  | S n', String _ s' => string_drop n' s'
  end.

(** [s.replace(pat, rep)] with a string pattern: only the first occurrence
    of [pat] is replaced ([rep] is taken literally: the code passes ''). *)
Fixpoint replace (pat rep s : string) : string :=
  if startsWith pat s then rep +:+ string_drop (String.length pat) s
  else match s with
       | EmptyString => EmptyString
       | String c s' => String c (replace pat rep s')
       end.

(** Text of ASCII characters: every byte is below 128. *)
Definition is_ascii_char (c : Ascii.ascii) : bool :=
  (Ascii.N_of_ascii c <? 128)%N.

Fixpoint is_ascii (s : string) : bool :=
  match s with
  | EmptyString => true
  | String c s' => is_ascii_char c && is_ascii s'
  end.

(** [c] lower-cased, for the letters A to Z. *)
Definition lower_char (c : Ascii.ascii) : Ascii.ascii :=
  let n := Ascii.N_of_ascii c in
  if ((65 <=? n) && (n <=? 90))%N then Ascii.ascii_of_N (n + 32) else c.

(** Lower case on text of ASCII characters: A to Z become a to z. *)
Fixpoint lower_ascii (s : string) : string :=
  match s with
  | EmptyString => EmptyString
  | String c s' => String (lower_char c) (lower_ascii s')
  end.

(** [s.toLowerCase()] *)
Definition toLowerCase `{Platform} (s : string) : string :=
  if is_ascii s then lower_ascii s else unicode_toLowerCase s.

(** The length the validator's [isLength] measures: the number of
    characters, which on text of ASCII characters is the number of bytes. *)
Definition characters `{Platform} (s : string) : nat :=
  if is_ascii s then String.length s else unicode_isLength s.

(** Two characters that are equal, or the two cases of one letter of A to
    Z; two texts that are equal up to the case of their letters A to Z. *)
Definition same_letter (c d : Ascii.ascii) : bool :=
  let n := Ascii.N_of_ascii c in
  let m := Ascii.N_of_ascii d in
  (n =? m)%N
  || ((65 <=? n) && (n <=? 90) && (m =? n + 32))%N
  || ((65 <=? m) && (m <=? 90) && (n =? m + 32))%N.

Fixpoint caseless (s t : string) : bool :=
  match s, t with
  | EmptyString, EmptyString => true
  | String c s', String d t' => same_letter c d && caseless s' t'
  | _, _ => false
  end.

(** [arr.findIndex(p)]: the index of the first element satisfying [p];
    [None] stands for the -1 of JavaScript. *)
Fixpoint findIndex {A} (p : A → bool) (arr : list A) : option nat :=
  match arr with
  | [] => None
  | x :: xs => if p x then Some 0 else S <$> findIndex p xs
  end.

(** [index === arr.findIndex(p)] *)
Definition index_is (index : nat) (found : option nat) : bool :=
  match found with
  | Some j => Nat.eqb index j
  | None => false
  end.

Fixpoint filter_from {A} (f : A → nat → bool) (index : nat) (arr : list A)
  : list A :=
  match arr with
  | [] => []
  | x :: xs =>
      if f x index then x :: filter_from f (S index) xs
      else filter_from f (S index) xs
  end.

(** [self.filter((x, index, self) => f(x, index, self))] *)
Definition filter {A} (f : A → nat → list A → bool) (self : list A) : list A :=
  filter_from (λ x index, f x index self) 0 self.

(** [arr.join(sep)]; a null element is rendered as the empty string. *)
Fixpoint join (sep : string) (arr : list (option string)) : string :=
  match arr with
  | [] => ""
  | [x] => default "" x
  | x :: xs => default "" x +:+ sep +:+ join sep xs
  end.

(** [x || d] on a string that may be null or undefined: the empty string is
    falsy as well. *)
Definition or_else (x : option string) (d : string) : string :=
  match x with
  | Some (String c s) => String c s
  | _ => d
  end.

(** [n.toString()] and the rendering of a number inside a template literal,
    for integers (decimal digits, no exponent below 10^21). *)
Definition Number_toString (n : Z) : string := pretty n.

(** *** parseInt *)

Definition is_space (c : Ascii.ascii) : bool :=
  let n := Ascii.N_of_ascii c in
  ((n =? 32) || ((9 <=? n) && (n <=? 13)))%N.

Fixpoint trim_start (s : string) : string :=
  match s with
  | String c s' => if is_space c then trim_start s' else s
  | EmptyString => EmptyString
  end.

(** The value of [c] as a digit in radix [radix] (10 or 16). *)
Definition digit_val (radix : N) (c : Ascii.ascii) : option N :=
  let n := Ascii.N_of_ascii c in
  if ((48 <=? n) && (n <=? 57))%N then Some (n - 48)%N
  else if (radix =? 16)%N then
    if ((97 <=? n) && (n <=? 102))%N then Some (n - 87)%N
    else if ((65 <=? n) && (n <=? 70))%N then Some (n - 55)%N
    else None
  else None.

(** Reads the longest prefix of digits; [seen] tells whether a digit was
    read. *)
Fixpoint read_digits (radix : N) (acc : N) (seen : bool) (s : string)
  : option N :=
  match s with
  | String c s' =>
      match digit_val radix c with
      | Some d => read_digits radix (acc * radix + d)%N true s'
      | None => if seen then Some acc else None
      end
  | EmptyString => if seen then Some acc else None
  end.

Definition read_unsigned (s : string) : option N :=
  if startsWith "0x" s || startsWith "0X" s
  then read_digits 16 0 false (string_drop 2 s)
  else read_digits 10 0 false s.

(** [parseInt(s)] without a radix; [None] is NaN. The result is the
    integer that is read; the number the code holds is the double nearest
    to it, which is that integer up to 2^53. *)
Definition parseInt (s : string) : option Z :=
  match trim_start s with
  | String c s' =>
      if Ascii.eqb c "-" then (λ n, - Z.of_N n)%Z <$> read_unsigned s'
      else if Ascii.eqb c "+" then Z.of_N <$> read_unsigned s'
      else Z.of_N <$> read_unsigned (String c s')
  | EmptyString => None
  end.

(** [Number.MAX_SAFE_INTEGER], 2^53 - 1: up to it, in both directions,
    a double holds every integer and the arithmetic on them is exact. *)
Definition MAX_SAFE_INTEGER : Z := 9007199254740991.

Definition safe (z : Z) : bool :=
  ((- MAX_SAFE_INTEGER <=? z) && (z <=? MAX_SAFE_INTEGER))%Z.

(** [(a + n).toString()] where [a] is what [parseInt] read and may be
    NaN. *)
Definition add_toString `{Platform} (a : option Z) (n : Z) : string :=
  match a with
  | Some x =>
      if safe x && safe (x + n) then Number_toString (x + n)
      else inexact_sum x n
  | None => "NaN"
  end.

(** [Math.round(x)]: the nearest integer, a half going up. *)
Definition Math_round (x : Q) : Z := Qfloor (x + (1 # 2))%Q.

(** [x.toFixed(1)] for the exact value [x] of a double: one digit after
    the point, the nearest tenth, the larger one of two; the sign is set
    apart first. *)
Definition tenths_text (x : Q) : string :=
  let tenths (y : Q) : string :=
    let t := Qfloor (y * 10 + (1 # 2))%Q in
    Number_toString (t / 10) +:+ "." +:+ Number_toString (t mod 10) in
  if Qle_bool 0 x then tenths x else "-" +:+ tenths (- x)%Q.

(** [x] is a whole number of tenths, of a size at which the double nearest
    to it is nearer than 0.05. *)
Definition whole_tenths (x : Q) : bool :=
  let t := Qred (x * 10)%Q in
  (Qden t =? 1)%positive && safe (Qnum t * 10).

(** [parseFloat(text).toFixed(1)] for the numeric [x] that the database
    gives as text. parseFloat reads the double nearest to the text and
    toFixed(1) gives the tenth nearest to that double: for a whole number
    of tenths that is the number itself; for another number the digit
    depends on the double (6.35 is read as a double below it and gives
    6.3). *)
Definition toFixed1 `{Platform} (x : Q) : string :=
  if whole_tenths x then tenths_text x else double_toFixed1 x.

(** *** Doubles, for the examples *)

(** 2^k *)
Definition pow2 (k : Z) : Q :=
  if (0 <=? k)%Z then inject_Z (2 ^ k) else (/ inject_Z (2 ^ (- k)))%Q.

(** The integer nearest to [y], the even one of two. *)
Definition round_half_even (y : Q) : Z :=
  let f := Qfloor y in
  match (y - inject_Z f ?= 1 # 2)%Q with
  | Lt => f
  | Gt => (f + 1)%Z
  | Eq => if Z.even f then f else (f + 1)%Z
  end.

(** The double nearest to [x], for [x] above zero within the range of the
    normal doubles: 53 binary digits from the first one. *)
Definition nearest_double (x : Q) : Q :=
  let e := if Qle_bool 1 x then Z.log2 (Qfloor x)
           else (- Z.log2_up (Qceiling (/ x)))%Z in
  (inject_Z (round_half_even (x * pow2 (52 - e))) * pow2 (e - 52))%Q.

End JS.

(** ** Identity scheme *)

Module Identity.

(** [movie_source]: which catalog owns a movie. *)
Inductive MovieSource := omdb | custom.

(** A movie reference before it is written as text: a row key of the movies
    table (SERIAL), or the identifier of the external provider. *)
Inductive MovieRef :=
| Local (id : N)
| External (imdbID : string).

Definition origin (r : MovieRef) : MovieSource :=
  match r with Local _ => custom | External _ => omdb end.

(** The identifier as text. *)
Definition rawId (r : MovieRef) : string :=
  match r with
  | Local id => JS.Number_toString (Z.of_N id)
  | External imdbID => imdbID
  end.

(** Movie.transformToOMDBFormat: [imdbID: `custom_${movie.id}`] *)
Definition custom_imdbID (id : N) : string :=
  "custom_" +:+ JS.Number_toString (Z.of_N id).

Definition encode (r : MovieRef) : string :=
  match r with
  | Local id => custom_imdbID id
  | External imdbID => imdbID
  end.

(** GET /api/movies/:id, the branch on the reference:
    [if (id.startsWith('custom_')) { customId = id.replace('custom_', '') ... }] *)
Definition decode (id : string) : MovieSource * string :=
  if JS.startsWith "custom_" id
  then (custom, JS.replace "custom_" "" id)
  else (omdb, id).

Definition valid_ref (r : MovieRef) : Prop :=
  match r with
  | Local _ => True
  | External imdbID => JS.startsWith "custom_" imdbID = false
  end.

End Identity.


(** ** Aggregator: combined search *)

Module Aggregator.

(** A row of the movies table (the local catalog); nullable columns are
    options, the two array columns may hold null elements, and the DECIMAL
    column imdb_rating arrives as text. *)
Record MovieRow := {
  m_id : N;
  m_title : string;
  m_year : option Z;
  m_runtime : option string;
  m_director : option string;
  m_cast_members : option (list (option string));
  m_genre : option (list (option string));
  m_plot : option string;
  m_poster : option string;
  m_imdb_rating : option string;
  m_language : option string;
  m_country : option string;
  m_awards : option string;
  m_box_office : option string
}.

(** An entry in the shape of the external provider, the shape every result
    of the API has. An entry of an external search page carries imdbID,
    Title, Year, Type and Poster; a field that is absent is [None]. *)
Record OmdbMovie := {
  imdbID : string;
  Title : string;
  Year : string;
  Type_ : option string;
  Runtime : option string;
  Director : option string;
  Actors : option string;
  Genre : option string;
  Plot : option string;
  Poster : option string;
  imdbRating : option string;
  Language : option string;
  Country : option string;
  Awards : option string;
  BoxOffice : option string;
  Response : option string;
  Source : option string
}.

(** [Array.isArray(a) ? a.join(', ') : a || ''] on an array column *)
Definition join_or_empty (a : option (list (option string))) : string :=
  match a with
  | Some arr => JS.join ", " arr
  | None => ""
  end.

(** Movie.transformToOMDBFormat *)
Definition transformToOMDBFormat (movie : MovieRow) : OmdbMovie := {|
  imdbID := Identity.custom_imdbID (m_id movie);
  Title := m_title movie;
  Year := JS.or_else (JS.Number_toString <$> m_year movie) "";
  Type_ := None;
  Runtime := Some (JS.or_else (m_runtime movie) "");
  Director := Some (JS.or_else (m_director movie) "");
  Actors := Some (join_or_empty (m_cast_members movie));
  Genre := Some (join_or_empty (m_genre movie));
  Plot := Some (JS.or_else (m_plot movie) "");
  Poster := Some (JS.or_else (m_poster movie) "");
  imdbRating := Some (JS.or_else (m_imdb_rating movie) "");
  Language := Some (JS.or_else (m_language movie) "");
  Country := Some (JS.or_else (m_country movie) "");
  Awards := Some (JS.or_else (m_awards movie) "");
  BoxOffice := Some (JS.or_else (m_box_office movie) "");
  Response := Some "True";
  Source := Some "custom"
|}.

(** What OMDBService.searchMovies resolves to. *)
Record OmdbResults := {
  Search : list OmdbMovie;
  totalResults : string;
  omdb_Response : string;
  omdb_Error : option string
}.

(** The JSON body of GET /api/movies/search. *)
Record SearchResponse := {
  res_Search : list OmdbMovie;
  res_totalResults : string;
  res_Response : string;
  res_page : Z
}.

(** [[...(omdbResults.Search || []), ...transformedCustomMovies]] *)
Definition combinedMovies (omdbResults : OmdbResults)
    (customResults : list MovieRow) : list OmdbMovie :=
  Search omdbResults ++ map transformToOMDBFormat customResults.

(** [m.Title.toLowerCase() === movie.Title.toLowerCase() && m.Year === movie.Year] *)
Definition same_title_year `{Platform} (movie m : OmdbMovie) : bool :=
  String.eqb (JS.toLowerCase (Title m)) (JS.toLowerCase (Title movie))
  && String.eqb (Year m) (Year movie).

(** [combinedMovies.filter((movie, index, self) =>
       index === self.findIndex(m => ...))] *)
Definition uniqueMovies `{Platform} (combined : list OmdbMovie)
  : list OmdbMovie :=
  JS.filter
    (λ movie index self,
       JS.index_is index (JS.findIndex (same_title_year movie) self))
    combined.

(** The handler of GET /api/movies/search once both searches have
    resolved. *)
Definition search_response `{Platform} (omdbResults : OmdbResults)
    (customResults : list MovieRow) (pageNum : Z) : SearchResponse :=
  let unique := uniqueMovies (combinedMovies omdbResults customResults) in
  {| res_Search := unique;
     res_totalResults :=
       JS.add_toString (JS.parseInt (totalResults omdbResults))
                       (Z.of_nat (length customResults));
     res_Response := if (0 <? length unique)%nat then "True" else "False";
     res_page := pageNum |}.

(** The duplicate test of the code, as a proposition. *)
Definition duplicates `{Platform} (a b : OmdbMovie) : Prop :=
  JS.toLowerCase (Title a) = JS.toLowerCase (Title b) ∧ Year a = Year b.

(** The deduplication in the words of the specification. Two entries are
    duplicates when their titles match case-insensitively and their year
    strings match exactly: on titles of ASCII characters, when the titles
    are equal up to the case of the letters. The first occurrence wins:
    an entry is kept when no entry passed before it, [seen], is a duplicate
    of it. *)
Definition titles_years_match (a b : OmdbMovie) : bool :=
  JS.caseless (Title a) (Title b) && String.eqb (Year a) (Year b).

Fixpoint first_occurrences (same : OmdbMovie → OmdbMovie → bool)
    (seen l : list OmdbMovie) : list OmdbMovie :=
  match l with
  | [] => []
  | x :: xs =>
      if existsb (same x) seen
      then first_occurrences same (seen ++ [x]) xs
      else x :: first_occurrences same (seen ++ [x]) xs
  end.

(** An entry of an external search page. *)
Definition external_entry (id t y : string) : OmdbMovie := {|
  imdbID := id; Title := t; Year := y; Type_ := Some "movie";
  Runtime := None; Director := None; Actors := None; Genre := None;
  Plot := None; Poster := Some "N/A"; imdbRating := None; Language := None;
  Country := None; Awards := None; BoxOffice := None; Response := None;
  Source := None
|}.

(** A local catalog row with nothing but key, title and year. *)
Definition local_row (k : N) (t : string) (y : option Z) : MovieRow := {|
  m_id := k; m_title := t; m_year := y; m_runtime := None;
  m_director := None; m_cast_members := None; m_genre := None;
  m_plot := None; m_poster := None; m_imdb_rating := None;
  m_language := None; m_country := None; m_awards := None;
  m_box_office := None
|}.

End Aggregator.

(** Strings of decimal digits, as [Number_toString] produces them. *)
Definition is_decimal (c : ascii) : bool :=
  let n := Ascii.N_of_ascii c in ((48 <=? n) && (n <=? 57))%N.

Fixpoint digits_only (s : string) : bool :=
  match s with
  | EmptyString => true
  | String c s' => is_decimal c && digits_only s'
  end.

(** ** PostgreSQL: query outcomes and the column types the queries use *)

Module Pg.

(** A query gives its rows or raises an error with an SQLSTATE code. *)
Inductive Result (A : Type) :=
| Ok (a : A)
| Error (code : string).
Arguments Ok {A} a.
Arguments Error {A} code.

Definition bind {A B} (r : Result A) (k : A → Result B) : Result B :=
  match r with
  | Ok a => k a
  | Error code => Error code
  end.

Definition unique_violation : string := "23505".
Definition check_violation : string := "23514".
Definition division_by_zero : string := "22012".
Definition numeric_value_out_of_range : string := "22003".
Definition string_data_right_truncation : string := "22001".

(** A byte that continues a character of UTF-8 (10xxxxxx), and the number
    of characters of a text: the bytes that start one. *)
Definition is_continuation (c : ascii) : bool :=
  let n := Ascii.N_of_ascii c in ((128 <=? n) && (n <? 192))%N.

Fixpoint char_length (s : string) : nat :=
  match s with
  | EmptyString => 0
  | String c s' =>
      if is_continuation c then char_length s' else S (char_length s')
  end.

(** The first [n] characters of a text, and the rest. *)
Fixpoint split_chars (n : nat) (s : string) : string * string :=
  match s with
  | EmptyString => (EmptyString, EmptyString)
  | String c s' =>
      if is_continuation c
      then let '(kept, rest) := split_chars n s' in (String c kept, rest)
      else match n with
           | O => (EmptyString, s)
           | S n' =>
               let '(kept, rest) := split_chars n' s' in (String c kept, rest)
           end
  end.

Fixpoint all_spaces (s : string) : bool :=
  match s with
  | EmptyString => true
  | String c s' => Ascii.eqb c " " && all_spaces s'
  end.

(** [s] has at most [n] characters. *)
Definition fits (n : nat) (s : string) : bool := (char_length s <=? n)%nat.

(** A value stored into a column of VARCHAR(n): a text of more than [n]
    characters is an error, unless the characters beyond the first [n] are
    all spaces, which are cut off. *)
Definition varchar (n : nat) (s : string) : Result string :=
  if fits n s then Ok s
  else
    let '(kept, excess) := split_chars n s in
    if all_spaces excess then Ok kept
    else Error string_data_right_truncation.

(** INTEGER is 32 bits wide; a result outside the range is an error, not a
    wrap-around. *)
Definition int4_max : Z := 2147483647.
Definition int4_min : Z := -2147483648.

Definition int4_add (a b : Z) : Result Z :=
  let c := (a + b)%Z in
  if ((int4_min <=? c) && (c <=? int4_max))%Z then Ok c
  else Error numeric_value_out_of_range.

(** Division of numerics. *)
Definition numeric_div (a b : Q) : Result Q :=
  if Qeq_bool b 0 then Error division_by_zero else Ok (a / b)%Q.

(** [COUNT( * )] and [COUNT(CASE WHEN p THEN 1 END)] *)
Definition count {A} (rows : list A) : Z := Z.of_nat (length rows).
Definition count_when {A} (p : A → bool) (rows : list A) : Z :=
  count (List.filter p rows).

(** [AVG(x::numeric)]: NULL over no rows. *)
Definition avg (xs : list Z) : option Q :=
  match xs with
  | [] => None
  | _ => Some (inject_Z (foldr Z.add 0%Z xs) / inject_Z (count xs))%Q
  end.

(** [UPDATE ... WHERE p RETURNING *]: the table after the update and the
    rows returned; an error in any row aborts the statement. *)
Fixpoint update_where {A} (p : A → bool) (f : A → Result A) (rows : list A)
  : Result (list A * list A) :=
  match rows with
  | [] => Ok ([], [])
  | r :: rs =>
      bind (if p r then f r else Ok r) (λ r',
      bind (update_where p f rs) (λ '(table, returned),
      Ok (r' :: table, if p r then r' :: returned else returned)))
  end.

(** [COALESCE(new, old)] *)
Definition coalesce {A} (new : option A) (old : A) : A := default old new.

End Pg.

(** A platform for the examples. The examples stay on text of ASCII
    characters and on safe integers, where no field of it is consulted
    except the last one, which takes the text of a numeric as exact. *)
Definition sample_platform : Platform :=
  {| unicode_toLowerCase := id;
     locale_LOWER := JS.lower_ascii;
     unicode_isLength := Pg.char_length;
     inexact_sum := λ a n, JS.Number_toString (a + n);
     double_toFixed1 := λ x, JS.tenths_text (JS.nearest_double x) |}.

(** ** The tables *)

(** A row of reviews (timestamps left out). *)
Module ReviewRow.
Record t := {
  id : N;
  user_id : N;
  movie_id : string;
  movie_source : string;
  title : string;
  content : string;
  rating : Z;
  helpful_count : Z;
  total_votes : Z
}.
End ReviewRow.

(** A row of watchlists; the JSONB column movie_data is the object stored,
    a finite map from field names to values (JSONB equality ignores the
    order of the keys, as the equality of maps does). *)
Module WatchlistRow.
Record t := {
  id : N;
  user_id : N;
  movie_id : string;
  movie_source : string;
  movie_data : gmap string string
}.
End WatchlistRow.

(** The two tables with the sequences behind their SERIAL keys; a table
    lists its rows in the order of their insertion. *)
Record Db := {
  reviews : list ReviewRow.t;
  reviews_id_seq : N;
  watchlists : list WatchlistRow.t;
  watchlists_id_seq : N
}.

Definition with_reviews (db : Db) (rows : list ReviewRow.t) : Db :=
  {| reviews := rows; reviews_id_seq := reviews_id_seq db;
     watchlists := watchlists db; watchlists_id_seq := watchlists_id_seq db |}.

Definition with_watchlists (db : Db) (rows : list WatchlistRow.t) : Db :=
  {| reviews := reviews db; reviews_id_seq := reviews_id_seq db;
     watchlists := rows; watchlists_id_seq := watchlists_id_seq db |}.

(** [nextval] of the two sequences: taken by every INSERT that is tried. *)
Definition nextval_reviews (db : Db) : Db * N :=
  let n := (reviews_id_seq db + 1)%N in
  ({| reviews := reviews db; reviews_id_seq := n;
      watchlists := watchlists db;
      watchlists_id_seq := watchlists_id_seq db |}, n).

Definition nextval_watchlists (db : Db) : Db * N :=
  let n := (watchlists_id_seq db + 1)%N in
  ({| reviews := reviews db; reviews_id_seq := reviews_id_seq db;
      watchlists := watchlists db; watchlists_id_seq := n |}, n).

(** [CHECK (movie_source IN ('omdb', 'custom'))], and the same list in the
    validators of the routes. *)
Definition source_ok (s : string) : bool :=
  String.eqb s "omdb" || String.eqb s "custom".

(** ** Review ledger (models/Review.js) *)

Module Review.
Import ReviewRow.

(** [WHERE user_id = $1 AND movie_id = $2 AND movie_source = $3] *)
Definition by_user_movie (userId : N) (movieId movieSource : string)
    (r : ReviewRow.t) : bool :=
  (user_id r =? userId)%N && String.eqb (movie_id r) movieId
  && String.eqb (movie_source r) movieSource.

(** [WHERE movie_id = $1 AND movie_source = $2] *)
Definition by_movie (movieId movieSource : string) (r : ReviewRow.t) : bool :=
  String.eqb (movie_id r) movieId && String.eqb (movie_source r) movieSource.

Definition by_id (reviewId : N) (r : ReviewRow.t) : bool :=
  (id r =? reviewId)%N.

(** [CHECK (rating >= 1 AND rating <= 10)] *)
Definition rating_ok (n : Z) : bool := ((1 <=? n) && (n <=? 10))%Z.

(** What the columns movie_id VARCHAR(50), movie_source VARCHAR(20) and
    title VARCHAR(255) store for the values given. *)
Definition stored_texts (movieId movieSource title : string)
  : Pg.Result (string * string * string) :=
  Pg.bind (Pg.varchar 50 movieId) (λ movie_id,
  Pg.bind (Pg.varchar 20 movieSource) (λ movie_source,
  Pg.bind (Pg.varchar 255 title) (λ title,
    Pg.Ok (movie_id, movie_source, title)))).

(** Review.create: the INSERT; the counters take their default 0. The
    widths of the columns, the CHECK constraints and the UNIQUE
    (user_id, movie_id, movie_source) constraint of the table raise their
    errors. *)
Definition create (db : Db) (userId : N) (movieId movieSource : string)
    (title content : string) (rating : Z) : Db * Pg.Result ReviewRow.t :=
  let '(db1, new_id) := nextval_reviews db in
  match stored_texts movieId movieSource title with
  | Pg.Error code => (db1, Pg.Error code)
  | Pg.Ok (movieId, movieSource, title) =>
      if negb (source_ok movieSource && rating_ok rating)
      then (db1, Pg.Error Pg.check_violation)
      else if existsb (by_user_movie userId movieId movieSource) (reviews db1)
      then (db1, Pg.Error Pg.unique_violation)
      else
        let row := {| id := new_id; user_id := userId; movie_id := movieId;
                      movie_source := movieSource; title := title;
                      content := content; rating := rating;
                      helpful_count := 0; total_votes := 0 |} in
        (with_reviews db1 (reviews db1 ++ [row]), Pg.Ok row)
  end.

(** Review.findById: [result.rows[0] || null] *)
Definition findById (db : Db) (reviewId : N) : option ReviewRow.t :=
  List.find (by_id reviewId) (reviews db).

(** Review.findUserReviewForMovie *)
Definition findUserReviewForMovie (db : Db) (userId : N)
    (movieId movieSource : string) : option ReviewRow.t :=
  List.find (by_user_movie userId movieId movieSource) (reviews db).

(** Review.findByMovie, newest first. *)
Definition findByMovie (db : Db) (movieId movieSource : string)
    (limit offset : nat) : list ReviewRow.t :=
  take limit (drop offset (rev (List.filter (by_movie movieId movieSource)
                                            (reviews db)))).

(** Review.update: the fields given replace the old ones; the title goes
    into its column of VARCHAR(255). *)
Definition update (db : Db) (reviewId : N) (new_title new_content : option string)
    (new_rating : option Z) : Db * Pg.Result (option ReviewRow.t) :=
  let set (r : ReviewRow.t) : Pg.Result ReviewRow.t :=
    let rating' := Pg.coalesce new_rating (rating r) in
    Pg.bind (Pg.varchar 255 (Pg.coalesce new_title (title r))) (λ title',
    if rating_ok rating' then
      Pg.Ok {| id := id r; user_id := user_id r; movie_id := movie_id r;
               movie_source := movie_source r;
               title := title';
               content := Pg.coalesce new_content (content r);
               rating := rating';
               helpful_count := helpful_count r;
               total_votes := total_votes r |}
    else Pg.Error Pg.check_violation) in
  match Pg.update_where (by_id reviewId) set (reviews db) with
  | Pg.Ok (table, returned) => (with_reviews db table, Pg.Ok (head returned))
  | Pg.Error code => (db, Pg.Error code)
  end.

(** Review.delete *)
Definition delete (db : Db) (reviewId : N) : Db * option ReviewRow.t :=
  (with_reviews db (List.filter (λ r, negb (by_id reviewId r)) (reviews db)),
   List.find (by_id reviewId) (reviews db)).

(** The row the statistics query returns. *)
Record StatsRow := {
  total_reviews : Z;
  average_rating : option Q;
  recommendation_percentage : option Q
}.

(** The SELECT of Review.getMovieStats:
    [COUNT( * )], [AVG(rating::numeric)] and
    [COUNT(CASE WHEN rating >= 7 THEN 1 END) * 100.0 / COUNT( * )]. *)
Definition stats_query (db : Db) (movieId movieSource : string)
  : Pg.Result StatsRow :=
  let rows := List.filter (by_movie movieId movieSource) (reviews db) in
  let total := Pg.count rows in
  let average := Pg.avg (rating <$> rows) in
  Pg.bind
    (Pg.numeric_div
       (inject_Z (Pg.count_when (λ r, (7 <=? rating r)%Z) rows) * 100)%Q
       (inject_Z (Pg.count rows)))
    (λ percentage,
       Pg.Ok {| total_reviews := total; average_rating := average;
                recommendation_percentage := Some percentage |}).

Record MovieStats := {
  totalReviews : Z;
  averageRating : string;
  recommendationPercentage : Z
}.

(** Review.getMovieStats: the query, then the formatting of its row. *)
Definition getMovieStats `{Platform} (db : Db) (movieId movieSource : string)
  : Pg.Result MovieStats :=
  Pg.bind (stats_query db movieId movieSource) (λ stats,
    Pg.Ok {|
      totalReviews := total_reviews stats;
      averageRating :=
        match average_rating stats with
        | Some a => JS.toFixed1 a
        | None => "0.0"
        end;
      recommendationPercentage :=
        match recommendation_percentage stats with
        | Some p => JS.Math_round p
        | None => 0
        end |}).

(** Review.markHelpful:
    [helpful_count = helpful_count + CASE WHEN $2 THEN 1 ELSE 0 END,
     total_votes = total_votes + 1]. *)
Definition vote (isHelpful : bool) (r : ReviewRow.t) : Pg.Result ReviewRow.t :=
  Pg.bind (Pg.int4_add (helpful_count r) (if isHelpful then 1 else 0))
    (λ helpful',
  Pg.bind (Pg.int4_add (total_votes r) 1) (λ total',
    Pg.Ok {| id := id r; user_id := user_id r; movie_id := movie_id r;
             movie_source := movie_source r; title := title r;
             content := content r; rating := rating r;
             helpful_count := helpful'; total_votes := total' |})).

Definition markHelpful (db : Db) (reviewId : N) (isHelpful : bool)
  : Db * Pg.Result (option ReviewRow.t) :=
  match Pg.update_where (by_id reviewId) (vote isHelpful) (reviews db) with
  | Pg.Ok (table, returned) => (with_reviews db table, Pg.Ok (head returned))
  | Pg.Error code => (db, Pg.Error code)
  end.

(** The operations of the ledger that write to the table. *)
Inductive Op :=
| OpCreate (userId : N) (movieId movieSource title content : string)
           (rating : Z)
| OpUpdate (reviewId : N) (new_title new_content : option string)
           (new_rating : option Z)
| OpDelete (reviewId : N)
| OpMarkHelpful (reviewId : N) (isHelpful : bool).

Definition run (db : Db) (op : Op) : Db :=
  match op with
  | OpCreate u m s t c r => (create db u m s t c r).1
  | OpUpdate i t c r => (update db i t c r).1
  | OpDelete i => (delete db i).1
  | OpMarkHelpful i h => (markHelpful db i h).1
  end.

End Review.

(** ** The replies of the routes *)

Inductive Reply (A : Type) :=
| Json (status : nat) (body : A)
| Failure (status : nat) (error : string).
Arguments Json {A} status body.
Arguments Failure {A} status error.

Definition status_of {A} (r : Reply A) : nat :=
  match r with Json s _ => s | Failure s _ => s end.

(** ** Review routes (routes/reviews.js) *)

Module ReviewRoutes.

(** The body of POST /api/reviews. *)
Record CreateBody := {
  movieId : string;
  movieSource : option string;
  title : string;
  content : string;
  rating : Z
}.

(** [isLength({ min: lo, max: hi })] *)
Definition length_between `{Platform} (lo hi : nat) (s : string) : bool :=
  (lo <=? JS.characters s)%nat && (JS.characters s <=? hi)%nat.

(** reviewCreationValidation *)
Definition reviewCreationValidation `{Platform} (body : CreateBody) : bool :=
  (1 <=? JS.characters (movieId body))%nat
  && from_option source_ok true (movieSource body)
  && length_between 1 255 (title body)
  && length_between 10 2000 (content body)
  && ((1 <=? rating body) && (rating body <=? 10))%Z.

(** POST /api/reviews for the authenticated user [userId]. *)
Definition post_review `{Platform} (db : Db) (userId : N)
    (body : CreateBody) : Db * Reply ReviewRow.t :=
  if negb (reviewCreationValidation body)
  then (db, Failure 400 "Validation failed")
  else
    let movieSource := default "omdb" (movieSource body) in
    match Review.findUserReviewForMovie db userId (movieId body) movieSource with
    | Some _ =>
        (db, Failure 409
               "You have already reviewed this movie. Use PUT to update your review.")
    | None =>
        match Review.create db userId (movieId body) movieSource
                (title body) (content body) (rating body) with
        | (db', Pg.Ok newReview) =>
            match Review.findById db' (ReviewRow.id newReview) with
            | Some reviewWithAuthor => (db', Json 201 reviewWithAuthor)
            | None => (db', Failure 500 "Failed to create review")
            end
        | (db', Pg.Error _) => (db', Failure 500 "Failed to create review")
        end
    end.

(** POST /api/reviews/:id/helpful for the authenticated user [userId];
    [helpful] is [None] when the body has no boolean there. *)
Definition post_helpful (db : Db) (userId : N) (reviewId : N)
    (helpful : option bool) : Db * Reply ReviewRow.t :=
  match helpful with
  | None => (db, Failure 400 "Validation failed")
  | Some helpful =>
      match Review.findById db reviewId with
      | None => (db, Failure 404 "Review not found")
      | Some existingReview =>
          if (ReviewRow.user_id existingReview =? userId)%N
          then (db, Failure 400 "You cannot mark your own review as helpful")
          else
            match Review.markHelpful db reviewId helpful with
            | (db', Pg.Ok (Some updatedReview)) =>
                match Review.findById db' (ReviewRow.id updatedReview) with
                | Some reviewWithAuthor => (db', Json 200 reviewWithAuthor)
                | None => (db', Failure 500 "Failed to mark review as helpful")
                end
            | (db', _) => (db', Failure 500 "Failed to mark review as helpful")
            end
      end
  end.

(** GET /api/reviews/movie/:movieId: a page of reviews with the
    statistics. *)
Definition get_movie_reviews `{Platform} (db : Db) (movieId : string)
    (source : option string) (pageNum limitNum : nat)
  : Reply (list ReviewRow.t * Review.MovieStats) :=
  if negb (from_option source_ok true source)
  then Failure 400 "Validation failed"
  else
    let source := default "omdb" source in
    let offset := ((pageNum - 1) * limitNum)%nat in
    match Review.getMovieStats db movieId source with
    | Pg.Ok stats =>
        Json 200 (Review.findByMovie db movieId source limitNum offset, stats)
    | Pg.Error _ => Failure 500 "Failed to fetch movie reviews"
    end.

End ReviewRoutes.

(** ** Watchlist ledger (models/Watchlist.js) *)

Module Watchlist.
Import WatchlistRow.

(** [WHERE user_id = $1 AND movie_id = $2 AND movie_source = $3] *)
Definition by_user_movie (userId : N) (movieId movieSource : string)
    (w : WatchlistRow.t) : bool :=
  (user_id w =? userId)%N && String.eqb (movie_id w) movieId
  && String.eqb (movie_source w) movieSource.

(** The INSERT of Watchlist.add with its
    [ON CONFLICT (user_id, movie_id, movie_source) DO NOTHING RETURNING *]:
    no row comes back when the entry exists. The values go into the
    columns movie_id VARCHAR(50) and movie_source VARCHAR(20). *)
Definition insert_on_conflict_do_nothing (db : Db) (userId : N)
    (movieId movieSource : string) (movieData : gmap string string)
  : Db * Pg.Result (option WatchlistRow.t) :=
  let '(db1, new_id) := nextval_watchlists db in
  match Pg.bind (Pg.varchar 50 movieId) (λ movie_id,
        Pg.bind (Pg.varchar 20 movieSource) (λ movie_source,
          Pg.Ok (movie_id, movie_source))) with
  | Pg.Error code => (db1, Pg.Error code)
  | Pg.Ok (movieId, movieSource) =>
      if negb (source_ok movieSource)
      then (db1, Pg.Error Pg.check_violation)
      else if existsb (by_user_movie userId movieId movieSource)
                (watchlists db1)
      then (db1, Pg.Ok None)
      else
        let row := {| id := new_id; user_id := userId; movie_id := movieId;
                      movie_source := movieSource;
                      movie_data := movieData |} in
        (with_watchlists db1 (watchlists db1 ++ [row]), Pg.Ok (Some row))
  end.

(** Watchlist.add: [result.rows[0]], and null for a unique violation that
    is caught. *)
Definition add (db : Db) (userId : N) (movieId movieSource : string)
    (movieData : gmap string string)
  : Db * Pg.Result (option WatchlistRow.t) :=
  match insert_on_conflict_do_nothing db userId movieId movieSource
          movieData with
  | (db', Pg.Ok row) => (db', Pg.Ok row)
  | (db', Pg.Error code) =>
      if String.eqb code "23505" then (db', Pg.Ok None)
      else (db', Pg.Error code)
  end.


(** Watchlist.isInWatchlist: [result.rows.length > 0] *)
Definition isInWatchlist (db : Db) (userId : N) (movieId movieSource : string)
  : bool :=
  (0 <? length (List.filter (by_user_movie userId movieId movieSource)
                            (watchlists db)))%nat.

(** Watchlist.removeAll: the rows deleted. *)
Definition removeAll (db : Db) (userId : N) : Db * list WatchlistRow.t :=
  (with_watchlists db
     (List.filter (λ w, negb (user_id w =? userId)%N) (watchlists db)),
   List.filter (λ w, (user_id w =? userId)%N) (watchlists db)).

(** *** Popular movies *)

(** The columns of [GROUP BY movie_id, movie_source, movie_data]. *)
Definition Group : Type := string * string * gmap string string.

Definition group_of (w : WatchlistRow.t) : Group :=
  (movie_id w, movie_source w, movie_data w).

(** One more member for the group [g]. *)
Fixpoint count_into (g : Group) (groups : list (Group * N))
  : list (Group * N) :=
  match groups with
  | [] => [(g, 1%N)]
  | (g', c) :: rest =>
      if decide (g' = g) then (g', (c + 1)%N) :: rest
      else (g', c) :: count_into g rest
  end.

(** The groups of the table with their [COUNT( * )]. *)
Definition group_count (rows : list WatchlistRow.t) : list (Group * N) :=
  foldl (λ groups w, count_into (group_of w) groups) [] rows.

(** [ORDER BY watchlist_count DESC] *)
Definition more_popular (a b : Group * N) : Prop := (b.2 ≤ a.2)%N.

Global Instance more_popular_dec : RelDecision more_popular.
Proof. intros a b. unfold more_popular. apply _. Defined.

(** Watchlist.getPopularMovies: the groups by count, at most [limit]. *)
Definition getPopularMovies (db : Db) (limit : nat) : list (Group * N) :=
  take limit (merge_sort more_popular (group_count (watchlists db))).



(** *** Membership of several movies *)






End Watchlist.

(** ** Watchlist routes (routes/watchlist.js) *)

Module WatchlistRoutes.

(** The body of POST /api/watchlist. *)
Record AddBody := {
  movieId : string;
  movieSource : option string;
  movieData : gmap string string
}.

(** addToWatchlistValidation; [isURL] is the URL test of the validator
    library. *)
Definition addToWatchlistValidation `{Platform} (isURL : string → bool)
    (body : AddBody) : bool :=
  (1 <=? JS.characters (movieId body))%nat
  && from_option source_ok true (movieSource body)
  && from_option (λ t, (1 <=? JS.characters t)%nat) false
       (movieData body !! "Title")
  && from_option isURL true (movieData body !! "Poster").

(** POST /api/watchlist for the authenticated user [userId]. *)
Definition post_watchlist `{Platform} (isURL : string → bool) (db : Db)
    (userId : N) (body : AddBody) : Db * Reply WatchlistRow.t :=
  if negb (addToWatchlistValidation isURL body)
  then (db, Failure 400 "Validation failed")
  else
    let movieSource := default "omdb" (movieSource body) in
    if Watchlist.isInWatchlist db userId (movieId body) movieSource
    then (db, Failure 409 "Movie is already in your watchlist")
    else
      match Watchlist.add db userId (movieId body) movieSource
              (movieData body) with
      | (db', Pg.Ok (Some watchlistItem)) => (db', Json 201 watchlistItem)
      | (db', Pg.Ok None) =>
          (db', Failure 409 "Movie is already in your watchlist")
      | (db', Pg.Error _) =>
          (db', Failure 500 "Failed to add movie to watchlist")
      end.



End WatchlistRoutes.

(** ** The constraints of the tables, as an invariant of the state *)

(** UNIQUE (user_id, movie_id, movie_source) on a table: no row repeats the
    key of an earlier one. *)
Fixpoint unique_by {A} (same : A → A → bool) (rows : list A) : Prop :=
  match rows with
  | [] => True
  | r :: rs => existsb (same r) rs = false ∧ unique_by same rs
  end.

Definition same_review_key (a b : ReviewRow.t) : bool :=
  Review.by_user_movie (ReviewRow.user_id a) (ReviewRow.movie_id a)
    (ReviewRow.movie_source a) b.

Definition same_watchlist_key (a b : WatchlistRow.t) : bool :=
  Watchlist.by_user_movie (WatchlistRow.user_id a) (WatchlistRow.movie_id a)
    (WatchlistRow.movie_source a) b.

(** The counters of a review as the ledger leaves them: votes that were
    found helpful among the votes cast, within the INTEGER column. *)
Definition counters_ok (r : ReviewRow.t) : Prop :=
  (0 ≤ ReviewRow.helpful_count r ≤ ReviewRow.total_votes r)%Z
  ∧ (ReviewRow.total_votes r ≤ Pg.int4_max)%Z.

(** The widths of the columns movie_id VARCHAR(50) and title
    VARCHAR(255). *)
Definition review_fits (r : ReviewRow.t) : Prop :=
  Pg.fits 50 (ReviewRow.movie_id r) = true
  ∧ Pg.fits 255 (ReviewRow.title r) = true.

Definition watchlist_fits (w : WatchlistRow.t) : Prop :=
  Pg.fits 50 (WatchlistRow.movie_id w) = true.

(** The state of a database the application has written: the UNIQUE
    constraints hold, the CHECK on movie_source holds, the texts fit
    their columns, and the keys of the rows were drawn from the
    sequences. *)
Record Db_ok (db : Db) : Prop := {
  reviews_unique : unique_by same_review_key (reviews db);
  watchlists_unique : unique_by same_watchlist_key (watchlists db);
  reviews_keys : NoDup (ReviewRow.id <$> reviews db);
  reviews_keys_drawn :
    Forall (λ r, (ReviewRow.id r ≤ reviews_id_seq db)%N) (reviews db);
  reviews_counters : Forall counters_ok (reviews db);
  watchlists_source :
    Forall (λ w, source_ok (WatchlistRow.movie_source w) = true)
           (watchlists db);
  reviews_fit : Forall review_fits (reviews db);
  watchlists_fit : Forall watchlist_fits (watchlists db)
}.

(** A review as Review.create stores it, with the counters given. *)
Definition review_row (key user : N) (movie source : string) (stars : Z)
    (helpful votes : Z) : ReviewRow.t :=
  {| ReviewRow.id := key; ReviewRow.user_id := user;
     ReviewRow.movie_id := movie; ReviewRow.movie_source := source;
     ReviewRow.title := "A review"; ReviewRow.content := "Worth the evening.";
     ReviewRow.rating := stars; ReviewRow.helpful_count := helpful;
     ReviewRow.total_votes := votes |}.

Definition empty_db : Db :=
  {| reviews := []; reviews_id_seq := 0; watchlists := [];
     watchlists_id_seq := 0 |}.

(** A database with two reviews and two watchlist entries, for examples. *)
Definition sample_db : Db :=
  {| reviews := [review_row 1 7 "tt0111161" "omdb" 9 2 3;
                 review_row 2 8 "custom_3" "custom" 6 0 0];
     reviews_id_seq := 2;
     watchlists :=
       [{| WatchlistRow.id := 1; WatchlistRow.user_id := 7;
           WatchlistRow.movie_id := "tt0111161";
           WatchlistRow.movie_source := "omdb";
           WatchlistRow.movie_data := {[ "Title" := "The Shawshank Redemption" ]} |};
        {| WatchlistRow.id := 2; WatchlistRow.user_id := 8;
           WatchlistRow.movie_id := "tt0111161";
           WatchlistRow.movie_source := "omdb";
           WatchlistRow.movie_data := {[ "Title" := "Shawshank" ]} |}];
     watchlists_id_seq := 2 |}.

Definition sample_review_body : ReviewRoutes.CreateBody :=
  {| ReviewRoutes.movieId := "tt0111161"; ReviewRoutes.movieSource := None;
     ReviewRoutes.title := "Seen again";
     ReviewRoutes.content := "Still a fine film.";
     ReviewRoutes.rating := 8 |}.


(** What every write of the ledger keeps of a review: its key, its user
    and movie, counters that have not gone down and are still well formed,
    and texts that fit their columns. *)
Definition counters_kept (r r' : ReviewRow.t) : Prop :=
  ReviewRow.id r' = ReviewRow.id r
  ∧ ReviewRow.user_id r' = ReviewRow.user_id r
  ∧ ReviewRow.movie_id r' = ReviewRow.movie_id r
  ∧ ReviewRow.movie_source r' = ReviewRow.movie_source r
  ∧ (ReviewRow.helpful_count r ≤ ReviewRow.helpful_count r')%Z
  ∧ (ReviewRow.total_votes r ≤ ReviewRow.total_votes r')%Z
  ∧ (counters_ok r → counters_ok r')
  ∧ (review_fits r → review_fits r').

(** ** Watchlist ledger: listing, counting and the remaining routes *)

Module WatchlistPages.
Import WatchlistRow.

(** [WHERE user_id = $1] *)
Definition by_user (userId : N) (w : WatchlistRow.t) : bool :=
  (user_id w =? userId)%N.

(** Watchlist.findByUser: [ORDER BY created_at DESC LIMIT $2 OFFSET $3];
    the rows of a table are in the order of their insertion, so the newest
    come first in the reversed table. *)
Definition findByUser (db : Db) (userId : N) (limit offset : nat)
  : list WatchlistRow.t :=
  take limit (drop offset (rev (List.filter (by_user userId) (watchlists db)))).

(** Watchlist.getUserWatchlistCount: [parseInt(result.rows[0].count)] *)
Definition getUserWatchlistCount (db : Db) (userId : N) : nat :=
  length (List.filter (by_user userId) (watchlists db)).

(** [Math.ceil(a / b)] on counts; the division of the two integers is
    exact enough in a double for the ceiling to be the integer ceiling. *)
Definition ceil_div (a b : nat) : nat :=
  (a / b + if (a mod b =? 0)%nat then 0 else 1)%nat.

(** The body of the reply of GET /api/watchlist. *)
Record ListResponse := {
  watchlist : list WatchlistRow.t;
  totalCount : nat;
  currentPage : nat;
  totalPages : nat;
  hasMore : bool
}.

(** The validators of GET /api/watchlist: page is an integer from 1,
    limit an integer from 1 to 100; both may be absent. *)
Definition listValidation (page limit : option nat) : bool :=
  from_option (λ p, (1 <=? p)%nat) true page
  && from_option (λ l, (1 <=? l)%nat && (l <=? 100)%nat) true limit.

(** GET /api/watchlist for the authenticated user. The page has no upper
    bound and the numbers of the handler are doubles. While the end of the
    page, [pageNum * limitNum], is a safe integer the arithmetic is exact.
    An offset of 2^64 or more is 2^63 or more as the double the handler
    computes, which the database refuses as OFFSET (beyond bigint, or no
    integer as text), and the handler catches the error. Between the two
    the reply depends on how the doubles round, which is not written out:
    [beyond] stands for it. *)
Definition get_watchlist (beyond : Reply ListResponse) (db : Db) (userId : N)
    (page limit : option nat) : Reply ListResponse :=
  if negb (listValidation page limit)
  then Failure 400 "Validation failed"
  else
    let pageNum := default 1%nat page in
    let limitNum := default 50%nat limit in
    let offset := ((pageNum - 1) * limitNum)%nat in
    if JS.safe (Z.of_nat (pageNum * limitNum))
    then
      let watchlistItems := findByUser db userId limitNum offset in
      let totalCount := getUserWatchlistCount db userId in
      Json 200 {| watchlist := watchlistItems;
                  totalCount := totalCount;
                  currentPage := pageNum;
                  totalPages := ceil_div totalCount limitNum;
                  hasMore := (offset + limitNum <? totalCount)%nat |}
    else if (2 ^ 64 <=? Z.of_nat offset)%Z
    then Failure 500 "Failed to fetch watchlist"
    else beyond.


(** GET /api/watchlist/check/:movieId *)
Definition get_check (db : Db) (userId : N) (movieId : string)
    (source : option string) : Reply bool :=
  if negb (from_option source_ok true source)
  then Failure 400 "Validation failed"
  else Json 200 (Watchlist.isInWatchlist db userId movieId
                   (default "omdb" source)).

(** DELETE /api/watchlist: the reply carries [removedItems.length]. *)
Definition delete_all (db : Db) (userId : N) : Db * Reply nat :=
  let '(db', removedItems) := Watchlist.removeAll db userId in
  (db', Json 200 (length removedItems)).

(** GET /api/watchlist/stats: the count and the message with its plural. *)
Definition get_stats (db : Db) (userId : N) : Reply (nat * string) :=
  let totalCount := getUserWatchlistCount db userId in
  Json 200 (totalCount,
            "You have " +:+ JS.Number_toString (Z.of_nat totalCount)
            +:+ " movie" +:+ (if (totalCount =? 1)%nat then "" else "s")
            +:+ " in your watchlist").


End WatchlistPages.

(** ** Review ledger: listing, relative dates and the remaining routes *)

Module ReviewPages.
Import ReviewRow.

(** [WHERE r.user_id = $1] *)
Definition by_user (userId : N) (r : ReviewRow.t) : bool :=
  (user_id r =? userId)%N.

(** Review.findByUser: newest first, [LIMIT $2 OFFSET $3]. *)
Definition findByUser (db : Db) (userId : N) (limit offset : nat)
  : list ReviewRow.t :=
  take limit (drop offset (rev (List.filter (by_user userId) (reviews db)))).

(** Review.getRecentReviews: newest first, [LIMIT $1]. *)
Definition getRecentReviews (db : Db) (limit : nat) : list ReviewRow.t :=
  take limit (rev (reviews db)).

(** [`${n} ${unit}${n > 1 ? 's' : ''} ago`] *)
Definition ago (n : Z) (unit : string) : string :=
  JS.Number_toString n +:+ " " +:+ unit
  +:+ (if (1 <? n)%Z then "s" else "") +:+ " ago".

(** Review.getRelativeTime, with the clock reading [now] and the date of
    the review both in milliseconds:
    [diffInSeconds = Math.floor((now - reviewDate) / 1000)]. *)
Definition getRelativeTime (now reviewDate : Z) : string :=
  let diffInSeconds := ((now - reviewDate) / 1000)%Z in
  if (diffInSeconds <? 60)%Z then "just now"
  else if (diffInSeconds <? 3600)%Z then ago (diffInSeconds / 60) "minute"
  else if (diffInSeconds <? 86400)%Z then ago (diffInSeconds / 3600) "hour"
  else if (diffInSeconds <? 604800)%Z then ago (diffInSeconds / 86400) "day"
  else if (diffInSeconds <? 2419200)%Z
       then ago (diffInSeconds / 604800) "week"
  else if (diffInSeconds <? 29030400)%Z
       then ago (diffInSeconds / 2419200) "month"
  else ago (diffInSeconds / 29030400) "year".

(** The validators of the listing routes of reviews: page from 1, limit
    from 1 to 50; both may be absent. *)
Definition listValidation (page limit : option nat) : bool :=
  from_option (λ p, (1 <=? p)%nat) true page
  && from_option (λ l, (1 <=? l)%nat && (l <=? 50)%nat) true limit.

(** The body of the reply of GET /api/reviews/my-reviews. *)
Record ListResponse := {
  listed : list ReviewRow.t;
  currentPage : nat;
  hasMore : bool
}.

(** GET /api/reviews/my-reviews for the authenticated user:
    [hasMore: reviews.length === limitNum]. The page has no upper bound:
    as in GET /api/watchlist the arithmetic is exact while
    [pageNum * limitNum] is a safe integer, an offset of 2^64 or more is
    refused by the database, and [beyond] stands for the reply between
    the two. *)
Definition get_my_reviews (beyond : Reply ListResponse) (db : Db)
    (userId : N) (page limit : option nat) : Reply ListResponse :=
  if negb (listValidation page limit)
  then Failure 400 "Validation failed"
  else
    let pageNum := default 1%nat page in
    let limitNum := default 20%nat limit in
    let offset := ((pageNum - 1) * limitNum)%nat in
    if JS.safe (Z.of_nat (pageNum * limitNum))
    then
      let found := findByUser db userId limitNum offset in
      Json 200 {| listed := found; currentPage := pageNum;
                  hasMore := (length found =? limitNum)%nat |}
    else if (2 ^ 64 <=? Z.of_nat offset)%Z
    then Failure 500 "Failed to fetch your reviews"
    else beyond.




(** DELETE /api/reviews/:id for the authenticated user [userId] with role
    [userRole]. *)
Definition delete_review (db : Db) (userId : N) (userRole : string)
    (reviewId : N) : Db * Reply string :=
  match Review.findById db reviewId with
  | None => (db, Failure 404 "Review not found")
  | Some existingReview =>
      if negb (user_id existingReview =? userId)%N
         && negb (String.eqb userRole "admin")
      then (db, Failure 403 "You can only delete your own reviews")
      else ((Review.delete db reviewId).1,
            Json 200 "Review deleted successfully")
  end.

(** [CHECK (rating >= 1 AND rating <= 10)] on the rows of the table. *)
Definition ratings_ok (db : Db) : Prop :=
  Forall (λ r, Review.rating_ok (rating r) = true) (reviews db).

End ReviewPages.

(** ** Local catalog store (models/Movie.js): reading, searching, deleting *)

Module Catalog.
Import Aggregator.

(** A row of movies with the admin who created it. *)
Record Stored := {
  movie : MovieRow;
  created_by : option N
}.

(** The movies table, in the order of insertion, and its sequence. *)
Record Movies := {
  stored : list Stored;
  movies_id_seq : N
}.

(** The text of a parameter compared with an INTEGER column is read by the
    integer input of PostgreSQL, [int4_in]: the number, or an error (22P02
    for text that is no integer, 22003 out of range). *)
Definition IntegerInput : Type := string → Pg.Result Z.

Definition by_id (k : Z) (s : Stored) : bool := (Z.of_N (m_id (movie s)) =? k)%Z.

(** Movie.findById: [result.rows[0] || null] *)
Definition findById (int4_in : IntegerInput) (t : Movies) (id : string)
  : Pg.Result (option MovieRow) :=
  Pg.bind (int4_in id) (λ k, Pg.Ok (movie <$> List.find (by_id k) (stored t))).

(** Movie.findAll: newest first, [LIMIT $1 OFFSET $2]. *)
Definition findAll (t : Movies) (limit offset : nat) : list MovieRow :=
  take limit (drop offset (rev (movie <$> stored t))).

(** Movie.getCount *)
Definition getCount (t : Movies) : nat := length (stored t).

(** Movie.getMoviesByCreator *)
Definition getMoviesByCreator (t : Movies) (createdBy : N)
    (limit offset : nat) : list MovieRow :=
  take limit
    (drop offset
       (rev (movie <$> List.filter
                         (λ s, bool_decide (created_by s = Some createdBy))
                         (stored t)))).

(** Movie.delete: [DELETE ... WHERE id = $1 RETURNING *] *)
Definition delete (int4_in : IntegerInput) (t : Movies) (id : string)
  : Movies * Pg.Result (option MovieRow) :=
  match int4_in id with
  | Pg.Ok k =>
      ({| stored := List.filter (λ s, negb (by_id k s)) (stored t);
          movies_id_seq := movies_id_seq t |},
       Pg.Ok (movie <$> List.find (by_id k) (stored t)))
  | Pg.Error code => (t, Pg.Error code)
  end.

(** Where a character of UTF-8 starts: at the end of the text or at a
    byte that continues no character. *)
Definition at_boundary (s : string) : bool :=
  match s with
  | EmptyString => true
  | String c _ => negb (Pg.is_continuation c)
  end.

(** The text after the bytes that continue a character. *)
Fixpoint skip_continuation (s : string) : string :=
  match s with
  | String c s' => if Pg.is_continuation c then skip_continuation s' else s
  | EmptyString => EmptyString
  end.

(** [s LIKE pat] with the default escape character: [%] stands for any
    run of characters, [_] for any one character, and a backslash makes
    the character after it stand for itself. (A pattern that ends in a lone
    backslash is an error in PostgreSQL; the patterns of Movie.search end
    in [%].) *)
Fixpoint like (pat : string) : string → bool :=
  match pat with
  | EmptyString => λ s, match s with EmptyString => true | _ => false end
  | String c pat' =>
      if Ascii.eqb c "%" then
        fix any (s : string) : bool :=
          (at_boundary s && like pat' s)
          || match s with
             | EmptyString => false
             | String _ s' => any s'
             end
      else if Ascii.eqb c "_" then
        λ s, match s with
             | String _ s' => like pat' (skip_continuation s')
             | EmptyString => false
             end
      else if Ascii.eqb c "\" then
        match pat' with
        | String e pat'' =>
            λ s, match s with
                 | String d s' => Ascii.eqb e d && like pat'' s'
                 | EmptyString => false
                 end
        | EmptyString => λ _, false
        end
      else
        λ s, match s with
             | String d s' => Ascii.eqb c d && like pat' s'
             | EmptyString => false
             end
  end.

(** Text that no locale changes when it lowers it: ASCII characters only
    and none of the letters A to Z. *)
Definition lowered_char (c : ascii) : bool :=
  let n := Ascii.N_of_ascii c in
  (n <? 128)%N && negb ((65 <=? n) && (n <=? 90))%N.

Fixpoint lowered (s : string) : bool :=
  match s with
  | EmptyString => true
  | String c s' => lowered_char c && lowered s'
  end.

(** [LOWER(x)]: the mapping of the locale of the database. *)
Definition lower `{Platform} (s : string) : string :=
  if lowered s then s else locale_LOWER s.

(** [LOWER(x) LIKE LOWER($1)] on a column that may be NULL. *)
Definition ilike `{Platform} (x : option string) (pat : string) : bool :=
  from_option (λ s, like (lower pat) (lower s)) false x.

(** [EXISTS (SELECT 1 FROM unnest(a) AS e WHERE LOWER(e) LIKE LOWER($1))] *)
Definition any_ilike `{Platform} (a : option (list (option string)))
    (pat : string) : bool :=
  from_option (existsb (λ e, ilike e pat)) false a.

(** The WHERE clause of Movie.search with [$1 = `%${searchTerm}%`]. *)
Definition matches `{Platform} (searchTerm : string) (m : MovieRow)
  : bool :=
  let pat := "%" +:+ searchTerm +:+ "%" in
  ilike (Some (m_title m)) pat
  || ilike (m_director m) pat
  || any_ilike (m_cast_members m) pat
  || any_ilike (m_genre m) pat.

(** Movie.search: newest first, [LIMIT $2 OFFSET $3]. *)
Definition search `{Platform} (t : Movies) (searchTerm : string)
    (limit offset : nat) : list MovieRow :=
  take limit
    (drop offset (rev (List.filter (matches searchTerm) (movie <$> stored t)))).

(** A character that LIKE reads as itself. *)
Definition plain_char (c : ascii) : bool :=
  negb (Ascii.eqb c "%") && negb (Ascii.eqb c "_") && negb (Ascii.eqb c "\").

Fixpoint plain (s : string) : bool :=
  match s with
  | EmptyString => true
  | String c s' => plain_char c && plain s'
  end.

(** A search term made of [%] only. *)
Fixpoint all_percent (s : string) : bool :=
  match s with
  | EmptyString => true
  | String c s' => Ascii.eqb c "%" && all_percent s'
  end.

(** [t] occurs in [s]. *)
Definition occurs_in (t s : string) : Prop := ∃ a b, s = a +:+ t +:+ b.

(** [term] occurs in [s] whatever the case of the letters A to Z: a part
    of [s] is [term] up to that case. *)
Definition occurs_caseless (term s : string) : Prop :=
  ∃ a u b, s = a +:+ u +:+ b ∧ JS.caseless u term = true.

(** [term] occurs, whatever the case of the letters, in the title, the
    director, a cast member or a genre of [m]. *)
Definition mentions (term : string) (m : MovieRow) : Prop :=
  occurs_caseless term (m_title m)
  ∨ (∃ d, m_director m = Some d ∧ occurs_caseless term d)
  ∨ (∃ l e, m_cast_members m = Some l ∧ Some e ∈ l ∧ occurs_caseless term e)
  ∨ (∃ l e, m_genre m = Some l ∧ Some e ∈ l ∧ occurs_caseless term e).

(** The texts of [m] that Movie.search looks at are of ASCII
    characters. *)
Definition ascii_texts (m : MovieRow) : Prop :=
  JS.is_ascii (m_title m) = true
  ∧ (∀ d, m_director m = Some d → JS.is_ascii d = true)
  ∧ (∀ l e, m_cast_members m = Some l → Some e ∈ l → JS.is_ascii e = true)
  ∧ (∀ l e, m_genre m = Some l → Some e ∈ l → JS.is_ascii e = true).

(** The primary key of movies. *)
Definition keys_unique (t : Movies) : Prop :=
  NoDup ((λ s, m_id (movie s)) <$> stored t).

End Catalog.

(** ** External catalog gateway (services/omdb.js) and the movie routes *)

Module Omdb.
Import Aggregator.

(** What the provider answers: OMDBService.searchMovies for a query and a
    page, and OMDBService.getMovieById for an identifier (an object with
    Response 'False' when the movie is unknown or the call fails). *)
Record Gateway := {
  searchMovies : string → nat → OmdbResults;
  getMovieById : string → OmdbMovie
}.

(** One pass of the loops of getFeaturedMovies and getTopRatedMovies: the
    details of the first result of a search, when [keep] accepts them. *)
Definition first_details (gw : Gateway) (keep : OmdbMovie → bool)
    (term : string) : option OmdbMovie :=
  match Search (searchMovies gw term 1) with
  | movie :: _ =>
      let details := getMovieById gw (imdbID movie) in
      if keep details then Some details else None
  | [] => None
  end.

(** [details.Response === 'True'] *)
Definition response_true (details : OmdbMovie) : bool :=
  bool_decide (Response details = Some "True").

Definition popularSearches : list string :=
  ["Batman"; "Marvel"; "Star Wars"; "Inception"; "Avatar"; "Titanic"].

(** OMDBService.getFeaturedMovies *)
Definition getFeaturedMovies (gw : Gateway) : list OmdbMovie :=
  omap (first_details gw response_true) popularSearches.

Definition searchTerms : list string :=
  ["Godfather"; "Shawshank"; "Dark Knight"; "Pulp Fiction";
   "Lord of the Rings"; "Fight Club"; "Forrest Gump"; "Inception"; "Matrix";
   "Goodfellas"; "Silence of the Lambs"; "Saving Private Ryan"; "Terminator";
   "Alien"; "Casablanca"; "Citizen Kane"; "Vertigo"; "Psycho"; "Taxi Driver";
   "Apocalypse Now"; "Chinatown"; "Once Upon a Time"; "Interstellar"].

Definition moviesPerPage : Z := 16.

(** [arr.slice(start, end)] with integer arguments: a negative index counts
    from the end, and both are brought into the array. *)
Definition slice {A} (arr : list A) (start end_ : Z) : list A :=
  let len := Z.of_nat (length arr) in
  let k := if (start <? 0)%Z then Z.max (len + start) 0 else Z.min start len in
  let final :=
    if (end_ <? 0)%Z then Z.max (len + end_) 0 else Z.min end_ len in
  take (Z.to_nat (final - k)) (drop (Z.to_nat k) arr).

(** The search terms of a page of getTopRatedMovies. *)
Definition pageSearchTerms (page : Z) : list string :=
  let startIndex := ((page - 1) * moviesPerPage)%Z in
  let endIndex := (startIndex + moviesPerPage)%Z in
  slice searchTerms startIndex endIndex.

(** [parseFloat(details.imdbRating || '0')], where [parseFloat] is the
    reading of a decimal numeral and [None] is NaN. The movies that are
    sorted passed the rating test, so their rating is a number and the
    default is not used for them. *)
Definition rating_of (parseFloat : string → option Q) (details : OmdbMovie)
  : Q :=
  default 0%Q (parseFloat (JS.or_else (imdbRating details) "0")).

(** [details.Response === 'True' && details.imdbRating &&
     parseFloat(details.imdbRating) >= 7.0] *)
Definition good_rating (parseFloat : string → option Q)
    (details : OmdbMovie) : bool :=
  response_true details
  && match imdbRating details with
     | Some (String c s) =>
         from_option (Qle_bool 7) false (parseFloat (String c s))
     | _ => false
     end.

(** [results.sort((a, b) => rating(b) - rating(a))]: the sort is stable,
    so a movie goes behind the movies rated as high as it is or higher. *)
Fixpoint insert_by_rating (parseFloat : string → option Q) (x : OmdbMovie)
    (sorted : list OmdbMovie) : list OmdbMovie :=
  match sorted with
  | [] => [x]
  | y :: rest =>
      if Qle_bool (rating_of parseFloat x) (rating_of parseFloat y)
      then y :: insert_by_rating parseFloat x rest
      else x :: y :: rest
  end.

Definition sort_by_rating (parseFloat : string → option Q)
    (results : list OmdbMovie) : list OmdbMovie :=
  foldl (λ sorted x, insert_by_rating parseFloat x sorted) [] results.

(** OMDBService.getTopRatedMovies: the movies of the page and
    [Math.ceil(searchTerms.length / moviesPerPage)]. *)
Definition getTopRatedMovies (gw : Gateway) (parseFloat : string → option Q)
    (page : Z) : list OmdbMovie * nat :=
  (sort_by_rating parseFloat
     (omap (first_details gw (good_rating parseFloat)) (pageSearchTerms page)),
   WatchlistPages.ceil_div (length searchTerms) (Z.to_nat moviesPerPage)).

(** [movie.Source = movieSource] *)
Definition with_Source (movie : OmdbMovie) (movieSource : string)
  : OmdbMovie :=
  {| imdbID := imdbID movie; Title := Title movie; Year := Year movie;
     Type_ := Type_ movie; Runtime := Runtime movie;
     Director := Director movie; Actors := Actors movie;
     Genre := Genre movie; Plot := Plot movie; Poster := Poster movie;
     imdbRating := imdbRating movie; Language := Language movie;
     Country := Country movie; Awards := Awards movie;
     BoxOffice := BoxOffice movie; Response := Response movie;
     Source := Some movieSource |}.

(** GET /api/movies/:id *)
Definition get_movie (int4_in : Catalog.IntegerInput) (t : Catalog.Movies)
    (gw : Gateway) (id : string) : Reply OmdbMovie :=
  match Identity.decode id with
  | (Identity.custom, customId) =>
      match Catalog.findById int4_in t customId with
      | Pg.Ok (Some customMovie) =>
          Json 200 (with_Source (transformToOMDBFormat customMovie) "custom")
      | Pg.Ok None => Failure 404 "Movie not found"
      | Pg.Error _ => Failure 500 "Failed to fetch movie details"
      end
  | (Identity.omdb, id) =>
      let movie := getMovieById gw id in
      if bool_decide (Response movie = Some "False")
      then Failure 404 "Movie not found"
      else Json 200 (with_Source movie "omdb")
  end.

(** GET /api/movies/lists/featured:
    [[...omdbFeatured, ...transformedCustomMovies].slice(0, 12)] *)
Definition get_featured (t : Catalog.Movies) (gw : Gateway)
  : list OmdbMovie :=
  slice (getFeaturedMovies gw
         ++ map transformToOMDBFormat (Catalog.findAll t 6 0)) 0 12.

(** DELETE /api/movies/admin/custom-movies/:id, past the admin gate. *)
Definition delete_movie (int4_in : Catalog.IntegerInput) (t : Catalog.Movies)
    (id : string) : Catalog.Movies * Reply string :=
  match Catalog.delete int4_in t id with
  | (t', Pg.Ok (Some deletedMovie)) => (t', Json 200 "Movie deleted successfully")
  | (t', Pg.Ok None) => (t', Failure 404 "Movie not found")
  | (t', Pg.Error _) => (t', Failure 500 "Failed to delete movie")
  end.

(** GET /api/movies/search. The query is [q], at least one character
    long, and [page] is the page when one is given, an integer of at least
    1 past the validation; both searches are made for the query and the
    page, the local one with 20 rows a page. The page has no upper bound
    and the numbers of the handler are doubles: the arithmetic is exact
    while the end of the local page, [pageNum * 20], is a safe integer; an
    offset of 2^64 or more is 2^63 or more as the double the handler
    computes, which the database refuses as OFFSET, so that Movie.search
    fails and the handler catches the error; [beyond] stands for the reply
    between the two, which depends on how the doubles round. *)
Definition get_search `{Platform} (beyond : Reply SearchResponse)
    (t : Catalog.Movies) (gw : Gateway) (q : string) (page : option Z)
  : Reply SearchResponse :=
  if (JS.characters q <? 1)%nat || from_option (λ p, (p <? 1)%Z) false page
  then Failure 400 "Validation failed"
  else
    let pageNum := default 1%Z page in
    if JS.safe (pageNum * 20)
    then
      let omdbResults := searchMovies gw q (Z.to_nat pageNum) in
      let customResults :=
        Catalog.search t q 20 (Z.to_nat ((pageNum - 1) * 20)) in
      Json 200 (search_response omdbResults customResults pageNum)
    else if (2 ^ 64 <=? (pageNum - 1) * 20)%Z
    then Failure 500 "Search failed"
    else beyond.

(** An integer input for the examples. It reads the texts made of decimal
    digits and refuses every other text with 22P02, also the signed and
    the padded numerals, which PostgreSQL reads. *)
Definition decimal_input : Catalog.IntegerInput :=
  λ s, if negb (digits_only s) || String.eqb s EmptyString
       then Pg.Error "22P02"
       else
         match JS.parseInt s with
         | Some k =>
             if ((Pg.int4_min <=? k) && (k <=? Pg.int4_max))%Z then Pg.Ok k
             else Pg.Error "22003"
         | None => Pg.Error "22P02"
         end.

(** A catalog of two movies and a provider that knows one, for examples. *)
Definition sample_catalog : Catalog.Movies :=
  {| Catalog.stored :=
       [{| Catalog.movie := local_row 3 "Dune" (Some 2021%Z);
           Catalog.created_by := Some 1%N |};
        {| Catalog.movie := local_row 4 "Arrival" (Some 2016%Z);
           Catalog.created_by := Some 1%N |}];
     Catalog.movies_id_seq := 4 |}.

Definition sample_gateway : Gateway :=
  {| searchMovies := λ _ _,
       {| Search := [external_entry "tt0068646" "The Godfather" "1972"];
          totalResults := "1"; omdb_Response := "True";
          omdb_Error := None |};
     getMovieById := λ id, external_entry id "The Godfather" "1972" |}.

End Omdb.

(** ** Environment validation (utils/envValidation.js) and the startup *)

Module Env.

(** [process.env] is a map from the variables that are set to their
    values. [!!process.env[name]]: the variable is set, and not to the
    empty string. *)
Definition is_set (env : gmap string string) (name : string) : bool :=
  match env !! name with
  | Some (String _ _) => true
  | _ => false
  end.

Definition REQUIRED_ENV_VARS : list string := ["JWT_SECRET"; "OMDB_API_KEY"].

Definition OPTIONAL_ENV_VARS : list (string * string) :=
  [("PORT", "5000"); ("NODE_ENV", "development"); ("BCRYPT_ROUNDS", "12");
   ("JWT_EXPIRES_IN", "7d")].

Definition DATABASE_VARS : list string :=
  ["DB_HOST"; "DB_PORT"; "DB_NAME"; "DB_USER"; "DB_PASSWORD"].

(** [if (c) arr.push(msg)] *)
Definition push_if (c : bool) (msg : string) (arr : list string)
  : list string :=
  if c then arr ++ [msg] else arr.

(** The loop over REQUIRED_ENV_VARS. *)
Definition check_required (env : gmap string string) (errors : list string)
  : list string :=
  foldl (λ errors envVar,
           push_if (negb (is_set env envVar))
             ("Missing required environment variable: " +:+ envVar) errors)
        errors REQUIRED_ENV_VARS.

Definition hasDatabaseUrl (env : gmap string string) : bool :=
  is_set env "DATABASE_URL".

Definition hasIndividualDbVars (env : gmap string string) : bool :=
  forallb (is_set env) DATABASE_VARS.

Definition check_database (env : gmap string string) (errors : list string)
  : list string :=
  push_if (negb (hasDatabaseUrl env) && negb (hasIndividualDbVars env))
    ("Database configuration missing. Either set DATABASE_URL or all of: "
     +:+ JS.join ", " (Some <$> DATABASE_VARS))
    errors.

(** One pass of the loop over OPTIONAL_ENV_VARS, on [process.env] and the
    warnings. *)
Definition set_default (state : gmap string string * list string)
    (entry : string * string) : gmap string string * list string :=
  let '(env, warnings) := state in
  let '(envVar, defaultValue) := entry in
  if negb (is_set env envVar)
  then (<[envVar := defaultValue]> env,
        warnings ++ [envVar +:+ " not set, using default: " +:+ defaultValue])
  else (env, warnings).

Definition set_defaults (env : gmap string string) (warnings : list string)
  : gmap string string * list string :=
  foldl set_default (env, warnings) OPTIONAL_ENV_VARS.

(** [isNaN(n) || n < lo || n > hi] for [n = parseInt(process.env[name])] *)
Definition not_within (env : gmap string string) (name : string) (lo hi : Z)
  : bool :=
  match env !! name ≫= JS.parseInt with
  | Some n => (n <? lo)%Z || (hi <? n)%Z
  | None => true
  end.

Definition validEnvironments : list string :=
  ["development"; "production"; "test"].

(** [arr.includes(x)] for a variable that may be undefined. *)
Definition includes (arr : list string) (x : option string) : bool :=
  match x with
  | Some v => bool_decide (v ∈ arr)
  | None => false
  end.

(** validateSpecificVariables: only warnings are added. *)
Definition validateSpecificVariables (env : gmap string string)
    (warnings : list string) : list string :=
  let warnings :=
    push_if (is_set env "JWT_SECRET"
             && (String.length (default "" (env !! "JWT_SECRET")) <? 32)%nat)
      "JWT_SECRET should be at least 32 characters for security" warnings in
  let warnings :=
    push_if (not_within env "BCRYPT_ROUNDS" 10 15)
      "BCRYPT_ROUNDS should be between 10-15 for optimal security/performance"
      warnings in
  let warnings :=
    push_if (negb (includes validEnvironments (env !! "NODE_ENV")))
      ("NODE_ENV should be one of: "
       +:+ JS.join ", " (Some <$> validEnvironments))
      warnings in
  push_if (not_within env "PORT" 1 65535)
    "PORT should be a valid port number (1-65535)" warnings.

Inductive Outcome :=
| Returned (value : bool)
| Thrown (message : string).

(** What a call leaves: [process.env], both lists, and how it ended. *)
Record Run := {
  env_after : gmap string string;
  errors : list string;
  warnings : list string;
  outcome : Outcome
}.

(** validateEnvironment *)
Definition validateEnvironment (env : gmap string string) : Run :=
  let errors := check_database env (check_required env []) in
  let '(env, warnings) := set_defaults env [] in
  let warnings := validateSpecificVariables env warnings in
  {| env_after := env;
     errors := errors;
     warnings := warnings;
     outcome :=
       if (0 <? length errors)%nat
       then Thrown
              "Environment validation failed. Check the logs above for details."
       else Returned true |}.

Record EnvironmentInfo := {
  nodeEnv : option string;
  port : option string;
  hasDatabase : bool;
  hasOMDB : bool;
  hasJWTSecret : bool;
  bcryptRounds : option string;
  jwtExpiresIn : option string
}.

(** getEnvironmentInfo *)
Definition getEnvironmentInfo (env : gmap string string) : EnvironmentInfo :=
  {| nodeEnv := env !! "NODE_ENV";
     port := env !! "PORT";
     hasDatabase := is_set env "DATABASE_URL" || is_set env "DB_HOST";
     hasOMDB := is_set env "OMDB_API_KEY";
     hasJWTSecret := is_set env "JWT_SECRET";
     bcryptRounds := env !! "BCRYPT_ROUNDS";
     jwtExpiresIn := env !! "JWT_EXPIRES_IN" |}.

(** server.js: [const PORT = process.env.PORT || 5000], the text of the
    variable or the number 5000. *)
Definition listen_port (env : gmap string string) : string + Z :=
  match env !! "PORT" with
  | Some (String c s) => inl (String c s)
  | _ => inr 5000%Z
  end.

(** server.js, the health check:
    [process.env.OMDB_API_KEY ? 'configured' : 'missing_api_key'] *)
Definition omdb_service (env : gmap string string) : string :=
  if is_set env "OMDB_API_KEY" then "configured" else "missing_api_key".

(** database/connection.js: the configuration of the pool, by the
    connection string when DATABASE_URL is set (with
    [ssl: process.env.NODE_ENV === 'production' ? {...} : false]) and by
    the five variables otherwise, each as it is in [process.env]. *)
Inductive PoolConfig :=
| ByConnectionString (connectionString : string) (ssl : bool)
| ByVariables (host port database user password : option string).

Definition poolConfig (env : gmap string string) : PoolConfig :=
  match env !! "DATABASE_URL" with
  | Some (String c s) =>
      ByConnectionString (String c s)
        (bool_decide (env !! "NODE_ENV" = Some "production"))
  | _ =>
      ByVariables (env !! "DB_HOST") (env !! "DB_PORT") (env !! "DB_NAME")
        (env !! "DB_USER") (env !! "DB_PASSWORD")
  end.

(** A value that is set and not empty. *)
Definition given (x : option string) : Prop := ∃ c s, x = Some (String c s).

(** An environment with what the validation asks for, for examples. *)
Definition sample_env : gmap string string :=
  {[ "JWT_SECRET" := "0123456789abcdef0123456789abcdef";
     "OMDB_API_KEY" := "38c2cec1";
     "DATABASE_URL" := "postgresql://u:p@h:5432/d";
     "PORT" := "abc" ]}.

End Env.
(** ** Facts about the JavaScript primitives *)

Section js_facts.

Example parseInt_hex : JS.parseInt "0x1A" = Some 26%Z.
Proof. reflexivity. Qed.

Example parseInt_prefix : JS.parseInt "  42abc" = Some 42%Z.
Proof. reflexivity. Qed.

Example parseInt_nan : JS.parseInt "N/A" = None.
Proof. reflexivity. Qed.

Example replace_first_only :
  JS.replace "custom_" "" "custom_custom_7" = "custom_7".
Proof. reflexivity. Qed.

Lemma startsWith_app p s : JS.startsWith p (p +:+ s) = true.
Proof.
  induction p as [|a p IH]; simpl; [done|].
  by rewrite Ascii.eqb_refl.
Qed.

Lemma string_drop_app p s : JS.string_drop (String.length p) (p +:+ s) = s.
Proof. induction p as [|a p IH]; simpl; auto. Qed.

(** A pattern at the very start of the string is the occurrence replaced. *)
Lemma replace_prefix pat rep s : JS.replace pat rep (pat +:+ s) = rep +:+ s.
Proof.
  destruct s as [|c s], pat as [|a pat]; simpl; try done.
  - rewrite Ascii.eqb_refl.
    pose proof (startsWith_app pat "") as ->.
    by pose proof (string_drop_app pat "") as ->.
  - rewrite Ascii.eqb_refl.
    pose proof (startsWith_app pat (String c s)) as ->.
    by pose proof (string_drop_app pat (String c s)) as ->.
Qed.


(** *** Decimal numerals are read back by parseInt *)

Lemma is_decimal_pretty_char y : is_decimal (pretty_N_char y) = true.
Proof. unfold pretty_N_char. by repeat case_match. Qed.

Lemma digit_val_pretty_char y :
  (y < 10)%N → JS.digit_val 10 (pretty_N_char y) = Some y.
Proof.
  intros Hy.
  assert (y = 0 ∨ y = 1 ∨ y = 2 ∨ y = 3 ∨ y = 4 ∨ y = 5 ∨ y = 6 ∨ y = 7 ∨
          y = 8 ∨ y = 9)%N as Hcases by lia.
  repeat (destruct Hcases as [->|Hcases]; [reflexivity|]).
  by subst.
Qed.

Lemma is_decimal_not_special c :
  is_decimal c = true →
  JS.is_space c = false ∧ Ascii.eqb c "-" = false ∧ Ascii.eqb c "+" = false ∧
  Ascii.eqb "x" c = false ∧ Ascii.eqb "X" c = false ∧
  JS.digit_val 10 c = Some (Ascii.N_of_ascii c - 48)%N.
Proof.
  destruct c as [[] [] [] [] [] [] [] []]; vm_compute; intros H;
    try discriminate H; repeat split.
Qed.

(** The digits written for [x] in front of [s]: they are read as [x],
    shifted behind what was read before. *)
Lemma read_digits_pretty_go x :
  ∃ k, ∀ acc seen s,
    JS.read_digits 10 acc seen (pretty_N_go x s)
    = JS.read_digits 10 (acc * 10 ^ k + x)%N (seen || (0 <? x)%N) s.
Proof.
  induction (N.lt_wf_0 x) as [x _ IH].
  destruct (decide (0 < x)%N) as [Hpos|Hzero].
  - destruct (IH (x `div` 10)%N) as [k Hk].
    { apply N.div_lt; lia. }
    exists (k + 1)%N. intros acc seen s.
    rewrite pretty_N_go_step by done. rewrite Hk. simpl.
    rewrite digit_val_pretty_char by (apply N.mod_lt; lia).
    assert ((0 <? x)%N = true) as -> by by apply N.ltb_lt.
    rewrite orb_true_r. f_equal.
    rewrite N.pow_add_r, N.pow_1_r.
    pose proof (N.div_mod x 10). lia.
  - assert (x = 0%N) as -> by lia. exists 0%N. intros acc seen s.
    rewrite pretty_N_go_0. simpl. rewrite orb_false_r. f_equal. lia.
Qed.

Lemma pretty_go_digits x :
  ∀ s, ∃ d, pretty_N_go x s = d +:+ s ∧ digits_only d = true ∧
            ((0 < x)%N → d ≠ "").
Proof.
  induction (N.lt_wf_0 x) as [x _ IH]; intros s.
  destruct (decide (0 < x)%N) as [Hpos|Hzero].
  - destruct (IH (x `div` 10)%N) with
      (s := String (pretty_N_char (x `mod` 10)) s) as [d (Hd & Hdig & _)].
    { apply N.div_lt; lia. }
    exists (d +:+ String (pretty_N_char (x `mod` 10)) "").
    rewrite pretty_N_go_step by done. rewrite Hd. split; [|split].
    + clear. induction d as [|a d IHd]; [done|].
      change (String a d +:+ ?t) with (String a (d +:+ t)). by rewrite IHd.
    + clear -Hdig. induction d as [|a d IHd].
      * change (is_decimal (pretty_N_char (x `mod` 10)) && true = true).
        by rewrite is_decimal_pretty_char.
      * change (String a d +:+ ?t) with (String a (d +:+ t)).
        simpl in *. apply andb_true_iff in Hdig as [-> ?]. simpl. auto.
    + intros _. by destruct d.
  - assert (x = 0%N) as -> by lia. exists "". rewrite pretty_N_go_0.
    repeat split; lia.
Qed.

Lemma startsWith_cons a p b s :
  JS.startsWith (String a p) (String b s)
  = if Ascii.eqb a b then JS.startsWith p s else false.
Proof. reflexivity. Qed.

Lemma startsWith_letter_digits c d :
  (∀ b, is_decimal b = true → Ascii.eqb c b = false) →
  digits_only d = true → JS.startsWith (String c "") d = false.
Proof.
  intros Hc Hd. destruct d as [|b d]; [done|].
  rewrite startsWith_cons.
  simpl in Hd. apply andb_true_iff in Hd as [Hb _]. by rewrite (Hc b Hb).
Qed.

Lemma parseInt_digits d :
  digits_only d = true → d ≠ "" →
  JS.parseInt d = Z.of_N <$> JS.read_digits 10 0 false d.
Proof.
  intros Hd Hne. destruct d as [|c d]; [done|].
  simpl in Hd. apply andb_true_iff in Hd as [Hc Hd].
  destruct (is_decimal_not_special c Hc) as (Hsp & Hm & Hp & _).
  unfold JS.parseInt. cbn [JS.trim_start]. rewrite Hsp, Hm, Hp.
  unfold JS.read_unsigned.
  assert (JS.startsWith "0x" (String c d) = false) as ->.
  { rewrite startsWith_cons. destruct (Ascii.eqb "0" c); [|done].
    apply startsWith_letter_digits; [|done].
    intros b Hb. by destruct (is_decimal_not_special b Hb) as (_&_&_&?&_). }
  assert (JS.startsWith "0X" (String c d) = false) as ->.
  { rewrite startsWith_cons. destruct (Ascii.eqb "0" c); [|done].
    apply startsWith_letter_digits; [|done].
    intros b Hb. by destruct (is_decimal_not_special b Hb) as (_&_&_&_&?&_). }
  done.
Qed.

Lemma string_app_nil_r (s : string) : s +:+ "" = s.
Proof.
  induction s as [|a s IH]; [done|].
  change (String a s +:+ "") with (String a (s +:+ "")). by rewrite IH.
Qed.

Lemma parseInt_Number_toString (n : N) :
  JS.parseInt (JS.Number_toString (Z.of_N n)) = Some (Z.of_N n).
Proof.
  unfold JS.Number_toString.
  assert (pretty (Z.of_N n) = pretty n) as -> by by destruct n.
  unfold pretty, pretty_N. case_decide as Hn; [by subst|].
  destruct (pretty_go_digits n "") as [d (Hd & Hdig & Hne)].
  rewrite string_app_nil_r in Hd.
  assert (d ≠ "") as Hne' by (apply Hne; lia).
  rewrite Hd, (parseInt_digits d Hdig Hne'), <- Hd.
  destruct (read_digits_pretty_go n) as [k ->]. simpl.
  assert ((0 <? n)%N = true) as -> by (apply N.ltb_lt; lia).
  simpl. f_equal; lia.
Qed.

Lemma Number_toString_digits (n : N) :
  digits_only (JS.Number_toString (Z.of_N n)) = true.
Proof.
  unfold JS.Number_toString.
  assert (pretty (Z.of_N n) = pretty n) as -> by by destruct n.
  unfold pretty, pretty_N. case_decide as Hn; [by subst|].
  destruct (pretty_go_digits n "") as [d (Hd & Hdig & _)].
  by rewrite Hd, string_app_nil_r.
Qed.

Lemma Number_toString_nonempty (n : N) :
  String.eqb (JS.Number_toString (Z.of_N n)) "" = false.
Proof.
  unfold JS.Number_toString.
  assert (pretty (Z.of_N n) = pretty n) as -> by by destruct n.
  unfold pretty, pretty_N. case_decide as Hn; [by subst|].
  destruct (pretty_go_digits n "") as [d (Hd & _ & Hne)].
  rewrite Hd, string_app_nil_r. apply String.eqb_neq, Hne. lia.
Qed.

(** *** Characters and case *)

Lemma ascii_enum (P : ascii → bool) :
  forallb P (map ascii_of_nat (seq 0 256)) = true → ∀ c, P c = true.
Proof.
  intros Hall c. rewrite forallb_forall in Hall. apply Hall.
  rewrite <- (ascii_nat_embedding c). apply in_map, in_seq.
  pose proof (nat_ascii_bounded c). lia.
Qed.

Lemma lower_char_same_letter c d :
  Ascii.eqb (JS.lower_char c) (JS.lower_char d) = JS.same_letter c d.
Proof.
  assert (H : ∀ c, forallb (λ d, Bool.eqb
                                   (Ascii.eqb (JS.lower_char c) (JS.lower_char d))
                                   (JS.same_letter c d))
                     (map ascii_of_nat (seq 0 256)) = true).
  { apply (ascii_enum
             (λ c, forallb (λ d, Bool.eqb
                                   (Ascii.eqb (JS.lower_char c)
                                      (JS.lower_char d))
                                   (JS.same_letter c d))
                     (map ascii_of_nat (seq 0 256)))).
    vm_compute. reflexivity. }
  apply Bool.eqb_prop.
  exact (ascii_enum
           (λ d, Bool.eqb (Ascii.eqb (JS.lower_char c) (JS.lower_char d))
                   (JS.same_letter c d)) (H c) d).
Qed.

Lemma lower_ascii_caseless s : ∀ t,
  String.eqb (JS.lower_ascii s) (JS.lower_ascii t) = JS.caseless s t.
Proof.
  induction s as [|c s IH]; intros [|d t]; simpl; try done.
  by rewrite lower_char_same_letter, IH.
Qed.

Lemma caseless_sym s : ∀ t, JS.caseless s t = JS.caseless t s.
Proof.
  intros t. by rewrite <- !lower_ascii_caseless, String.eqb_sym.
Qed.

Lemma lower_ascii_app a b :
  JS.lower_ascii (a +:+ b) = JS.lower_ascii a +:+ JS.lower_ascii b.
Proof.
  induction a as [|c a IH]; [done|].
  change (String c a +:+ b) with (String c (a +:+ b)).
  cbn [JS.lower_ascii]. by rewrite IH.
Qed.

Lemma lower_ascii_length s : String.length (JS.lower_ascii s) = String.length s.
Proof. induction s as [|c s IH]; simpl; [done|]. by rewrite IH. Qed.

Lemma is_ascii_app a b :
  JS.is_ascii (a +:+ b) = JS.is_ascii a && JS.is_ascii b.
Proof.
  induction a as [|c a IH]; [done|].
  change (String c a +:+ b) with (String c (a +:+ b)).
  cbn [JS.is_ascii]. by rewrite IH, andb_assoc.
Qed.

Lemma lower_char_ascii c :
  JS.is_ascii_char (JS.lower_char c) = JS.is_ascii_char c.
Proof.
  apply Bool.eqb_prop.
  apply (ascii_enum (λ c, Bool.eqb (JS.is_ascii_char (JS.lower_char c))
                            (JS.is_ascii_char c))).
  vm_compute. reflexivity.
Qed.

Lemma is_ascii_lower s : JS.is_ascii (JS.lower_ascii s) = JS.is_ascii s.
Proof.
  induction s as [|c s IH]; [done|].
  cbn [JS.lower_ascii JS.is_ascii]. by rewrite lower_char_ascii, IH.
Qed.

End js_facts.

Section identity_facts.
Import Identity.

(** decode is total: a prefixed string is local with the rest as its
    identifier, any other string is external and kept whole. *)
Lemma decode_prefixed s : decode ("custom_" +:+ s) = (custom, s).
Proof. unfold decode. by rewrite startsWith_app, replace_prefix. Qed.

Lemma decode_unprefixed s :
  JS.startsWith "custom_" s = false → decode s = (omdb, s).
Proof. unfold decode. by intros ->. Qed.

(** The origin and the identifier text name one reference: the decimal
    text of a key is the text of no other key. *)
Lemma ref_pair_inj (r r' : MovieRef) :
  (origin r', rawId r') = (origin r, rawId r) → r' = r.
Proof.
  destruct r as [id|imdbID], r' as [id'|imdbID']; simpl; intros [= Heq];
    try done.
  - unfold JS.Number_toString in Heq. apply (inj pretty) in Heq.
    f_equal. lia.
  - by subst.
Qed.

Lemma decode_encode (r : MovieRef) :
  valid_ref r → decode (encode r) = (origin r, rawId r).
Proof.
  intros Hvalid. destruct r as [id|imdbID]; cbn [encode origin rawId].
  - apply decode_prefixed.
  - by apply decode_unprefixed.
Qed.

(** C1: for a local reference (a numeric key of the movies table) and for
    an external reference whose identifier does not start with 'custom_',
    decoding the encoded reference gives back the origin and the raw
    identifier, and these two name no other reference. *)
Theorem decode_encode_roundtrip (r : MovieRef) :
  valid_ref r →
  decode (encode r) = (origin r, rawId r) ∧
  ∀ r', (origin r', rawId r') = decode (encode r) → r' = r.
Proof.
  intros Hvalid. rewrite (decode_encode r Hvalid). split; [done|].
  intros r'. apply ref_pair_inj.
Qed.

Lemma decode_encode_roundtrip_witness :
  valid_ref (External "tt0816692") ∧
  decode (encode (External "tt0816692")) = (omdb, "tt0816692").
Proof.
  split; [reflexivity|].
  apply (decode_encode_roundtrip (External "tt0816692")). reflexivity.
Defined.

Example decode_local_42 : decode (encode (Local 42)) = (custom, "42").
Proof. vm_compute. reflexivity. Qed.

(** An external identifier that starts with the local prefix is read as a
    local reference. *)
Example decode_prefixed_external :
  decode (encode (External "custom_7")) = (custom, "7").
Proof. vm_compute. reflexivity. Qed.

(** The encoding is unambiguous on valid references. *)
Corollary encode_inj (r1 r2 : MovieRef) :
  valid_ref r1 → valid_ref r2 → encode r1 = encode r2 → r1 = r2.
Proof.
  intros H1 H2 Heq. apply ref_pair_inj.
  by rewrite <- (decode_encode r1 H1), <- (decode_encode r2 H2), Heq.
Qed.

End identity_facts.

(** ** Combined search *)

Section aggregator_facts.
Import Aggregator.
Context `{platform : Platform}.

Lemma toLowerCase_ascii s :
  JS.is_ascii s = true → JS.toLowerCase s = JS.lower_ascii s.
Proof. unfold JS.toLowerCase. by intros ->. Qed.

(** On titles of ASCII characters the test of the code is the test of the
    specification. *)
Lemma same_title_year_ascii a b :
  JS.is_ascii (Title a) = true → JS.is_ascii (Title b) = true →
  same_title_year a b = titles_years_match a b.
Proof.
  intros Ha Hb. unfold same_title_year, titles_years_match.
  rewrite !toLowerCase_ascii by done.
  by rewrite lower_ascii_caseless, caseless_sym, (String.eqb_sym (Year b)).
Qed.

Lemma same_title_year_spec movie m :
  same_title_year movie m = true ↔ duplicates m movie.
Proof.
  unfold same_title_year, duplicates.
  rewrite andb_true_iff, !String.eqb_eq. done.
Qed.

Lemma same_title_year_refl m : same_title_year m m = true.
Proof. by apply same_title_year_spec. Qed.

Lemma same_title_year_congr a b m :
  duplicates a b → same_title_year a m = same_title_year b m.
Proof.
  intros [Ht Hy]. unfold same_title_year. by rewrite Ht, Hy.
Qed.

Lemma same_title_year_sym a b : same_title_year a b = same_title_year b a.
Proof.
  unfold same_title_year.
  by rewrite (String.eqb_sym (JS.toLowerCase (Title b))),
             (String.eqb_sym (Year b)).
Qed.

Lemma existsb_same_congr a b l :
  duplicates a b →
  existsb (same_title_year a) l = existsb (same_title_year b) l.
Proof.
  intros Hab. induction l as [|x l IH]; simpl; [done|].
  by rewrite IH, (same_title_year_congr a b x Hab).
Qed.

Lemma findIndex_app_found {A} (p : A → bool) pre l :
  existsb p pre = true →
  ∃ j, JS.findIndex p (pre ++ l) = Some j ∧ j < length pre.
Proof.
  induction pre as [|x pre IH]; simpl; [done|].
  destruct (p x); simpl.
  - intros _. exists 0. split; [done|lia].
  - intros [j [-> Hj]]%IH. exists (S j). split; [done|lia].
Qed.

Lemma findIndex_app_fresh {A} (p : A → bool) pre l :
  existsb p pre = false →
  JS.findIndex p (pre ++ l) = (λ j, length pre + j) <$> JS.findIndex p l.
Proof.
  induction pre as [|x pre IH]; simpl.
  - intros _. by destruct (JS.findIndex p l).
  - destruct (p x); simpl; [done|].
    intros ->%IH. by destruct (JS.findIndex p l).
Qed.

(** The filter on indices walks the list with the entries before the
    current one as the entries seen. *)
Lemma filter_from_first_occurrences l : ∀ pre,
  JS.filter_from
    (λ movie index,
       JS.index_is index (JS.findIndex (same_title_year movie) (pre ++ l)))
    (length pre) l
  = first_occurrences same_title_year pre l.
Proof.
  induction l as [|x xs IH]; intros pre; simpl; [done|].
  specialize (IH (pre ++ [x])).
  rewrite <- app_assoc, length_app in IH. simpl in IH.
  rewrite Nat.add_1_r in IH.
  destruct (existsb (same_title_year x) pre) eqn:Hseen.
  - destruct (findIndex_app_found (same_title_year x) pre (x :: xs) Hseen)
      as [j [-> Hj]].
    simpl. destruct (Nat.eqb_spec (length pre) j); [lia|]. done.
  - rewrite (findIndex_app_fresh _ _ _ Hseen). simpl.
    rewrite same_title_year_refl. simpl.
    rewrite Nat.add_0_r, Nat.eqb_refl. by rewrite IH.
Qed.

Lemma uniqueMovies_first_occurrences combined :
  uniqueMovies combined = first_occurrences same_title_year [] combined.
Proof. apply (filter_from_first_occurrences combined []). Qed.

(** Among the entries kept, those that duplicate [e] are: none when one
    was seen before, otherwise the first duplicate of [e] in the list. *)
Lemma filter_first_occurrences e l : ∀ seen,
  List.filter (same_title_year e) (first_occurrences same_title_year seen l)
  = if existsb (same_title_year e) seen then []
    else match List.find (same_title_year e) l with
         | Some e' => [e']
         | None => []
         end.
Proof.
  induction l as [|x xs IH]; intros seen; simpl.
  { by destruct (existsb _ seen). }
  assert (Hsnoc : existsb (same_title_year e) (seen ++ [x])
                  = existsb (same_title_year e) seen || same_title_year e x).
  { rewrite existsb_app. simpl. by rewrite orb_false_r. }
  destruct (same_title_year e x) eqn:Hex.
  - assert (Hdup : duplicates x e) by by apply same_title_year_spec.
    rewrite (existsb_same_congr x e seen Hdup).
    destruct (existsb (same_title_year e) seen) eqn:Hseen.
    + by rewrite IH, Hsnoc.
    + simpl. by rewrite Hex, IH, Hsnoc.
  - destruct (existsb (same_title_year x) seen); simpl;
      rewrite ?Hex, IH, Hsnoc, orb_false_r; done.
Qed.

Lemma find_app_found {A} (p : A → bool) l1 l2 x :
  x ∈ l1 → p x = true →
  ∃ y, List.find p l1 = Some y ∧ List.find p (l1 ++ l2) = Some y ∧ y ∈ l1.
Proof.
  induction l1 as [|a l1 IH]; [by intros ?%elem_of_nil|].
  intros Hin Hp. simpl. destruct (p a) eqn:Hpa.
  - exists a. repeat split; [done..|]. apply list_elem_of_here.
  - apply elem_of_cons in Hin as [->|Hin]; [congruence|].
    destruct (IH Hin Hp) as [y (? & ? & ?)].
    exists y. repeat split; [done..|]. by apply list_elem_of_further.
Qed.

Lemma existsb_agree {A} (f g : A → bool) (l : list A) :
  (∀ y, y ∈ l → f y = g y) → existsb f l = existsb g l.
Proof.
  induction l as [|x l IH]; intros Hfg; simpl; [done|].
  rewrite (Hfg x (list_elem_of_here _ _)), IH; [done|].
  intros y Hy. apply Hfg. by apply list_elem_of_further.
Qed.

Lemma first_occurrences_ext (same same' : OmdbMovie → OmdbMovie → bool) l :
  ∀ seen,
  (∀ x y, x ∈ seen ++ l → y ∈ seen ++ l → same x y = same' x y) →
  first_occurrences same seen l = first_occurrences same' seen l.
Proof.
  induction l as [|x xs IH]; intros seen Hsame; simpl; [done|].
  assert (existsb (same x) seen = existsb (same' x) seen) as ->.
  { apply existsb_agree. intros y Hy. apply Hsame.
    - apply elem_of_app. right. apply list_elem_of_here.
    - apply elem_of_app. by left. }
  rewrite (IH (seen ++ [x])); [done|].
  intros a b Ha Hb. rewrite <- app_assoc in Ha, Hb. by apply Hsame.
Qed.

Lemma same_title_year_trans a b c :
  same_title_year a b = true → same_title_year b c = true →
  same_title_year a c = true.
Proof.
  rewrite !same_title_year_spec. intros [? ?] [? ?]. split; congruence.
Qed.

(** C3: the external page and the reformatted local results are
    concatenated, local after external, and of the entries that are
    duplicates of each other only the first is kept, where two entries
    are duplicates when their years are equal and their titles are equal
    in lower case: on titles of ASCII characters, when the titles are
    equal up to the case of their letters. So every entry has exactly one
    duplicate in the result, the first one of the combined list; and for
    an external entry and a local entry that are duplicates that one is an
    external entry, and the local entry is not in the result. *)
Theorem combined_search_dedup omdbResults customResults pageNum :
  let external := Search omdbResults in
  let locals := map transformToOMDBFormat customResults in
  let result :=
    res_Search (search_response omdbResults customResults pageNum) in
  combinedMovies omdbResults customResults = external ++ locals ∧
  result = first_occurrences same_title_year [] (external ++ locals) ∧
  (∀ a b, JS.is_ascii (Title a) = true → JS.is_ascii (Title b) = true →
          same_title_year a b = titles_years_match a b) ∧
  (Forall (λ e, JS.is_ascii (Title e) = true) (external ++ locals) →
   result = first_occurrences titles_years_match [] (external ++ locals)) ∧
  (∀ e, e ∈ external ++ locals →
     ∃ e', List.find (same_title_year e) (external ++ locals) = Some e' ∧
           List.filter (same_title_year e) result = [e']) ∧
  (∀ e l, e ∈ external → l ∈ locals → same_title_year e l = true →
     ∃ e', e' ∈ external ∧ same_title_year e' l = true ∧
           List.filter (same_title_year l) result = [e'] ∧
           (l ∉ external → l ∉ result)).
Proof.
  intros external locals result.
  assert (Hresult : result
                    = first_occurrences same_title_year []
                        (external ++ locals)).
  { apply uniqueMovies_first_occurrences. }
  split; [done|]. split; [exact Hresult|].
  split; [exact same_title_year_ascii|]. split.
  { intros Hascii. rewrite Hresult. apply first_occurrences_ext.
    rewrite Forall_forall in Hascii.
    intros x y Hx Hy. by apply same_title_year_ascii; apply Hascii. }
  split.
  { intros e He. rewrite Hresult, filter_first_occurrences. simpl.
    destruct (find_app_found (same_title_year e) (external ++ locals) [] e He
                (same_title_year_refl e)) as [e' (Hf & _ & _)].
    exists e'. by rewrite Hf. }
  intros e l He Hl Hdup.
  destruct (find_app_found (same_title_year e) external locals e He
              (same_title_year_refl e)) as [e' (Hf & Hfa & Hin)].
  assert (Hee' : same_title_year e e' = true).
  { by apply find_some in Hf as [_ ?]. }
  assert (Hfilter : List.filter (same_title_year l) result = [e']).
  { rewrite (filter_ext (same_title_year l) (same_title_year e)).
    - by rewrite Hresult, filter_first_occurrences, Hfa.
    - intros m. apply same_title_year_congr. by apply same_title_year_spec. }
  exists e'. split; [done|]. split.
  { apply (same_title_year_trans e' e l); [|done].
    by rewrite same_title_year_sym. }
  split; [exact Hfilter|].
  intros Hnot Hkept.
  assert (l ∈ List.filter (same_title_year l) result) as Hl'.
  { apply list_elem_of_In, filter_In. split; [by apply list_elem_of_In|].
    apply same_title_year_refl. }
  rewrite Hfilter in Hl'. apply list_elem_of_singleton in Hl'. by subst e'.
Qed.

(** C4: the total reported by a combined search is the total of the
    external provider plus the number of local rows of the page, whatever
    the deduplication removes; it is not the length of the returned list.
    The sum is made in doubles: it is this sum as long as it is a safe
    integer. *)
Theorem total_results_before_dedup :
  (∀ (n : N) omdbResults customResults pageNum,
     totalResults omdbResults = JS.Number_toString (Z.of_N n) →
     (Z.of_N n + Z.of_nat (length customResults) ≤ JS.MAX_SAFE_INTEGER)%Z →
     res_totalResults (search_response omdbResults customResults pageNum)
     = JS.Number_toString (Z.of_N n + Z.of_nat (length customResults))) ∧
  (∃ omdbResults customResults pageNum,
     let response := search_response omdbResults customResults pageNum in
     res_totalResults response
     ≠ JS.Number_toString (Z.of_nat (length (res_Search response)))).
Proof.
  split.
  - intros n omdbResults customResults pageNum Htotal Hsafe.
    unfold search_response. cbn [res_totalResults].
    rewrite Htotal, parseInt_Number_toString. unfold JS.add_toString.
    assert (JS.safe (Z.of_N n) = true) as ->.
    { unfold JS.safe, JS.MAX_SAFE_INTEGER in *.
      apply andb_true_iff. split; apply Z.leb_le; lia. }
    assert (JS.safe (Z.of_N n + Z.of_nat (length customResults)) = true)
      as ->; [|done].
    unfold JS.safe, JS.MAX_SAFE_INTEGER in *.
    apply andb_true_iff. split; apply Z.leb_le; lia.
  - exists {| Search := [external_entry "tt1160419" "Dune" "2021"];
              totalResults := "1"; omdb_Response := "True";
              omdb_Error := None |},
           [local_row 3 "Dune" (Some 2021%Z)], 1%Z.
    vm_compute. discriminate.
Qed.

End aggregator_facts.

Section aggregator_examples.
Import Aggregator.
#[local] Existing Instance sample_platform.

Lemma combined_search_dedup_witness :
  let e := external_entry "tt1160419" "Dune" "2021" in
  res_Search
    (search_response
       {| Search := [e]; totalResults := "1"; omdb_Response := "True";
          omdb_Error := None |}
       [local_row 3 "DUNE" (Some 2021%Z)] 1)
  = [e].
Proof.
  intros e.
  destruct (combined_search_dedup
              {| Search := [e]; totalResults := "1"; omdb_Response := "True";
                 omdb_Error := None |}
              [local_row 3 "DUNE" (Some 2021%Z)] 1) as (_ & _ & _ & H & _).
  rewrite H; [reflexivity|].
  repeat constructor.
Defined.

(** The example of the specification: Dune (2021) from both catalogs. *)
Example dune_once :
  res_Search
    (search_response
       {| Search := [external_entry "tt1160419" "Dune" "2021"];
          totalResults := "1"; omdb_Response := "True"; omdb_Error := None |}
       [local_row 3 "Dune" (Some 2021%Z)] 1)
  = [external_entry "tt1160419" "Dune" "2021"].
Proof. vm_compute. reflexivity. Qed.

Lemma total_results_before_dedup_witness :
  res_totalResults
    (search_response
       {| Search := [external_entry "tt1160419" "Dune" "2021"];
          totalResults := "1"; omdb_Response := "True"; omdb_Error := None |}
       [local_row 3 "Dune" (Some 2021%Z)] 1)
  = "2".
Proof.
  apply (proj1 total_results_before_dedup 1%N
           {| Search := [external_entry "tt1160419" "Dune" "2021"];
              totalResults := "1"; omdb_Response := "True";
              omdb_Error := None |}
           [local_row 3 "Dune" (Some 2021%Z)] 1%Z).
  - reflexivity.
  - vm_compute. discriminate.
Defined.

(** A total that is not a number gives NaN for the sum. *)
Example total_results_nan :
  res_totalResults
    (search_response
       {| Search := []; totalResults := "N/A"; omdb_Response := "False";
          omdb_Error := None |} [] 1)
  = "NaN".
Proof. reflexivity. Qed.

End aggregator_examples.

(** ** Review ledger *)

Section review_stats.
Context `{platform : Platform}.

(** The example of the specification: ratings 7, 8, 9 and 2. *)
Example stats_7_8_9_2 :
  Review.getMovieStats
    (with_reviews empty_db
       [review_row 1 1 "tt0111161" "omdb" 7 0 0;
        review_row 2 2 "tt0111161" "omdb" 8 0 0;
        review_row 3 3 "tt0111161" "omdb" 9 0 0;
        review_row 4 4 "tt0111161" "omdb" 2 0 0;
        review_row 5 4 "tt0068646" "omdb" 10 0 0])
    "tt0111161" "omdb"
  = Pg.Ok {| Review.totalReviews := 4; Review.averageRating := "6.5";
             Review.recommendationPercentage := 75 |}.
Proof. vm_compute. reflexivity. Qed.

(** C2: over a movie without reviews the statistics query divides by its
    own COUNT, which is zero: the query raises division_by_zero, and
    getMovieStats fails with it instead of returning the zero statistics;
    the route that reports the statistics answers 500. *)
Theorem getMovieStats_no_reviews_fails db movieId movieSource :
  List.filter (Review.by_movie movieId movieSource) (reviews db) = [] →
  Review.getMovieStats db movieId movieSource = Pg.Error Pg.division_by_zero ∧
  ∀ pageNum limitNum,
    ReviewRoutes.get_movie_reviews db movieId (Some movieSource) pageNum limitNum
    = (if source_ok movieSource
       then Failure 500 "Failed to fetch movie reviews"
       else Failure 400 "Validation failed").
Proof.
  intros Hnone.
  assert (Hstats : Review.getMovieStats db movieId movieSource
                   = Pg.Error Pg.division_by_zero).
  { unfold Review.getMovieStats, Review.stats_query. by rewrite Hnone. }
  split; [done|]. intros pageNum limitNum.
  unfold ReviewRoutes.get_movie_reviews. simpl.
  destruct (source_ok movieSource); simpl; [|done]. by rewrite Hstats.
Qed.

End review_stats.

Section review_stats_examples.
#[local] Existing Instance sample_platform.

Lemma getMovieStats_no_reviews_fails_witness :
  Review.getMovieStats
    (with_reviews empty_db [review_row 1 1 "tt0068646" "omdb" 9 0 0])
    "tt0111161" "omdb"
  = Pg.Error "22012".
Proof.
  apply (getMovieStats_no_reviews_fails
           (with_reviews empty_db [review_row 1 1 "tt0068646" "omdb" 9 0 0])
           "tt0111161" "omdb").
  reflexivity.
Defined.

(** The text of the average 6.35 is read as a double below it. *)
Example average_6_35 : JS.toFixed1 (127 # 20) = "6.3".
Proof. vm_compute. reflexivity. Qed.

End review_stats_examples.

(** ** Facts about tables *)

Section table_facts.
Context {A : Type}.
Implicit Types (p : A → bool) (rows : list A).

Lemma existsb_false_filter p rows :
  existsb p rows = false → List.filter p rows = [].
Proof.
  induction rows as [|r rs IH]; simpl; [done|].
  destruct (p r); simpl; [done|]. exact IH.
Qed.

Lemma existsb_true_elem p rows :
  existsb p rows = true ↔ ∃ r, r ∈ rows ∧ p r = true.
Proof.
  rewrite existsb_exists. setoid_rewrite list_elem_of_In. done.
Qed.

Lemma existsb_ext_eq p q rows :
  (∀ x, p x = q x) → existsb p rows = existsb q rows.
Proof.
  intros Hpq. induction rows as [|r rs IH]; simpl; [done|].
  by rewrite Hpq, IH.
Qed.

Lemma find_elem_Some p rows r :
  r ∈ rows → p r = true → ∃ r', List.find p rows = Some r'.
Proof.
  intros Hin Hp. destruct (List.find p rows) as [r'|] eqn:Hfind; [eauto|].
  apply list_elem_of_In in Hin.
  pose proof (find_none p rows Hfind r Hin). congruence.
Qed.

Lemma find_None_existsb p rows :
  List.find p rows = None → existsb p rows = false.
Proof.
  induction rows as [|r rs IH]; simpl; [done|].
  destruct (p r); [done|]. exact IH.
Qed.


Lemma find_snoc_Some p rows r x :
  List.find p rows = Some r → List.find p (rows ++ [x]) = Some r.
Proof.
  induction rows as [|y rs IH]; simpl; [done|].
  destruct (p y); [done|]. exact IH.
Qed.

Lemma find_snoc_None p rows x :
  List.find p rows = None →
  List.find p (rows ++ [x]) = if p x then Some x else None.
Proof.
  induction rows as [|y rs IH]; simpl; [done|].
  destruct (p y); [done|]. exact IH.
Qed.

(** Under a UNIQUE constraint a key that is present is present once. *)
Lemma unique_by_count (same : A → A → bool) p rows :
  (∀ r x, p r = true → same r x = p x) →
  unique_by same rows → existsb p rows = true →
  length (List.filter p rows) = 1.
Proof.
  intros Hsame. induction rows as [|r rs IH]; simpl; [done|].
  intros [Hfresh Huniq]. destruct (p r) eqn:Hpr; simpl.
  - intros _. rewrite existsb_false_filter; [done|].
    rewrite <- Hfresh. apply existsb_ext_eq. intros x.
    symmetry. by apply Hsame.
  - by apply IH.
Qed.

Lemma unique_by_snoc (same : A → A → bool) rows r :
  (∀ a b, same a b = same b a) →
  unique_by same rows → existsb (same r) rows = false →
  unique_by same (rows ++ [r]).
Proof.
  intros Hsym. induction rows as [|x xs IH]; simpl; [done|].
  intros [Hfresh Huniq] [Hrx Hrest]%orb_false_iff.
  split; [|by apply IH].
  rewrite existsb_app. simpl. by rewrite Hfresh, Hsym, Hrx.
Qed.

(** An UPDATE that matches no row changes nothing. *)
Lemma update_where_no_match p (f : A → Pg.Result A) rows :
  existsb p rows = false → Pg.update_where p f rows = Pg.Ok (rows, []).
Proof.
  induction rows as [|r rs IH]; simpl; [done|].
  intros [Hr Hrs]%orb_false_iff. by rewrite Hr, (IH Hrs).
Qed.

(** Row by row, a successful UPDATE leaves a row alone or applies [f]. *)
Lemma update_where_rows p (f : A → Pg.Result A) rows table returned :
  Pg.update_where p f rows = Pg.Ok (table, returned) →
  Forall2 (λ r r', r' = r ∨ f r = Pg.Ok r') rows table.
Proof.
  revert table returned.
  induction rows as [|r rs IH]; simpl; intros table returned.
  { intros [= <- <-]. constructor. }
  destruct (p r) eqn:Hpr; simpl.
  - destruct (f r) as [r'|] eqn:Hfr; simpl; [|done].
    destruct (Pg.update_where p f rs) as [[t ret]|]; simpl; [|done].
    intros [= <- <-]. constructor; [by right|]. by eapply IH.
  - destruct (Pg.update_where p f rs) as [[t ret]|]; simpl; [|done].
    intros [= <- <-]. constructor; [by left|]. by eapply IH.
Qed.

(** Looking a row up before and after a row-by-row change. *)
Lemma find_Forall2 (R : A → A → Prop) p rows table r0 r1 :
  Forall2 R rows table → (∀ r r', R r r' → p r = p r') →
  List.find p rows = Some r0 → List.find p table = Some r1 → R r0 r1.
Proof.
  intros Hrows Hp. induction Hrows as [|r r' rs rs' HR _ IH]; simpl; [done|].
  rewrite <- (Hp r r' HR). destruct (p r); [|exact IH].
  by intros [= <-] [= <-].
Qed.

Lemma find_filter_const p (q : A → bool) (c : bool) rows :
  (∀ x, p x = true → q x = c) →
  List.find p (List.filter q rows) = if c then List.find p rows else None.
Proof.
  intros Hq. induction rows as [|r rs IH]; simpl; [by destruct c|].
  destruct (p r) eqn:Hpr.
  - rewrite (Hq r Hpr). destruct c; simpl; [by rewrite Hpr|exact IH].
  - destruct (q r); simpl; [by rewrite Hpr|exact IH].
Qed.

Lemma existsb_pointwise (E : A → A → Prop) p p' rows table :
  Forall2 E rows table → (∀ b b', E b b' → p' b' = p b) →
  existsb p' table = existsb p rows.
Proof.
  intros Hrows Hp. induction Hrows as [|r r' rs rs' HE _ IH]; simpl; [done|].
  by rewrite (Hp r r' HE), IH.
Qed.

(** An UPDATE that leaves the key columns alone keeps a UNIQUE
    constraint. *)
Lemma unique_by_pointwise (E : A → A → Prop) (same : A → A → bool) rows table :
  Forall2 E rows table →
  (∀ a a' b b', E a a' → E b b' → same a' b' = same a b) →
  unique_by same rows → unique_by same table.
Proof.
  intros Hrows Hsame.
  induction Hrows as [|r r' rs rs' HE Hrest IH]; simpl; [done|].
  intros [Hfresh Huniq]. split; [|by apply IH].
  rewrite <- Hfresh. eapply existsb_pointwise; [exact Hrest|].
  intros b b' Hb. by apply Hsame.
Qed.

Lemma unique_by_filter (same : A → A → bool) (q : A → bool) rows :
  unique_by same rows → unique_by same (List.filter q rows).
Proof.
  induction rows as [|r rs IH]; simpl; [done|].
  intros [Hfresh Huniq]. destruct (q r); simpl; [|by apply IH].
  split; [|by apply IH].
  destruct (existsb (same r) (List.filter q rs)) eqn:Hex; [|done].
  apply existsb_true_elem in Hex as [x [Hx Hsame]].
  apply list_elem_of_In, filter_In in Hx as [Hx _].
  rewrite <- Hfresh. symmetry. apply existsb_true_elem.
  exists x. split; [by apply list_elem_of_In|done].
Qed.

Lemma Forall_pointwise (E : A → A → Prop) (P : A → Prop) rows table :
  Forall2 E rows table → (∀ r r', E r r' → P r → P r') →
  Forall P rows → Forall P table.
Proof.
  intros Hrows HP. induction Hrows as [|r r' rs rs' HE _ IH]; [done|].
  intros [Hr Hrs]%Forall_cons. constructor; [by eapply HP|by apply IH].
Qed.

Lemma Forall_list_filter (P : A → Prop) (q : A → bool) rows :
  Forall P rows → Forall P (List.filter q rows).
Proof.
  induction rows as [|r rs IH]; simpl; [done|].
  intros [Hr Hrs]%Forall_cons. destruct (q r); [constructor|]; auto.
Qed.

Lemma fmap_pointwise {B} (E : A → A → Prop) (f : A → B) rows table :
  Forall2 E rows table → (∀ r r', E r r' → f r' = f r) →
  f <$> table = f <$> rows.
Proof.
  intros Hrows Hf. induction Hrows as [|r r' rs rs' HE _ IH]; [done|].
  by rewrite !fmap_cons, (Hf r r' HE), IH.
Qed.

Lemma NoDup_fmap_list_filter {B} (f : A → B) (q : A → bool) rows :
  NoDup (f <$> rows) → NoDup (f <$> List.filter q rows).
Proof.
  induction rows as [|r rs IH]; [done|].
  rewrite fmap_cons. intros [Hr Hrs]%NoDup_cons.
  simpl. destruct (q r); [|by apply IH].
  rewrite fmap_cons. apply NoDup_cons. split; [|by apply IH].
  intros [x [Hfx Hx]]%list_elem_of_fmap. apply Hr.
  apply list_elem_of_fmap. exists x. split; [done|].
  apply list_elem_of_In, filter_In in Hx as [Hx _].
  by apply list_elem_of_In.
Qed.

End table_facts.

(** ** The widths of the columns *)

Section column_facts.

Lemma split_chars_fits s : ∀ n, Pg.fits n (Pg.split_chars n s).1 = true.
Proof.
  unfold Pg.fits. induction s as [|c s IH]; intros n; [done|].
  cbn [Pg.split_chars]. destruct (Pg.is_continuation c) eqn:Hc.
  - specialize (IH n). destruct (Pg.split_chars n s) as [kept rest].
    cbn [fst Pg.char_length] in *. by rewrite Hc.
  - destruct n as [|n]; [done|].
    specialize (IH n). destruct (Pg.split_chars n s) as [kept rest].
    cbn [fst Pg.char_length] in *. rewrite Hc.
    apply Nat.leb_le in IH. apply Nat.leb_le. lia.
Qed.

(** A text that fits is stored as it is, and what is stored fits. *)
Lemma varchar_fits n s : Pg.fits n s = true → Pg.varchar n s = Pg.Ok s.
Proof. unfold Pg.varchar. by intros ->. Qed.

Lemma varchar_stored n s s' :
  Pg.varchar n s = Pg.Ok s' → Pg.fits n s' = true.
Proof.
  unfold Pg.varchar. destruct (Pg.fits n s) eqn:Hfits.
  - by intros [= <-].
  - pose proof (split_chars_fits s n) as Hkept.
    destruct (Pg.split_chars n s) as [kept excess].
    destruct (Pg.all_spaces excess); [|done]. by intros [= <-].
Qed.

Lemma source_ok_spec s : source_ok s = true ↔ s = "omdb" ∨ s = "custom".
Proof.
  unfold source_ok. by rewrite orb_true_iff, !String.eqb_eq.
Qed.

Lemma source_ok_varchar s : source_ok s = true → Pg.varchar 20 s = Pg.Ok s.
Proof. by intros [->| ->]%source_ok_spec. Qed.

Lemma stored_texts_fits movieId movieSource title :
  Pg.fits 50 movieId = true → source_ok movieSource = true →
  Pg.fits 255 title = true →
  Review.stored_texts movieId movieSource title
  = Pg.Ok (movieId, movieSource, title).
Proof.
  intros Hm Hs Ht. unfold Review.stored_texts.
  by rewrite (varchar_fits _ _ Hm), (source_ok_varchar _ Hs),
    (varchar_fits _ _ Ht).
Qed.

Lemma stored_texts_stored movieId movieSource title m s t :
  Review.stored_texts movieId movieSource title = Pg.Ok (m, s, t) →
  Pg.fits 50 m = true ∧ Pg.fits 255 t = true.
Proof.
  unfold Review.stored_texts.
  destruct (Pg.varchar 50 movieId) as [m'|] eqn:Hm; [|done].
  destruct (Pg.varchar 20 movieSource) as [s'|] eqn:Hs; [|done].
  destruct (Pg.varchar 255 title) as [t'|] eqn:Ht; [|done].
  cbn [Pg.bind]. intros [= <- <- <-].
  split; by eapply varchar_stored.
Qed.

(** Text of ASCII characters has as many characters as bytes. *)
Lemma char_length_ascii s :
  JS.is_ascii s = true → Pg.char_length s = String.length s.
Proof.
  induction s as [|c s IH]; [done|]. cbn [JS.is_ascii Pg.char_length].
  intros [Hc Hs]%andb_true_iff. rewrite (IH Hs).
  assert (Pg.is_continuation c = false) as ->; [|done].
  unfold Pg.is_continuation, JS.is_ascii_char in *.
  apply N.ltb_lt in Hc. apply andb_false_iff. left. apply N.leb_gt. lia.
Qed.

End column_facts.

Section review_facts.
Import ReviewRow.
Context `{platform : Platform}.

Lemma review_by_user_movie_spec u m s r :
  Review.by_user_movie u m s r = true
  ↔ user_id r = u ∧ movie_id r = m ∧ movie_source r = s.
Proof.
  unfold Review.by_user_movie.
  rewrite !andb_true_iff, N.eqb_eq, !String.eqb_eq. tauto.
Qed.

Lemma same_review_key_sym a b : same_review_key a b = same_review_key b a.
Proof.
  unfold same_review_key, Review.by_user_movie.
  by rewrite (N.eqb_sym (user_id b)), (String.eqb_sym (movie_id b)),
             (String.eqb_sym (movie_source b)).
Qed.

Lemma same_review_key_matching u m s r x :
  Review.by_user_movie u m s r = true →
  same_review_key r x = Review.by_user_movie u m s x.
Proof.
  intros (Hu & Hm & Hs)%review_by_user_movie_spec.
  unfold same_review_key. by rewrite Hu, Hm, Hs.
Qed.

Lemma source_ok_default (movieSource : option string) :
  from_option source_ok true movieSource = true →
  source_ok (default "omdb" movieSource) = true.
Proof. by destruct movieSource. Qed.

Lemma post_review_existing db userId body existing :
  ReviewRoutes.reviewCreationValidation body = true →
  existing ∈ reviews db →
  Review.by_user_movie userId (ReviewRoutes.movieId body)
    (default "omdb" (ReviewRoutes.movieSource body)) existing = true →
  ReviewRoutes.post_review db userId body
  = (db, Failure 409
           "You have already reviewed this movie. Use PUT to update your review.").
Proof.
  intros Hvalid Hin Hmatch.
  unfold ReviewRoutes.post_review. rewrite Hvalid. simpl.
  unfold Review.findUserReviewForMovie.
  by destruct (find_elem_Some _ _ _ Hin Hmatch) as [r' ->].
Qed.

(** The empty database satisfies the constraints; [create_ok], [run_ok]
    and [add_ok] below carry them through the writes of the ledgers. *)
Lemma empty_db_ok : Db_ok empty_db.
Proof. split; simpl; try done. apply NoDup_nil_2. Qed.

Lemma sample_db_ok : Db_ok sample_db.
Proof.
  split; simpl.
  - repeat split.
  - repeat split.
  - compute_done.
  - repeat constructor; simpl; lia.
  - repeat constructor; unfold Pg.int4_max; simpl; lia.
  - repeat constructor.
  - repeat constructor.
  - repeat constructor.
Qed.

(** C5: when the user already has a review of the movie, POST /api/reviews
    with a body that passes the validators, which measure the title and
    the content in characters, answers 409 and leaves the database as it
    was, and the table holds exactly one review of that user for that
    movie. *)
Theorem duplicate_review_conflict db userId body existing :
  Db_ok db →
  ReviewRoutes.reviewCreationValidation body = true →
  existing ∈ reviews db →
  Review.by_user_movie userId (ReviewRoutes.movieId body)
    (default "omdb" (ReviewRoutes.movieSource body)) existing = true →
  ReviewRoutes.post_review db userId body
  = (db, Failure 409
           "You have already reviewed this movie. Use PUT to update your review.")
  ∧ length (List.filter
              (Review.by_user_movie userId (ReviewRoutes.movieId body)
                 (default "omdb" (ReviewRoutes.movieSource body)))
              (reviews db)) = 1.
Proof.
  intros Hok Hvalid Hin Hmatch. split.
  - by eapply post_review_existing.
  - apply (unique_by_count same_review_key).
    + intros r x. apply same_review_key_matching.
    + apply Hok.
    + apply existsb_true_elem. eauto.
Qed.

(** The sequence moves on, the rows stay. *)
Lemma nextval_reviews_ok db : Db_ok db → Db_ok (nextval_reviews db).1.
Proof.
  intros [Hu Hw Hk Hd Hc Hs Hrf Hwf]. split; simpl; try done.
  eapply Forall_impl; [exact Hd|]. simpl. intros r Hr. lia.
Qed.

(** Review.create keeps the constraints of the tables. *)
Lemma create_ok db userId movieId movieSource title content rating :
  Db_ok db →
  Db_ok (Review.create db userId movieId movieSource title content rating).1.
Proof.
  intros Hok. pose proof (nextval_reviews_ok db Hok) as Hok1.
  unfold Review.create.
  destruct (nextval_reviews db) as [db1 new_id] eqn:Hnext.
  assert (Hrows : reviews db1 = reviews db) by by injection Hnext as <- _.
  assert (Hseq : reviews_id_seq db1 = new_id) by by injection Hnext as <- <-.
  simpl in Hok1.
  destruct (Review.stored_texts movieId movieSource title)
    as [[[m s] t]|] eqn:Htexts; [|done].
  destruct (negb _); [done|].
  destruct (existsb _ (reviews db1)) eqn:Hfresh; [done|].
  destruct Hok1 as [Hu Hw Hk Hd Hc Hs Hrf Hwf]. split; simpl; try done.
  - apply unique_by_snoc; [apply same_review_key_sym|done|exact Hfresh].
  - rewrite fmap_app. simpl. apply NoDup_app. split; [done|].
    split; [|apply NoDup_singleton].
    intros k [r [Hk' Hr]]%list_elem_of_fmap Hnew%list_elem_of_singleton.
    pose proof (reviews_keys_drawn db Hok) as Hold.
    rewrite Forall_forall in Hold. rewrite Hrows in Hr.
    specialize (Hold r Hr). simpl in Hold.
    injection Hnext as _ <-. lia.
  - apply Forall_app. split; [done|]. constructor; [|done]. simpl. lia.
  - apply Forall_app. split; [done|]. constructor; [|done].
    unfold counters_ok, Pg.int4_max. simpl. lia.
  - apply Forall_app. split; [done|]. constructor; [|done].
    by apply stored_texts_stored in Htexts.
Qed.

(** Two creations in a row: the first inserts, the second is refused, and
    one review of the user for the movie is in the table. *)
Lemma review_twice db userId body :
  Db_ok db →
  ReviewRoutes.reviewCreationValidation body = true →
  Pg.fits 50 (ReviewRoutes.movieId body) = true →
  Pg.fits 255 (ReviewRoutes.title body) = true →
  Review.findUserReviewForMovie db userId (ReviewRoutes.movieId body)
    (default "omdb" (ReviewRoutes.movieSource body)) = None →
  ∃ db' r,
    ReviewRoutes.post_review db userId body = (db', Json 201 r) ∧
    ReviewRoutes.post_review db' userId body
    = (db', Failure 409
              "You have already reviewed this movie. Use PUT to update your review.")
    ∧ length (List.filter
                (Review.by_user_movie userId (ReviewRoutes.movieId body)
                   (default "omdb" (ReviewRoutes.movieSource body)))
                (reviews db')) = 1.
Proof.
  intros Hok Hvalid Hfits_id Hfits_title Hnone.
  pose proof Hvalid as Hparts. unfold ReviewRoutes.reviewCreationValidation in Hparts.
  apply andb_true_iff in Hparts as [Hparts Hrating].
  apply andb_true_iff in Hparts as [Hparts _].
  apply andb_true_iff in Hparts as [Hparts _].
  apply andb_true_iff in Hparts as [_ Hsource%source_ok_default].
  set (row := {| id := (reviews_id_seq db + 1)%N; user_id := userId;
                 movie_id := ReviewRoutes.movieId body;
                 movie_source := default "omdb" (ReviewRoutes.movieSource body);
                 title := ReviewRoutes.title body;
                 content := ReviewRoutes.content body;
                 rating := ReviewRoutes.rating body;
                 helpful_count := 0; total_votes := 0 |}).
  assert (Hkey : Review.by_user_movie userId (ReviewRoutes.movieId body)
                   (default "omdb" (ReviewRoutes.movieSource body)) row = true).
  { by apply review_by_user_movie_spec. }
  assert (Hcreate :
    Review.create db userId (ReviewRoutes.movieId body)
      (default "omdb" (ReviewRoutes.movieSource body))
      (ReviewRoutes.title body) (ReviewRoutes.content body)
      (ReviewRoutes.rating body)
    = (with_reviews (nextval_reviews db).1 (reviews db ++ [row]), Pg.Ok row)).
  { unfold Review.create, nextval_reviews.
    rewrite (stored_texts_fits _ _ _ Hfits_id Hsource Hfits_title).
    cbn [reviews].
    unfold Review.rating_ok. rewrite Hsource, Hrating.
    cbn [negb andb].
    by rewrite (find_None_existsb _ _ Hnone). }
  exists (with_reviews (nextval_reviews db).1 (reviews db ++ [row])), row.
  split; [|split].
  - unfold ReviewRoutes.post_review. rewrite Hvalid. cbn [negb].
    cbv zeta. rewrite Hnone, Hcreate.
    unfold Review.findById. cbn [reviews with_reviews].
    rewrite find_snoc_None.
    + unfold Review.by_id. cbn [id row]. by rewrite N.eqb_refl.
    + destruct (List.find _ (reviews db)) as [r|] eqn:Hfind; [|done].
      apply find_some in Hfind as [Hin Hid%N.eqb_eq].
      pose proof (reviews_keys_drawn db Hok) as Hold.
      rewrite Forall_forall in Hold. apply list_elem_of_In in Hin.
      specialize (Hold r Hin). simpl in Hold, Hid. lia.
  - apply (post_review_existing _ _ _ row); [done| |done].
    cbn [reviews with_reviews]. apply elem_of_app. right.
    apply list_elem_of_here.
  - cbn [reviews with_reviews]. rewrite List.filter_app. simpl. rewrite Hkey.
    rewrite existsb_false_filter; [done|]. by apply find_None_existsb.
Qed.

Lemma vote_spec isHelpful r r' :
  Review.vote isHelpful r = Pg.Ok r' →
  id r' = id r ∧ user_id r' = user_id r ∧ movie_id r' = movie_id r ∧
  movie_source r' = movie_source r ∧
  helpful_count r' = (helpful_count r + if isHelpful then 1 else 0)%Z ∧
  total_votes r' = (total_votes r + 1)%Z ∧
  (total_votes r' ≤ Pg.int4_max)%Z.
Proof.
  unfold Review.vote, Pg.int4_add. simpl.
  destruct (_ && _); simpl; [|done].
  destruct (_ && _) eqn:Hrange; simpl; [|done].
  intros [= <-]. simpl. repeat split.
  apply andb_true_iff in Hrange as [_ Hmax]. by apply Z.leb_le.
Qed.

Lemma vote_kept isHelpful r r' :
  Review.vote isHelpful r = Pg.Ok r' → counters_kept r r'.
Proof.
  intros Hvote. pose proof Hvote as Htexts.
  apply vote_spec in Hvote as (Hid & Hu & Hm & Hs & Hh & Ht & Hmax).
  assert (title r' = title r) as Htitle.
  { unfold Review.vote in Htexts.
    destruct (Pg.int4_add _ _); [|done]. cbn [Pg.bind] in Htexts.
    destruct (Pg.int4_add _ _); [|done]. cbn [Pg.bind] in Htexts.
    by injection Htexts as <-. }
  unfold counters_kept, counters_ok, review_fits. rewrite Hm, Htitle.
  destruct isHelpful; intuition lia.
Qed.

Lemma vote_in_range isHelpful r :
  (0 ≤ helpful_count r ≤ total_votes r)%Z →
  (total_votes r < Pg.int4_max)%Z →
  ∃ r', Review.vote isHelpful r = Pg.Ok r'.
Proof.
  intros Hcount Hmax. unfold Review.vote, Pg.int4_add. simpl.
  unfold Pg.int4_max, Pg.int4_min in *.
  assert (((-2147483648 <=? helpful_count r + (if isHelpful then 1 else 0))
           && (helpful_count r + (if isHelpful then 1 else 0) <=? 2147483647))%Z
          = true) as ->.
  { destruct isHelpful; apply andb_true_iff; split; apply Z.leb_le; lia. }
  assert (((-2147483648 <=? total_votes r + 1)
           && (total_votes r + 1 <=? 2147483647))%Z = true) as ->.
  { apply andb_true_iff; split; apply Z.leb_le; lia. }
  simpl. eauto.
Qed.

(** An UPDATE by primary key changes the one row that has the key. *)
Lemma update_where_by_id reviewId f rows r r' :
  NoDup (id <$> rows) →
  List.find (Review.by_id reviewId) rows = Some r →
  f r = Pg.Ok r' → id r' = id r →
  ∃ table,
    Pg.update_where (Review.by_id reviewId) f rows = Pg.Ok (table, [r']) ∧
    List.find (Review.by_id reviewId) table = Some r'.
Proof.
  intros Hnodup Hfind Hf Hid.
  induction rows as [|x xs IH]; simpl in *; [done|].
  apply NoDup_cons in Hnodup as [Hx Hxs].
  destruct (Review.by_id reviewId x) eqn:Hbx.
  - injection Hfind as ->. rewrite Hf. simpl.
    rewrite update_where_no_match.
    + simpl. exists (r' :: xs). split; [done|]. simpl.
      unfold Review.by_id in *. by rewrite Hid, Hbx.
    + destruct (existsb _ xs) eqn:Hex; [|done].
      apply existsb_true_elem in Hex as [y [Hy Hby]].
      exfalso. apply Hx. apply list_elem_of_fmap. exists y. split; [|done].
      unfold Review.by_id in *.
      apply N.eqb_eq in Hbx, Hby. congruence.
  - destruct (IH Hxs Hfind) as [table [-> Hfound]]. simpl.
    exists (x :: table). split; [done|]. simpl. by rewrite Hbx.
Qed.

Lemma counters_kept_by_id j r r' :
  counters_kept r r' → Review.by_id j r = Review.by_id j r'.
Proof. intros [Hid _]. unfold Review.by_id. by rewrite Hid. Qed.

Lemma counters_kept_refl r : counters_kept r r.
Proof. unfold counters_kept, counters_ok, review_fits. intuition lia. Qed.

Lemma update_where_counters_kept p f rows table returned :
  (∀ r r', f r = Pg.Ok r' → counters_kept r r') →
  Pg.update_where p f rows = Pg.Ok (table, returned) →
  Forall2 counters_kept rows table.
Proof.
  intros Hf Hupdate. apply update_where_rows in Hupdate.
  eapply Forall2_impl; [exact Hupdate|]. simpl.
  intros r r' [->|Hr]; [apply counters_kept_refl|by apply Hf].
Qed.

Lemma update_kept new_title new_content new_rating r r' :
  (let rating' := Pg.coalesce new_rating (rating r) in
   Pg.bind (Pg.varchar 255 (Pg.coalesce new_title (title r))) (λ title',
   if Review.rating_ok rating' then
     Pg.Ok {| id := id r; user_id := user_id r; movie_id := movie_id r;
              movie_source := movie_source r;
              title := title';
              content := Pg.coalesce new_content (content r);
              rating := rating';
              helpful_count := helpful_count r;
              total_votes := total_votes r |}
   else Pg.Error Pg.check_violation)) = Pg.Ok r' →
  counters_kept r r'.
Proof.
  cbv zeta.
  destruct (Pg.varchar 255 _) as [title'|] eqn:Htitle; [|done].
  cbn [Pg.bind]. destruct (Review.rating_ok _); [|done].
  intros [= <-]. apply varchar_stored in Htitle.
  unfold counters_kept, counters_ok, review_fits. simpl.
  intuition lia.
Qed.

(** No operation of the ledger lowers a counter of a review. *)
Lemma run_counters_kept db op reviewId r0 r1 :
  Review.findById db reviewId = Some r0 →
  Review.findById (Review.run db op) reviewId = Some r1 →
  (helpful_count r0 ≤ helpful_count r1)%Z ∧
  (total_votes r0 ≤ total_votes r1)%Z.
Proof.
  unfold Review.findById. intros H0 H1.
  assert (Hsame : reviews (Review.run db op) = reviews db → r1 = r0).
  { intros Heq. rewrite Heq in H1. congruence. }
  assert (Hkept : Forall2 counters_kept (reviews db)
                    (reviews (Review.run db op)) →
                  (helpful_count r0 ≤ helpful_count r1)%Z ∧
                  (total_votes r0 ≤ total_votes r1)%Z).
  { intros Hall.
    by destruct (find_Forall2 counters_kept _ _ _ r0 r1 Hall
                   (counters_kept_by_id reviewId) H0 H1)
      as (_ & _ & _ & _ & ? & ? & _ & _). }
  destruct op as [u m s t c n|i t c n|i|i h]; simpl in *.
  - unfold Review.create, nextval_reviews in *. simpl in *.
    destruct (Review.stored_texts m s t) as [[[m' s'] t']|]; simpl in *;
      [|rewrite Hsame; [lia|done]].
    destruct (negb _); simpl in *; [rewrite Hsame; [lia|done]|].
    destruct (existsb _ _); simpl in *; [rewrite Hsame; [lia|done]|].
    rewrite (find_snoc_Some _ _ _ _ H0) in H1. injection H1 as <-. lia.
  - unfold Review.update in *.
    destruct (Pg.update_where _ _ _) as [[table returned]|] eqn:Hupdate;
      simpl in *; [|rewrite Hsame; [lia|done]].
    apply Hkept. eapply update_where_counters_kept; [|exact Hupdate].
    apply update_kept.
  - rewrite (find_filter_const _ _ (negb (reviewId =? i)%N)) in H1.
    + destruct (negb _); [|done].
      assert (r1 = r0) as -> by congruence. lia.
    + intros x Hx%N.eqb_eq. unfold Review.by_id. by rewrite Hx.
  - unfold Review.markHelpful in *.
    destruct (Pg.update_where _ _ _) as [[table returned]|] eqn:Hupdate;
      simpl in *; [|rewrite Hsame; [lia|done]].
    apply Hkept. eapply update_where_counters_kept; [|exact Hupdate].
    intros r r'. apply vote_kept.
Qed.

(** The constraints of the tables survive every write of the ledger. *)
Lemma with_reviews_kept db table :
  Db_ok db → Forall2 counters_kept (reviews db) table →
  Db_ok (with_reviews db table).
Proof.
  intros [Hu Hw Hk Hd Hc Hs Hrf Hwf] Hrows.
  assert (Hids : id <$> table = id <$> reviews db).
  { eapply fmap_pointwise; [exact Hrows|]. by intros r r' [? _]. }
  split; simpl; try done.
  - eapply unique_by_pointwise; [exact Hrows| |exact Hu].
    intros a a' b b' (_ & Hua & Hma & Hsa & _) (_ & Hub & Hmb & Hsb & _).
    unfold same_review_key, Review.by_user_movie.
    by rewrite Hua, Hma, Hsa, Hub, Hmb, Hsb.
  - by rewrite Hids.
  - eapply Forall_pointwise; [exact Hrows| |exact Hd].
    intros r r' [Hid _]. simpl. by rewrite Hid.
  - eapply Forall_pointwise; [exact Hrows| |exact Hc].
    intros r r' (_ & _ & _ & _ & _ & _ & Hkeep & _). exact Hkeep.
  - eapply Forall_pointwise; [exact Hrows| |exact Hrf].
    intros r r' (_ & _ & _ & _ & _ & _ & _ & Hkeep). exact Hkeep.
Qed.

Lemma run_ok db op : Db_ok db → Db_ok (Review.run db op).
Proof.
  intros Hok. destruct op as [u m s t c n|i t c n|i|i h]; simpl.
  - by apply create_ok.
  - unfold Review.update.
    destruct (Pg.update_where _ _ _) as [[table returned]|] eqn:Hupdate;
      simpl; [|done].
    apply with_reviews_kept; [done|].
    eapply update_where_counters_kept; [|exact Hupdate]. apply update_kept.
  - destruct Hok as [Hu Hw Hk Hd Hc Hs Hrf Hwf]. split; simpl; try done.
    + by apply unique_by_filter.
    + by apply NoDup_fmap_list_filter.
    + by apply Forall_list_filter.
    + by apply Forall_list_filter.
    + by apply Forall_list_filter.
  - unfold Review.markHelpful.
    destruct (Pg.update_where _ _ _) as [[table returned]|] eqn:Hupdate;
      simpl; [|done].
    apply with_reviews_kept; [done|].
    eapply update_where_counters_kept; [|exact Hupdate].
    intros r r'. apply vote_kept.
Qed.

(** C7: on an existing review whose total is below the INTEGER maximum,
    markHelpful adds exactly 1 to total_votes and adds 1 to helpful_count
    when isHelpful is true and 0 when it is false; and no operation of the
    ledger lowers either counter of a review. *)
Theorem markHelpful_counts db :
  Db_ok db →
  (∀ reviewId isHelpful r,
     Review.findById db reviewId = Some r →
     (total_votes r < Pg.int4_max)%Z →
     ∃ db' r',
       Review.markHelpful db reviewId isHelpful = (db', Pg.Ok (Some r')) ∧
       Review.findById db' reviewId = Some r' ∧
       total_votes r' = (total_votes r + 1)%Z ∧
       helpful_count r'
       = (helpful_count r + if isHelpful then 1 else 0)%Z) ∧
  (∀ op reviewId r0 r1,
     Review.findById db reviewId = Some r0 →
     Review.findById (Review.run db op) reviewId = Some r1 →
     (helpful_count r0 ≤ helpful_count r1)%Z ∧
     (total_votes r0 ≤ total_votes r1)%Z).
Proof.
  intros Hok. split; [|apply run_counters_kept].
  intros reviewId isHelpful r Hfind Hmax.
  assert (Hin : r ∈ reviews db).
  { apply find_some in Hfind as [Hin _]. by apply list_elem_of_In. }
  pose proof (reviews_counters db Hok) as Hcounters.
  rewrite Forall_forall in Hcounters.
  destruct (Hcounters r Hin) as [Hrange _].
  destruct (vote_in_range isHelpful r Hrange Hmax) as [r' Hvote].
  destruct (vote_spec _ _ _ Hvote) as (Hid & _ & _ & _ & Hh & Ht & _).
  destruct (update_where_by_id reviewId (Review.vote isHelpful) (reviews db)
              r r' (reviews_keys db Hok) Hfind Hvote Hid)
    as [table [Hupdate Hfound]].
  exists (with_reviews db table), r'.
  unfold Review.markHelpful. rewrite Hupdate. simpl.
  repeat split; done.
Qed.

Lemma markHelpful_counts_witness :
  ∃ db' r',
    Review.markHelpful sample_db 1 true = (db', Pg.Ok (Some r')) ∧
    Review.findById db' 1 = Some r' ∧
    total_votes r' = 4%Z ∧ helpful_count r' = 3%Z.
Proof.
  destruct (markHelpful_counts sample_db sample_db_ok) as [Hvote _].
  apply (Hvote 1%N true (review_row 1 7 "tt0111161" "omdb" 9 2 3)).
  - reflexivity.
  - reflexivity.
Defined.

(** At the INTEGER maximum the UPDATE is refused and nothing changes. *)
Example markHelpful_at_maximum :
  Review.markHelpful
    (with_reviews empty_db
       [review_row 1 7 "tt0111161" "omdb" 9 5 2147483647]) 1 false
  = (with_reviews empty_db
       [review_row 1 7 "tt0111161" "omdb" 9 5 2147483647],
     Pg.Error "22003").
Proof. reflexivity. Qed.

(** C8: a user marking the user's own review is answered 400 before any
    write: the database, and with it both counters of the review, is as
    before. *)
Theorem self_vote_rejected db userId reviewId helpful r :
  Review.findById db reviewId = Some r →
  user_id r = userId →
  ReviewRoutes.post_helpful db userId reviewId helpful
  = (db, Failure 400
           (match helpful with
            | Some _ => "You cannot mark your own review as helpful"
            | None => "Validation failed"
            end)) ∧
  Review.findById (ReviewRoutes.post_helpful db userId reviewId helpful).1
    reviewId = Some r.
Proof.
  intros Hfind Hown. unfold ReviewRoutes.post_helpful.
  destruct helpful as [h|]; [|done].
  by rewrite Hfind, Hown, N.eqb_refl.
Qed.

Lemma self_vote_rejected_witness :
  ReviewRoutes.post_helpful sample_db 7 1 (Some true)
  = (sample_db, Failure 400 "You cannot mark your own review as helpful") ∧
  Review.findById (ReviewRoutes.post_helpful sample_db 7 1 (Some true)).1 1
  = Some (review_row 1 7 "tt0111161" "omdb" 9 2 3).
Proof.
  apply (self_vote_rejected sample_db 7 1 (Some true)
           (review_row 1 7 "tt0111161" "omdb" 9 2 3)); reflexivity.
Defined.

(** Another user's vote goes through. *)
Example vote_by_another_user :
  status_of (ReviewRoutes.post_helpful sample_db 8 1 (Some true)).2 = 200
  ∧ (total_votes
       <$> Review.findById
             (ReviewRoutes.post_helpful sample_db 8 1 (Some true)).1 1)
    = Some 4%Z.
Proof. split; reflexivity. Qed.

End review_facts.

Section review_examples.
Import ReviewRow.
#[local] Existing Instance sample_platform.

Lemma duplicate_review_conflict_witness :
  ReviewRoutes.post_review sample_db 7 sample_review_body
  = (sample_db,
     Failure 409
       "You have already reviewed this movie. Use PUT to update your review.")
  ∧ length (List.filter (Review.by_user_movie 7 "tt0111161" "omdb")
                        (reviews sample_db)) = 1.
Proof.
  apply (duplicate_review_conflict sample_db 7 sample_review_body
           (review_row 1 7 "tt0111161" "omdb" 9 2 3)).
  - exact sample_db_ok.
  - reflexivity.
  - apply list_elem_of_here.
  - reflexivity.
Defined.

(** A content of five characters outside ASCII is shorter than the ten
    the validators ask for, whatever the number of its bytes. *)
Example post_review_short_content :
  ReviewRoutes.post_review sample_db 7
    {| ReviewRoutes.movieId := "tt0111161"; ReviewRoutes.movieSource := None;
       ReviewRoutes.title := "Seen again";
       ReviewRoutes.content := "ééééé";
       ReviewRoutes.rating := 8 |}
  = (sample_db, Failure 400 "Validation failed").
Proof. reflexivity. Qed.

End review_examples.

(** ** Watchlist ledger *)

Section watchlist_facts.
Import WatchlistRow.
Context `{platform : Platform}.

Lemma watchlist_by_user_movie_spec u m s w :
  Watchlist.by_user_movie u m s w = true
  ↔ user_id w = u ∧ movie_id w = m ∧ movie_source w = s.
Proof.
  unfold Watchlist.by_user_movie.
  rewrite !andb_true_iff, N.eqb_eq, !String.eqb_eq. tauto.
Qed.



Lemma filter_nonempty_existsb {A} (p : A → bool) rows :
  (0 <? length (List.filter p rows))%nat = existsb p rows.
Proof.
  induction rows as [|r rs IH]; simpl; [done|].
  destruct (p r); simpl; [done|]. exact IH.
Qed.

Lemma isInWatchlist_spec db u m s :
  Watchlist.isInWatchlist db u m s = true
  ↔ ∃ w, w ∈ watchlists db ∧ user_id w = u ∧ movie_id w = m
         ∧ movie_source w = s.
Proof.
  unfold Watchlist.isInWatchlist.
  rewrite filter_nonempty_existsb, existsb_true_elem.
  by setoid_rewrite watchlist_by_user_movie_spec.
Qed.




(** Two additions in a row: the first inserts, the second is answered 409,
    and one entry of the user for the movie is in the table. *)
Lemma watchlist_twice isURL db userId body :
  let movieSource := default "omdb" (WatchlistRoutes.movieSource body) in
  WatchlistRoutes.addToWatchlistValidation isURL body = true →
  Pg.fits 50 (WatchlistRoutes.movieId body) = true →
  Watchlist.isInWatchlist db userId (WatchlistRoutes.movieId body)
    movieSource = false →
  ∃ db' w,
    WatchlistRoutes.post_watchlist isURL db userId body = (db', Json 201 w) ∧
    WatchlistRoutes.post_watchlist isURL db' userId body
    = (db', Failure 409 "Movie is already in your watchlist") ∧
    length (List.filter
              (Watchlist.by_user_movie userId (WatchlistRoutes.movieId body)
                 movieSource)
              (watchlists db')) = 1.
Proof.
  intros movieSource Hvalid Hfit Hnot.
  pose proof Hvalid as Hparts.
  unfold WatchlistRoutes.addToWatchlistValidation in Hparts.
  apply andb_true_iff in Hparts as [Hparts _].
  apply andb_true_iff in Hparts as [Hparts _].
  apply andb_true_iff in Hparts as [_ Hsource%source_ok_default].
  fold movieSource in Hsource.
  pose proof Hnot as Hfresh. unfold Watchlist.isInWatchlist in Hfresh.
  rewrite filter_nonempty_existsb in Hfresh.
  set (row := {| id := (watchlists_id_seq db + 1)%N; user_id := userId;
                 movie_id := WatchlistRoutes.movieId body;
                 movie_source := movieSource;
                 movie_data := WatchlistRoutes.movieData body |}).
  assert (Hkey : Watchlist.by_user_movie userId (WatchlistRoutes.movieId body)
                   movieSource row = true).
  { by apply watchlist_by_user_movie_spec. }
  set (db' := with_watchlists (nextval_watchlists db).1 (watchlists db ++ [row])).
  assert (Hadd :
    Watchlist.add db userId (WatchlistRoutes.movieId body) movieSource
      (WatchlistRoutes.movieData body) = (db', Pg.Ok (Some row))).
  { unfold Watchlist.add, Watchlist.insert_on_conflict_do_nothing,
      nextval_watchlists.
    rewrite (varchar_fits _ _ Hfit), (source_ok_varchar _ Hsource).
    cbn [Pg.bind watchlists]. by rewrite Hsource, Hfresh. }
  exists db', row. split; [|split].
  - unfold WatchlistRoutes.post_watchlist. rewrite Hvalid. cbn [negb].
    fold movieSource. by rewrite Hnot, Hadd.
  - unfold WatchlistRoutes.post_watchlist. rewrite Hvalid. cbn [negb].
    fold movieSource.
    assert (Watchlist.isInWatchlist db' userId (WatchlistRoutes.movieId body)
              movieSource = true) as ->; [|done].
    apply isInWatchlist_spec. exists row. split; [|done].
    subst db'. cbn [watchlists with_watchlists].
    apply elem_of_app. right. apply list_elem_of_here.
  - subst db'. cbn [watchlists with_watchlists].
    rewrite List.filter_app. simpl. rewrite Hkey.
    by rewrite existsb_false_filter.
Qed.

(** *** The keys of the lookup object *)

Lemma string_app_cons a (s t : string) :
  String a s +:+ t = String a (s +:+ t).
Proof. reflexivity. Qed.






Lemma existsb_filter {A} (p q : A → bool) rows :
  existsb q (List.filter p rows) = existsb (λ x, p x && q x) rows.
Proof.
  induction rows as [|r rs IH]; simpl; [done|].
  destruct (p r); simpl; by rewrite IH.
Qed.








(** *** Popular movies *)

Global Instance more_popular_total : Total Watchlist.more_popular.
Proof. intros a b. unfold Watchlist.more_popular. lia. Qed.

Global Instance more_popular_trans : Transitive Watchlist.more_popular.
Proof. intros a b c. unfold Watchlist.more_popular. lia. Qed.













(** The movie kept by two users comes before the movie kept by one, which
    was kept first, and is the one returned for a limit of 1. *)
Example popular_most_counted :
  (λ gc, (gc.1.1.1, gc.2))
  <$> Watchlist.getPopularMovies
        (with_watchlists empty_db
           [{| id := 1; user_id := 1; movie_id := "tt0068646";
               movie_source := "omdb"; movie_data := ∅ |};
            {| id := 2; user_id := 2; movie_id := "tt0111161";
               movie_source := "omdb"; movie_data := ∅ |};
            {| id := 3; user_id := 3; movie_id := "tt0111161";
               movie_source := "omdb"; movie_data := ∅ |}]) 1
  = [("tt0111161", 2%N)].
Proof. vm_compute. reflexivity. Qed.

(** Two users keep the same movie with different snapshots: two groups of
    one member each, not one group of two. *)
Example popular_split_by_snapshot :
  (Watchlist.getPopularMovies sample_db 10).*2 = [1%N; 1%N].
Proof. vm_compute. reflexivity. Qed.

End watchlist_facts.

Section watchlist_examples.
Import WatchlistRow.
#[local] Existing Instance sample_platform.



End watchlist_examples.

(** ** Watchlist ledger: removal, listing and counting *)

Section watchlist_pages_facts.
Import WatchlistRow WatchlistPages.

Lemma existsb_filter_negb {A} (p : A → bool) rows :
  existsb p (List.filter (λ x, negb (p x)) rows) = false.
Proof.
  rewrite existsb_filter. induction rows as [|r rs IH]; simpl; [done|].
  by destruct (p r).
Qed.






Lemma filter_by_user_other u u' rows :
  u' ≠ u →
  List.filter (by_user u') (List.filter (λ w, negb (user_id w =? u)%N) rows)
  = List.filter (by_user u') rows.
Proof.
  intros Hne. induction rows as [|w rows IH]; simpl; [done|].
  unfold by_user at 2 3.
  destruct (N.eqb_spec (user_id w) u) as [Hu|Hu]; simpl.
  - destruct (N.eqb_spec (user_id w) u') as [Hu'|Hu']; [congruence|done].
  - unfold by_user at 1. by rewrite IH.
Qed.

(** X2: DELETE /api/watchlist reports as removedCount the number of
    entries the user had, leaves the user without entries, and leaves the
    entries of every other user as they were. *)
Theorem delete_all_effect db userId :
  (delete_all db userId).2 = Json 200 (getUserWatchlistCount db userId) ∧
  getUserWatchlistCount (delete_all db userId).1 userId = 0 ∧
  (∀ u, u ≠ userId →
     List.filter (by_user u) (watchlists (delete_all db userId).1)
     = List.filter (by_user u) (watchlists db)).
Proof.
  unfold delete_all, Watchlist.removeAll. cbn [fst snd].
  split; [done|]. split.
  - unfold getUserWatchlistCount. cbn [watchlists with_watchlists].
    rewrite existsb_false_filter; [done|].
    apply (existsb_filter_negb (by_user userId)).
  - intros u Hne. cbn [watchlists with_watchlists].
    by apply filter_by_user_other.
Qed.




Lemma ceil_div_spec (a b p : nat) :
  (1 ≤ b)%nat → (1 ≤ p)%nat →
  ((p - 1) * b < a)%nat ↔ (p ≤ ceil_div a b)%nat.
Proof.
  intros Hb Hp. unfold ceil_div.
  pose proof (Nat.div_mod_eq a b) as Hdiv.
  pose proof (Nat.mod_upper_bound a b ltac:(lia)) as Hmod.
  destruct (Nat.eqb_spec (a mod b) 0) as [Hz|Hnz]; split; intros H; nia.
Qed.

Lemma page_nonempty {A} (all : list A) (limit offset : nat) :
  (1 ≤ limit)%nat →
  take limit (drop offset all) ≠ [] ↔ (offset < length all)%nat.
Proof.
  intros Hlimit.
  assert (length (take limit (drop offset all))
          = Nat.min limit (length all - offset)) as Hlen.
  { by rewrite length_take, length_drop. }
  destruct (take limit (drop offset all)) as [|x xs]; simpl in Hlen.
  - split; [done|]. lia.
  - split; [lia|done].
Qed.

(** X4: GET /api/watchlist for a page and a limit that pass the
    validators. While the end of the page, page times limit, is a safe
    integer the reply is 200 with at most limit entries, all of the user;
    the page is not empty exactly when its number is at most totalPages,
    and hasMore is true exactly when the next page is not empty. The page
    has no upper bound: for an offset of 2^64 or more the query is refused
    and the reply is 500. *)
Theorem get_watchlist_pages beyond db userId page limit :
  listValidation page limit = true →
  let pageNum := default 1%nat page in
  let limitNum := default 50%nat limit in
  ((Z.of_nat (pageNum * limitNum) ≤ JS.MAX_SAFE_INTEGER)%Z →
   ∃ r,
     get_watchlist beyond db userId page limit = Json 200 r ∧
     (length (watchlist r) ≤ limitNum)%nat ∧
     Forall (λ w, user_id w = userId) (watchlist r) ∧
     totalCount r = getUserWatchlistCount db userId ∧
     (watchlist r ≠ [] ↔ (currentPage r ≤ totalPages r)%nat) ∧
     (hasMore r = true
      ↔ findByUser db userId limitNum (pageNum * limitNum) ≠ [])) ∧
  ((2 ^ 64 ≤ Z.of_nat ((pageNum - 1) * limitNum))%Z →
   get_watchlist beyond db userId page limit
   = Failure 500 "Failed to fetch watchlist").
Proof.
  intros Hvalid pageNum limitNum.
  assert (Hpage : (1 ≤ pageNum)%nat).
  { unfold listValidation in Hvalid.
    apply andb_true_iff in Hvalid as [Hp _]. subst pageNum.
    destruct page as [p|]; simpl in *; [|lia]. by apply Nat.leb_le. }
  assert (Hlimit : (1 ≤ limitNum)%nat).
  { unfold listValidation in Hvalid.
    apply andb_true_iff in Hvalid as [_ Hl]. subst limitNum.
    destruct limit as [l|]; simpl in *; [|lia].
    apply andb_true_iff in Hl as [Hl _]. by apply Nat.leb_le. }
  unfold get_watchlist. rewrite Hvalid. cbn [negb]. fold pageNum limitNum.
  split.
  2:{ intros Hbeyond.
      assert (JS.safe (Z.of_nat (pageNum * limitNum)) = false) as ->.
      { unfold JS.safe, JS.MAX_SAFE_INTEGER.
        apply andb_false_iff. right. apply Z.leb_gt. nia. }
      by assert ((2 ^ 64 <=? Z.of_nat ((pageNum - 1) * limitNum))%Z = true)
        as -> by by apply Z.leb_le. }
  intros Hsafe.
  assert (JS.safe (Z.of_nat (pageNum * limitNum)) = true) as ->.
  { unfold JS.safe. apply andb_true_iff.
    split; apply Z.leb_le; unfold JS.MAX_SAFE_INTEGER in *; lia. }
  eexists. split; [reflexivity|]. cbn [watchlist totalCount currentPage
                                        totalPages hasMore].
  unfold findByUser, getUserWatchlistCount.
  set (all := rev (List.filter (by_user userId) (watchlists db))).
  assert (Hall : length all
                 = length (List.filter (by_user userId) (watchlists db))).
  { subst all. apply length_rev. }
  rewrite <- Hall.
  split; [rewrite length_take; lia|]. split.
  { apply Forall_forall. intros w Hw%subseteq_take%subseteq_drop.
    subst all. apply list_elem_of_In, in_rev, filter_In in Hw as [_ Hu].
    by apply N.eqb_eq in Hu. }
  split; [done|]. split.
  - rewrite (page_nonempty all limitNum _ Hlimit).
    by apply ceil_div_spec.
  - rewrite (page_nonempty all limitNum _ Hlimit), Nat.ltb_lt. split; nia.
Qed.

Lemma get_watchlist_pages_witness :
  ∃ r,
    get_watchlist (Failure 500 "") sample_db 7 (Some 1%nat) (Some 10%nat)
    = Json 200 r ∧
    (length (watchlist r) ≤ 10)%nat ∧ totalCount r = 1%nat.
Proof.
  destruct (proj1 (get_watchlist_pages (Failure 500 "") sample_db 7
                     (Some 1%nat) (Some 10%nat) eq_refl))
    as (r & Hr & Hlen & _ & Hcount & _).
  - vm_compute. discriminate.
  - exists r. split; [exact Hr|]. split; [exact Hlen|]. by rewrite Hcount.
Defined.




End watchlist_pages_facts.

(** ** Review ledger: dates, access and listing *)

Section review_pages_facts.
Import ReviewRow ReviewPages.
Context `{platform : Platform}.

(** X6: getRelativeTime says 'just now' below one minute (also for a date
    in the future); from one minute on it names a count of at least 1 in
    one unit, and the count stays below the next unit: at most 59 minutes,
    23 hours, 6 days, 3 weeks and 11 months (a month is 28 days, a year 12
    such months). *)
Theorem getRelativeTime_units (now reviewDate : Z) :
  let diffInSeconds := ((now - reviewDate) / 1000)%Z in
  ((diffInSeconds < 60)%Z → getRelativeTime now reviewDate = "just now") ∧
  ((60 ≤ diffInSeconds)%Z →
   ∃ n unit,
     getRelativeTime now reviewDate = ago n unit ∧ (1 ≤ n)%Z ∧
     ((unit = "minute" ∧ n ≤ 59) ∨ (unit = "hour" ∧ n ≤ 23) ∨
      (unit = "day" ∧ n ≤ 6) ∨ (unit = "week" ∧ n ≤ 3) ∨
      (unit = "month" ∧ n ≤ 11) ∨ unit = "year")%Z).
Proof.
  intros d. unfold getRelativeTime. fold d. split.
  - intros Hd. by apply Z.ltb_lt in Hd as ->.
  - intros Hd.
    assert ((d <? 60)%Z = false) as -> by by apply Z.ltb_ge.
    destruct (Z.ltb_spec d 3600).
    { exists (d / 60)%Z, "minute". split; [done|].
      split; [apply Z.div_le_lower_bound; lia|].
      left. split; [done|]. apply Z.lt_succ_r, Z.div_lt_upper_bound; lia. }
    destruct (Z.ltb_spec d 86400).
    { exists (d / 3600)%Z, "hour". split; [done|].
      split; [apply Z.div_le_lower_bound; lia|].
      right; left. split; [done|].
      apply Z.lt_succ_r, Z.div_lt_upper_bound; lia. }
    destruct (Z.ltb_spec d 604800).
    { exists (d / 86400)%Z, "day". split; [done|].
      split; [apply Z.div_le_lower_bound; lia|].
      right; right; left. split; [done|].
      apply Z.lt_succ_r, Z.div_lt_upper_bound; lia. }
    destruct (Z.ltb_spec d 2419200).
    { exists (d / 604800)%Z, "week". split; [done|].
      split; [apply Z.div_le_lower_bound; lia|].
      right; right; right; left. split; [done|].
      apply Z.lt_succ_r, Z.div_lt_upper_bound; lia. }
    destruct (Z.ltb_spec d 29030400).
    { exists (d / 2419200)%Z, "month". split; [done|].
      split; [apply Z.div_le_lower_bound; lia|].
      right; right; right; right; left. split; [done|].
      apply Z.lt_succ_r, Z.div_lt_upper_bound; lia. }
    exists (d / 29030400)%Z, "year". split; [done|].
    split; [apply Z.div_le_lower_bound; lia|]. by repeat right.
Qed.

Lemma getRelativeTime_units_witness :
  ∃ n unit,
    getRelativeTime 1700000000000 1699990000000 = ago n unit ∧ (1 ≤ n)%Z.
Proof.
  destruct (getRelativeTime_units 1700000000000 1699990000000) as [_ Hunit].
  destruct Hunit as (n & unit & Heq & Hn & _); [vm_compute; discriminate|].
  exists n, unit. by split.
Defined.

(** A review of 27 days is three weeks old, one of 340 days a year. *)
Example relative_time_edges :
  getRelativeTime 1700000000000 1699990000000 = "2 hours ago" ∧
  getRelativeTime (27 * 86400000) 0 = "3 weeks ago" ∧
  getRelativeTime (340 * 86400000) 0 = "1 year ago".
Proof. repeat split; vm_compute; reflexivity. Qed.




(** X8: DELETE /api/reviews/:id deletes for the author and for an admin,
    and for nobody else: another user without the admin role is answered
    403 and nothing is written; otherwise the review is gone afterwards
    and every other review is as it was. *)
Theorem delete_review_access db userId userRole reviewId r :
  Review.findById db reviewId = Some r →
  (user_id r ≠ userId → userRole ≠ "admin" →
   delete_review db userId userRole reviewId
   = (db, Failure 403 "You can only delete your own reviews")) ∧
  (user_id r = userId ∨ userRole = "admin" →
   (delete_review db userId userRole reviewId).2
   = Json 200 "Review deleted successfully" ∧
   Review.findById (delete_review db userId userRole reviewId).1 reviewId
   = None ∧
   ∀ j, j ≠ reviewId →
     Review.findById (delete_review db userId userRole reviewId).1 j
     = Review.findById db j).
Proof.
  intros Hfind. unfold delete_review. rewrite Hfind. split.
  - intros Hne Hrole.
    destruct (N.eqb_spec (user_id r) userId); [done|].
    by destruct (String.eqb_spec userRole "admin").
  - intros Hmay.
    assert (negb (user_id r =? userId)%N && negb (String.eqb userRole "admin")
            = false) as ->.
    { destruct Hmay as [->| ->]; [by rewrite N.eqb_refl|].
      by rewrite andb_false_r. }
    cbn [fst snd]. split; [done|]. unfold Review.delete, Review.findById.
    cbn [fst reviews with_reviews]. split.
    + rewrite (find_filter_const _ _ false); [done|].
      intros x Hx. by rewrite Hx.
    + intros j Hj. rewrite (find_filter_const _ _ true); [done|].
      intros x Hx%N.eqb_eq. unfold Review.by_id. rewrite Hx.
      by destruct (N.eqb_spec j reviewId).
Qed.

Lemma delete_review_access_witness :
  (delete_review sample_db 99 "admin" 1).2
  = Json 200 "Review deleted successfully" ∧
  delete_review sample_db 8 "user" 1
  = (sample_db, Failure 403 "You can only delete your own reviews").
Proof.
  destruct (delete_review_access sample_db 99 "admin" 1
              (review_row 1 7 "tt0111161" "omdb" 9 2 3) eq_refl)
    as [_ Hadmin].
  destruct (delete_review_access sample_db 8 "user" 1
              (review_row 1 7 "tt0111161" "omdb" 9 2 3) eq_refl)
    as [Hother _].
  split.
  - by destruct (Hadmin (or_intror eq_refl)) as [? _].
  - apply Hother; intros [=].
Defined.

Lemma run_ratings_ok db op : ratings_ok db → ratings_ok (Review.run db op).
Proof.
  unfold ratings_ok. intros Hok.
  destruct op as [u m s t c n|i t c n|i|i h]; simpl.
  - unfold Review.create, nextval_reviews. cbn [reviews].
    destruct (Review.stored_texts m s t) as [[[m' s'] t']|code];
      cbn [fst reviews with_reviews]; [|done].
    destruct (source_ok s'); cbn [andb negb]; [|done].
    destruct (Review.rating_ok n) eqn:Hn; cbn [negb]; [|done].
    destruct (existsb _ _); cbn [fst reviews with_reviews]; [done|].
    apply Forall_app. split; [done|]. by repeat constructor.
  - unfold Review.update.
    destruct (Pg.update_where _ _ _) as [[table returned]|] eqn:Hupdate;
      cbn [fst reviews with_reviews]; [|done].
    apply update_where_rows in Hupdate.
    eapply Forall_pointwise; [exact Hupdate| |exact Hok].
    intros r r' [->|Hset] Hr; [done|]. cbv beta zeta in Hset.
    destruct (Pg.varchar 255 (Pg.coalesce t (title r))) as [title'|code];
      cbn [Pg.bind] in Hset; [|done].
    destruct (Review.rating_ok (Pg.coalesce n (rating r))) eqn:Hn; [|done].
    injection Hset as <-. exact Hn.
  - cbn [fst reviews with_reviews]. by apply Forall_list_filter.
  - unfold Review.markHelpful.
    destruct (Pg.update_where _ _ _) as [[table returned]|] eqn:Hupdate;
      cbn [fst reviews with_reviews]; [|done].
    apply update_where_rows in Hupdate.
    eapply Forall_pointwise; [exact Hupdate| |exact Hok].
    intros r r' [->|Hvote] Hr; [done|].
    unfold Review.vote, Pg.int4_add in Hvote. simpl in Hvote.
    destruct (_ && _); simpl in Hvote; [|done].
    destruct (_ && _); simpl in Hvote; [|done].
    injection Hvote as <-. exact Hr.
Qed.

Lemma unique_by_at_most_one {A} (same : A → A → bool) (p : A → bool) rows :
  (∀ r x, p r = true → same r x = p x) →
  unique_by same rows → (length (List.filter p rows) ≤ 1)%nat.
Proof.
  intros Hsame Huniq. destruct (existsb p rows) eqn:Hex.
  - by rewrite (unique_by_count same p rows Hsame Huniq Hex).
  - rewrite (existsb_false_filter _ _ Hex). simpl. lia.
Qed.

(** X9: in every state the review ledger reaches from the empty database
    through create, update, delete and markHelpful, in any order and with
    any arguments, a user has at most one review of a movie, the keys of
    the reviews are distinct, every rating is between 1 and 10, and the
    votes found helpful never exceed the votes cast. *)
Theorem review_ledger_invariant (ops : list Review.Op) :
  let db := foldl Review.run empty_db ops in
  (∀ u m s, (length (List.filter (Review.by_user_movie u m s) (reviews db))
             ≤ 1)%nat) ∧
  NoDup (id <$> reviews db) ∧
  (∀ r, r ∈ reviews db →
     (1 ≤ rating r ≤ 10)%Z ∧ (0 ≤ helpful_count r ≤ total_votes r)%Z).
Proof.
  intros db.
  assert (Hreach : ∀ ops start, Db_ok start → ratings_ok start →
            Db_ok (foldl Review.run start ops)
            ∧ ratings_ok (foldl Review.run start ops)).
  { clear. induction ops as [|op ops IH]; intros start Hok Hratings; [done|].
    simpl. apply IH; [by apply run_ok|by apply run_ratings_ok]. }
  destruct (Hreach ops empty_db empty_db_ok) as [Hok Hratings].
  { constructor. }
  fold db in Hok, Hratings. split; [|split].
  - intros u m s. apply (unique_by_at_most_one same_review_key).
    + intros r x. apply same_review_key_matching.
    + apply Hok.
  - apply Hok.
  - intros r Hr. split.
    + unfold ratings_ok in Hratings. rewrite Forall_forall in Hratings.
      specialize (Hratings r Hr). unfold Review.rating_ok in Hratings.
      apply andb_true_iff in Hratings as [?%Z.leb_le ?%Z.leb_le]. lia.
    + pose proof (reviews_counters db Hok) as Hcounters.
      rewrite Forall_forall in Hcounters. by destruct (Hcounters r Hr).
Qed.

(** *** Statistics of a movie that has reviews *)

Lemma Qeq_bool_inject_Z_nonzero (z : Z) :
  z ≠ 0%Z → Qeq_bool (inject_Z z) 0 = false.
Proof.
  intros Hz. destruct (Qeq_bool (inject_Z z) 0) eqn:Heq; [|done].
  apply Qeq_bool_iff in Heq. unfold Qeq in Heq. simpl in Heq. lia.
Qed.

Lemma Math_round_percentage (c : Z) (p : positive) :
  JS.Math_round (inject_Z c * 100 / inject_Z (Zpos p))%Q
  = ((200 * c + Zpos p) / (2 * Zpos p))%Z.
Proof.
  unfold JS.Math_round.
  assert (Heq : (inject_Z c * 100 / inject_Z (Zpos p) + (1 # 2)
                 == (200 * c + Zpos p) # (2 * p))%Q).
  { unfold Qeq, Qdiv, Qmult, Qinv, Qplus, inject_Z.
    cbn [Qnum Qden].
    change (Qnum 100) with 100%Z. change (Qden 100) with 1%positive.
    rewrite ?Pos2Z.inj_mul. ring. }
  rewrite (Qfloor_comp _ _ Heq). reflexivity.
Qed.

(** X10: for a movie that has reviews getMovieStats succeeds: totalReviews
    is their number and recommendationPercentage is the share of ratings
    of 7 and more, rounded to the nearest integer with a half going up, so
    between 0 and 100: 100 when every rating is 7 or more, 0 when none
    is. *)
Theorem getMovieStats_with_reviews db movieId movieSource :
  let rows := List.filter (Review.by_movie movieId movieSource) (reviews db) in
  let n := Z.of_nat (length rows) in
  let c := Z.of_nat (length (List.filter (λ r, (7 <=? rating r)%Z) rows)) in
  rows ≠ [] →
  ∃ stats,
    Review.getMovieStats db movieId movieSource = Pg.Ok stats ∧
    Review.totalReviews stats = n ∧
    Review.recommendationPercentage stats = ((200 * c + n) / (2 * n))%Z ∧
    (0 ≤ Review.recommendationPercentage stats ≤ 100)%Z ∧
    (c = n → Review.recommendationPercentage stats = 100%Z) ∧
    (c = 0%Z → Review.recommendationPercentage stats = 0%Z).
Proof.
  intros rows n c Hrows.
  assert (Hn : (0 < n)%Z).
  { subst n. destruct rows; [done|]. simpl. lia. }
  assert (Hc : (0 ≤ c ≤ n)%Z).
  { subst c n. pose proof (filter_length_le (λ r, (7 <=? rating r)%Z) rows).
    lia. }
  assert (Hp : ∃ p, n = Z.pos p) by (destruct n; [lia|eauto|lia]).
  destruct Hp as [p Hp].
  unfold Review.getMovieStats, Review.stats_query. fold rows.
  unfold Pg.count_when, Pg.count. fold c. fold n.
  clearbody n c. subst n.
  unfold Pg.numeric_div.
  rewrite Qeq_bool_inject_Z_nonzero by lia.
  cbn [Pg.bind Review.recommendation_percentage Review.total_reviews
       Review.average_rating].
  eexists. split; [reflexivity|].
  cbn [Review.totalReviews Review.recommendationPercentage].
  rewrite Math_round_percentage.
  split; [done|]. split; [done|].
  assert (Hlow : (0 ≤ (200 * c + Z.pos p) / (2 * Z.pos p))%Z).
  { apply Z.div_pos; lia. }
  assert (Hhigh : ((200 * c + Z.pos p) / (2 * Z.pos p) ≤ 100)%Z).
  { apply Z.lt_succ_r, Z.div_lt_upper_bound; lia. }
  split; [lia|]. split.
  - intros ->. apply Z.le_antisymm; [done|].
    apply Z.div_le_lower_bound; lia.
  - intros ->. apply Z.div_small. lia.
Qed.

(** X11: GET /api/reviews/my-reviews reports hasMore when the page is
    full. While the end of the page, page times limit, is a safe integer
    the reply is 200 with at most limit reviews; when hasMore is false the
    next page is empty, but hasMore is true with an empty next page
    exactly when the number of reviews of the user is the page number
    times the limit. The page has no upper bound: for an offset of 2^64
    or more the query is refused and the reply is 500. *)
Theorem my_reviews_hasMore beyond db userId page limit :
  listValidation page limit = true →
  let pageNum := default 1%nat page in
  let limitNum := default 20%nat limit in
  let total := length (List.filter (by_user userId) (reviews db)) in
  ((Z.of_nat (pageNum * limitNum) ≤ JS.MAX_SAFE_INTEGER)%Z →
   ∃ r,
     get_my_reviews beyond db userId page limit = Json 200 r ∧
     (length (listed r) ≤ limitNum)%nat ∧
     (hasMore r = false →
      findByUser db userId limitNum (pageNum * limitNum) = []) ∧
     (hasMore r = true
      ∧ findByUser db userId limitNum (pageNum * limitNum) = []
      ↔ total = (pageNum * limitNum)%nat)) ∧
  ((2 ^ 64 ≤ Z.of_nat ((pageNum - 1) * limitNum))%Z →
   get_my_reviews beyond db userId page limit
   = Failure 500 "Failed to fetch your reviews").
Proof.
  intros Hvalid pageNum limitNum total.
  assert (Hpage : (1 ≤ pageNum)%nat).
  { unfold listValidation in Hvalid.
    apply andb_true_iff in Hvalid as [Hp _]. subst pageNum.
    destruct page as [p|]; simpl in *; [|lia]. by apply Nat.leb_le. }
  assert (Hlimit : (1 ≤ limitNum)%nat).
  { unfold listValidation in Hvalid.
    apply andb_true_iff in Hvalid as [_ Hl]. subst limitNum.
    destruct limit as [l|]; simpl in *; [|lia].
    apply andb_true_iff in Hl as [Hl _]. by apply Nat.leb_le. }
  unfold get_my_reviews. rewrite Hvalid. cbn [negb]. fold pageNum limitNum.
  split.
  2:{ intros Hbeyond.
      assert (JS.safe (Z.of_nat (pageNum * limitNum)) = false) as ->.
      { unfold JS.safe, JS.MAX_SAFE_INTEGER.
        apply andb_false_iff. right. apply Z.leb_gt. nia. }
      by assert ((2 ^ 64 <=? Z.of_nat ((pageNum - 1) * limitNum))%Z = true)
        as -> by by apply Z.leb_le. }
  intros Hsafe.
  assert (JS.safe (Z.of_nat (pageNum * limitNum)) = true) as ->.
  { unfold JS.safe. apply andb_true_iff.
    split; apply Z.leb_le; unfold JS.MAX_SAFE_INTEGER in *; lia. }
  eexists. split; [reflexivity|]. cbn [listed hasMore]. unfold findByUser.
  set (all := rev (List.filter (by_user userId) (reviews db))).
  assert (Hall : length all = total) by (subst all; apply length_rev).
  assert (Hnext : take limitNum (drop (pageNum * limitNum) all) = []
                  ↔ (total ≤ pageNum * limitNum)%nat).
  { pose proof (page_nonempty all limitNum (pageNum * limitNum) Hlimit) as Hne.
    rewrite Hall in Hne.
    destruct (take limitNum (drop (pageNum * limitNum) all)) as [|x xs].
    - split; [|done]. intros _.
      destruct (Nat.le_gt_cases total (pageNum * limitNum)) as [|Hgt]; [done|].
      by apply Hne in Hgt.
    - split; [done|]. intros Hle.
      assert (pageNum * limitNum < total)%nat; [by apply Hne|lia]. }
  rewrite Hnext, length_take, length_drop, Hall.
  split; [lia|]. split.
  - intros Hmore%Nat.eqb_neq. nia.
  - rewrite Nat.eqb_eq. split; [intros [Hfull Hle]|intros Htotal]; nia.
Qed.

Lemma my_reviews_hasMore_witness :
  ∃ r,
    get_my_reviews (Failure 500 "") sample_db 7 (Some 1%nat) (Some 1%nat)
    = Json 200 r ∧
    hasMore r = true ∧ findByUser sample_db 7 1 1 = [].
Proof.
  destruct (proj1 (my_reviews_hasMore (Failure 500 "") sample_db 7
                     (Some 1%nat) (Some 1%nat) eq_refl))
    as (r & Hr & _ & _ & Hfull).
  - vm_compute. discriminate.
  - exists r. split; [exact Hr|]. apply Hfull. reflexivity.
Defined.

End review_pages_facts.

Section review_pages_examples.
Import ReviewRow ReviewPages.
#[local] Existing Instance sample_platform.

Lemma getMovieStats_with_reviews_witness :
  ∃ stats,
    Review.getMovieStats sample_db "tt0111161" "omdb" = Pg.Ok stats ∧
    Review.totalReviews stats = 1%Z ∧
    Review.recommendationPercentage stats = 100%Z.
Proof.
  destruct (getMovieStats_with_reviews sample_db "tt0111161" "omdb")
    as (stats & Hstats & Htotal & _ & _ & Hall & _).
  - discriminate.
  - exists stats. split; [exact Hstats|]. split; [exact Htotal|].
    apply Hall. reflexivity.
Defined.


End review_pages_examples.

(** ** The first creation of a review and of a watchlist entry *)

Section first_creation.
Context `{platform : Platform}.






End first_creation.

Section first_creation_examples.
#[local] Existing Instance sample_platform.


(** A movie id of 51 characters passes the validators and is refused by
    the column. *)
Example post_review_long_id :
  (ReviewRoutes.post_review sample_db 9
     {| ReviewRoutes.movieId :=
          "tt01111610000000000000000000000000000000000000000001";
        ReviewRoutes.movieSource := None;
        ReviewRoutes.title := "Seen again";
        ReviewRoutes.content := "Still a fine film.";
        ReviewRoutes.rating := 8 |}).2
  = Failure 500 "Failed to create review".
Proof. reflexivity. Qed.


End first_creation_examples.

(** ** Movie references, combined search and the movie routes *)

Section movie_routes_facts.
Import Identity Aggregator Omdb.
Context `{platform : Platform}.

(** X14: when two movie references have the same text. Equal references
    do, and the only other case is a local key against the external
    identifier spelled 'custom_' followed by that key; so the text tells
    references apart exactly when no external identifier has that form. *)
Theorem encode_collisions r1 r2 :
  encode r1 = encode r2 ↔
  r1 = r2
  ∨ (∃ k, r1 = Local k ∧ r2 = External (custom_imdbID k))
  ∨ (∃ k, r1 = External (custom_imdbID k) ∧ r2 = Local k).
Proof.
  split.
  - destruct r1 as [k1|s1], r2 as [k2|s2]; cbn [encode]; intros Heq.
    + left. unfold custom_imdbID in Heq. apply (inj (String.app _)) in Heq.
      unfold JS.Number_toString in Heq. apply (inj pretty) in Heq.
      f_equal. lia.
    + right; left. exists k1. by rewrite Heq.
    + right; right. exists k2. by rewrite Heq.
    + left. by rewrite Heq.
  - intros [->|[[k [-> ->]]|[k [-> ->]]]]; reflexivity.
Qed.

(** *** The deduplication as a selection *)

Lemma first_occurrences_sublist l : ∀ seen,
  first_occurrences same_title_year seen l `sublist_of` l.
Proof.
  induction l as [|x xs IH]; intros seen; simpl; [done|].
  destruct (existsb _ seen); [by apply sublist_cons|by apply sublist_skip].
Qed.

Lemma first_occurrences_fresh l : ∀ seen x,
  x ∈ first_occurrences same_title_year seen l → existsb (same_title_year x) seen = false.
Proof.
  induction l as [|y ys IH]; intros seen x; simpl; [by intros ?%elem_of_nil|].
  assert (Hrest : x ∈ first_occurrences same_title_year (seen ++ [y]) ys →
                  existsb (same_title_year x) seen = false).
  { intros Hx%IH. rewrite existsb_app in Hx.
    by apply orb_false_iff in Hx as [? _]. }
  destruct (existsb (same_title_year y) seen) eqn:Hy; [done|].
  intros [->|Hx]%elem_of_cons; [done|by apply Hrest].
Qed.

Lemma first_occurrences_unique l : ∀ seen,
  unique_by same_title_year (first_occurrences same_title_year seen l).
Proof.
  induction l as [|y ys IH]; intros seen; simpl; [done|].
  destruct (existsb (same_title_year y) seen); [apply IH|].
  split; [|apply IH].
  destruct (existsb (same_title_year y) _) eqn:Hex; [|done].
  apply existsb_true_elem in Hex as [x [Hx Hsame]].
  apply first_occurrences_fresh in Hx. rewrite existsb_app in Hx.
  apply orb_false_iff in Hx as [_ Hx]. simpl in Hx.
  rewrite orb_false_r, same_title_year_sym in Hx. congruence.
Qed.

Lemma first_occurrences_id l : ∀ seen,
  unique_by same_title_year l →
  (∀ x, x ∈ l → existsb (same_title_year x) seen = false) →
  first_occurrences same_title_year seen l = l.
Proof.
  induction l as [|y ys IH]; intros seen; simpl; [done|].
  intros [Hy Hys] Hseen.
  rewrite (Hseen y (list_elem_of_here _ _)). f_equal.
  apply IH; [done|]. intros x Hx. rewrite existsb_app. simpl.
  rewrite (Hseen x (list_elem_of_further _ _ _ Hx)), orb_false_r. simpl.
  destruct (same_title_year x y) eqn:Hxy; [|done].
  rewrite same_title_year_sym in Hxy.
  assert (existsb (same_title_year y) ys = true); [|congruence].
  apply existsb_true_elem. eauto.
Qed.

(** X15: the deduplication of a combined search only selects: the result
    lists entries of the combined list in their order (nothing is added or
    moved), deduplicating the result again changes nothing, and the reply
    says Response 'True' exactly when the external page or the local
    results hold an entry. *)
Theorem search_response_selection omdbResults customResults pageNum :
  let combined := combinedMovies omdbResults customResults in
  let response := search_response omdbResults customResults pageNum in
  res_Search response `sublist_of` combined ∧
  uniqueMovies (res_Search response) = res_Search response ∧
  (res_Response response = "True"
   ↔ Search omdbResults ≠ [] ∨ customResults ≠ []) ∧
  (res_Response response = "True" ∨ res_Response response = "False").
Proof.
  intros combined response. subst response. unfold search_response.
  cbn [res_Search res_Response]. fold combined.
  rewrite !uniqueMovies_first_occurrences.
  split; [apply first_occurrences_sublist|]. split.
  { apply first_occurrences_id; [apply first_occurrences_unique|done]. }
  assert (Hempty : first_occurrences same_title_year [] combined = [] ↔ combined = []).
  { destruct combined as [|x xs]; [done|]. simpl. done. }
  assert (Hcombined : combined = []
                      ↔ Search omdbResults = [] ∧ customResults = []).
  { subst combined. unfold combinedMovies. split.
    - intros [? Hmap]%app_eq_nil. split; [done|]. by destruct customResults.
    - by intros [-> ->]. }
  destruct (first_occurrences same_title_year [] combined) as [|x xs] eqn:Hfirst; simpl.
  - split; [|by right]. split; [done|]. intros Hsome.
    assert (combined = []) as Hnil by by apply Hempty.
    apply Hcombined in Hnil as [? ?]. by destruct Hsome.
  - split; [|by left]. split; [|done]. intros _.
    destruct (Search omdbResults) as [|e es] eqn:Hs; [|by left].
    destruct customResults as [|c cs]; [|by right].
    assert (combined = []) as Hnil by (apply Hcombined; done).
    apply Hempty in Hnil. congruence.
Qed.

(** *** Details of a movie *)

Lemma find_by_key {A B} `{EqDecision B} (f : A → B) (l : list A) (x : A)
    (p : A → bool) :
  NoDup (f <$> l) → x ∈ l → (∀ y, p y = true ↔ f y = f x) →
  List.find p l = Some x.
Proof.
  intros Hnodup Hx Hp. induction l as [|y l IH]; [by apply elem_of_nil in Hx|].
  rewrite fmap_cons in Hnodup. apply NoDup_cons in Hnodup as [Hy Hl].
  simpl. destruct (p y) eqn:Hpy.
  - apply Hp in Hpy. apply elem_of_cons in Hx as [->|Hx]; [done|].
    exfalso. apply Hy. rewrite Hpy. apply list_elem_of_fmap. eauto.
  - apply elem_of_cons in Hx as [->|Hx]; [|by apply IH].
    assert (p y = true) by by apply Hp. congruence.
Qed.

(** X16: the reference a search shows for a local movie leads back to the
    movie: for a row of the movies table, GET /api/movies/:id with the
    imdbID of the reformatted row answers 200 with that reformatted row,
    and a local reference whose key is in no row is answered 404. *)
Theorem details_of_local_reference int4_in t gw :
  (∀ k : N, (Z.of_N k ≤ Pg.int4_max)%Z →
            int4_in (JS.Number_toString (Z.of_N k)) = Pg.Ok (Z.of_N k)) →
  Catalog.keys_unique t →
  (∀ s, s ∈ Catalog.stored t →
     (Z.of_N (m_id (Catalog.movie s)) ≤ Pg.int4_max)%Z →
     get_movie int4_in t gw
       (imdbID (transformToOMDBFormat (Catalog.movie s)))
     = Json 200 (transformToOMDBFormat (Catalog.movie s))) ∧
  (∀ k : N, (Z.of_N k ≤ Pg.int4_max)%Z →
     (∀ s, s ∈ Catalog.stored t → m_id (Catalog.movie s) ≠ k) →
     get_movie int4_in t gw (encode (Local k))
     = Failure 404 "Movie not found").
Proof.
  intros Hinput Hkeys. split.
  - intros s Hs Hrange. unfold get_movie. cbn [imdbID transformToOMDBFormat].
    unfold custom_imdbID. rewrite decode_prefixed.
    unfold Catalog.findById. rewrite (Hinput _ Hrange). cbn [Pg.bind].
    rewrite (find_by_key (λ s, m_id (Catalog.movie s)) _ s); [done|done|done|].
    intros y. unfold Catalog.by_id. rewrite Z.eqb_eq. split; [|by intros ->].
    intros Heq. lia.
  - intros k Hrange Habsent. unfold get_movie. cbn [encode].
    unfold custom_imdbID. rewrite decode_prefixed.
    unfold Catalog.findById. rewrite (Hinput _ Hrange). cbn [Pg.bind].
    destruct (List.find _ _) as [s|] eqn:Hfind; [|done].
    apply find_some in Hfind as [Hin Hid]. apply list_elem_of_In in Hin.
    unfold Catalog.by_id in Hid. apply Z.eqb_eq in Hid.
    exfalso. apply (Habsent s Hin). lia.
Qed.

Lemma decimal_input_reads (k : N) :
  (Z.of_N k ≤ Pg.int4_max)%Z →
  decimal_input (JS.Number_toString (Z.of_N k)) = Pg.Ok (Z.of_N k).
Proof.
  intros Hk. unfold decimal_input.
  rewrite Number_toString_digits, Number_toString_nonempty.
  cbn [negb orb]. rewrite parseInt_Number_toString.
  assert (((Pg.int4_min <=? Z.of_N k) && (Z.of_N k <=? Pg.int4_max))%Z = true)
    as ->; [|done].
  apply andb_true_iff. split; apply Z.leb_le; [unfold Pg.int4_min; lia|done].
Qed.

Lemma details_of_local_reference_witness :
  get_movie decimal_input
    {| Catalog.stored := [{| Catalog.movie := local_row 3 "Dune" (Some 2021%Z);
                             Catalog.created_by := Some 1%N |}];
       Catalog.movies_id_seq := 3 |}
    {| searchMovies := λ _ _, {| Search := []; totalResults := "0";
                                 omdb_Response := "False";
                                 omdb_Error := None |};
       getMovieById := λ id, external_entry id "" "" |}
    "custom_3"
  = Json 200 (transformToOMDBFormat (local_row 3 "Dune" (Some 2021%Z))).
Proof.
  refine (proj1 (details_of_local_reference decimal_input _ _
                   decimal_input_reads _)
            {| Catalog.movie := local_row 3 "Dune" (Some 2021%Z);
               Catalog.created_by := Some 1%N |} _ _).
  - unfold Catalog.keys_unique. simpl. apply NoDup_singleton.
  - apply list_elem_of_here.
  - vm_compute. discriminate.
Defined.

(** *** Featured movies *)

Lemma omap_length_le {A B} (f : A → option B) (l : list A) :
  (length (omap f l) ≤ length l)%nat.
Proof.
  induction l as [|x l IH]; [done|].
  change (omap f (x :: l))
    with (match f x with Some y => y :: omap f l | None => omap f l end).
  destruct (f x); simpl; lia.
Qed.

Lemma omap_Forall {A B} (f : A → option B) (P : B → Prop) (l : list A) :
  (∀ x y, f x = Some y → P y) → Forall P (omap f l).
Proof.
  intros Hf. induction l as [|x l IH]; [by apply Forall_nil|].
  change (omap f (x :: l))
    with (match f x with Some y => y :: omap f l | None => omap f l end).
  destruct (f x) as [y|] eqn:Hx; [constructor; eauto|done].
Qed.

Lemma slice_all {A} (arr : list A) (n : Z) :
  (Z.of_nat (length arr) ≤ n)%Z → slice arr 0 n = arr.
Proof.
  intros Hn. unfold slice. simpl.
  assert ((n <? 0)%Z = false) as -> by (apply Z.ltb_ge; lia).
  rewrite Z.min_r by done. rewrite Z.min_l by lia.
  rewrite Z.sub_0_r, Nat2Z.id. simpl. by rewrite take_ge.
Qed.

(** X17: the featured list is the external featured movies followed by the
    six newest local movies, reformatted; the external part has at most
    six movies, all with Response 'True', so the list has at most twelve
    entries and its cut at twelve never removes one. *)
Theorem featured_never_cut t gw :
  get_featured t gw
  = getFeaturedMovies gw ++ map transformToOMDBFormat (Catalog.findAll t 6 0) ∧
  (length (getFeaturedMovies gw) ≤ 6)%nat ∧
  Forall (λ m, Response m = Some "True") (getFeaturedMovies gw) ∧
  (length (get_featured t gw) ≤ 12)%nat.
Proof.
  assert (Hfeatured : (length (getFeaturedMovies gw) ≤ 6)%nat).
  { unfold getFeaturedMovies.
    etrans; [apply omap_length_le|]. done. }
  assert (Hlocal : (length (map transformToOMDBFormat (Catalog.findAll t 6 0))
                    ≤ 6)%nat).
  { rewrite length_map. unfold Catalog.findAll. rewrite length_take. lia. }
  assert (Hcut : get_featured t gw
                 = getFeaturedMovies gw
                   ++ map transformToOMDBFormat (Catalog.findAll t 6 0)).
  { unfold get_featured. apply slice_all. rewrite length_app. lia. }
  split; [done|]. split; [done|]. split.
  - unfold getFeaturedMovies. apply omap_Forall. intros term details.
    unfold first_details. destruct (Search _) as [|movie ?]; [done|].
    destruct (response_true _) eqn:Htrue; [|done].
    intros [= <-]. unfold response_true in Htrue.
    by apply bool_decide_eq_true in Htrue.
  - rewrite Hcut, length_app. lia.
Qed.

(** *** Top rated movies *)

Lemma insert_by_rating_perm parseFloat x l :
  insert_by_rating parseFloat x l ≡ₚ x :: l.
Proof.
  induction l as [|y l IH]; simpl; [done|].
  destruct (Qle_bool _ _); [|done].
  rewrite IH. apply Permutation_swap.
Qed.

Lemma sort_by_rating_perm parseFloat results :
  sort_by_rating parseFloat results ≡ₚ results.
Proof.
  unfold sort_by_rating.
  assert (H : ∀ acc, foldl (λ sorted x, insert_by_rating parseFloat x sorted)
                       acc results ≡ₚ results ++ acc).
  { induction results as [|x l IH]; intros acc; simpl; [done|].
    rewrite IH, insert_by_rating_perm. by rewrite Permutation_middle. }
  by rewrite H, app_nil_r.
Qed.

Lemma insert_by_rating_sorted parseFloat x l :
  StronglySorted
    (λ a b, (rating_of parseFloat b <= rating_of parseFloat a)%Q) l →
  StronglySorted
    (λ a b, (rating_of parseFloat b <= rating_of parseFloat a)%Q)
    (insert_by_rating parseFloat x l).
Proof.
  induction 1 as [|y l Hsorted IH Hy]; simpl.
  { repeat constructor. }
  destruct (Qle_bool _ _) eqn:Hle.
  - constructor; [done|]. rewrite insert_by_rating_perm.
    constructor; [by apply Qle_bool_iff|done].
  - assert (rating_of parseFloat y <= rating_of parseFloat x)%Q as Hyx.
    { apply Qlt_le_weak, Qnot_le_lt. intros Hxy.
      apply Qle_bool_iff in Hxy. congruence. }
    constructor; [by constructor|]. constructor; [done|].
    eapply Forall_impl; [exact Hy|]. intros z Hz. simpl in Hz.
    exact (Qle_trans _ _ _ Hz Hyx).
Qed.

Lemma sort_by_rating_sorted parseFloat results :
  StronglySorted
    (λ a b, (rating_of parseFloat b <= rating_of parseFloat a)%Q)
    (sort_by_rating parseFloat results).
Proof.
  unfold sort_by_rating.
  assert (H : ∀ acc,
    StronglySorted
      (λ a b, (rating_of parseFloat b <= rating_of parseFloat a)%Q) acc →
    StronglySorted
      (λ a b, (rating_of parseFloat b <= rating_of parseFloat a)%Q)
      (foldl (λ sorted x, insert_by_rating parseFloat x sorted) acc results)).
  { induction results as [|x l IH]; intros acc Hacc; simpl; [done|].
    by apply IH, insert_by_rating_sorted. }
  apply H. constructor.
Qed.

Lemma pageSearchTerms_length page :
  (length (pageSearchTerms page) ≤ 16)%nat.
Proof.
  unfold pageSearchTerms, slice, moviesPerPage. rewrite length_take.
  change (Z.of_nat (length searchTerms)) with 23%Z.
  etrans; [apply Nat.le_min_l|].
  destruct (Z.ltb_spec ((page - 1) * 16) 0),
           (Z.ltb_spec ((page - 1) * 16 + 16) 0); lia.
Qed.

Lemma pageSearchTerms_beyond page :
  (3 ≤ page)%Z → pageSearchTerms page = [].
Proof.
  intros Hpage. unfold pageSearchTerms, slice, moviesPerPage.
  change (Z.of_nat (length searchTerms)) with 23%Z.
  assert (((page - 1) * 16 <? 0)%Z = false) as -> by (apply Z.ltb_ge; lia).
  assert (((page - 1) * 16 + 16 <? 0)%Z = false) as ->
    by (apply Z.ltb_ge; lia).
  rewrite !Z.min_r by lia. by rewrite Z.sub_diag.
Qed.

(** X18: the top rated list. There are two pages; pages 1 and 2 split the
    search terms between them, and a page from 3 on has no movie. Whatever
    the provider answers, a page has at most sixteen movies, each with
    Response 'True' and a rating that reads as a number of at least 7, and
    they are listed from the highest rating down. *)
Theorem top_rated_pages gw parseFloat page :
  let movies := (getTopRatedMovies gw parseFloat page).1 in
  (getTopRatedMovies gw parseFloat page).2 = 2%nat ∧
  pageSearchTerms 1 ++ pageSearchTerms 2 = searchTerms ∧
  (length movies ≤ 16)%nat ∧
  Forall (λ m, Response m = Some "True"
               ∧ ∃ text r, imdbRating m = Some text
                           ∧ parseFloat text = Some r ∧ (7 <= r)%Q) movies ∧
  StronglySorted
    (λ a b, (rating_of parseFloat b <= rating_of parseFloat a)%Q) movies ∧
  ((3 ≤ page)%Z → movies = []).
Proof.
  intros movies. subst movies. unfold getTopRatedMovies. cbn [fst snd].
  split; [by vm_compute|]. split; [by vm_compute|]. split; [|split; [|split]].
  - rewrite sort_by_rating_perm.
    etrans; [apply omap_length_le|apply pageSearchTerms_length].
  - rewrite sort_by_rating_perm. apply omap_Forall. intros term details.
    unfold first_details. destruct (Search _) as [|movie ?]; [done|].
    destruct (good_rating _ _) eqn:Hgood; [|done].
    intros [= <-]. unfold good_rating in Hgood.
    apply andb_true_iff in Hgood as [Htrue Hrating].
    split; [by apply bool_decide_eq_true in Htrue|].
    destruct (imdbRating _) as [[|c text]|]; [done| |done].
    destruct (parseFloat (String c text)) as [r|] eqn:Hparse; [|done].
    exists (String c text), r. split; [done|]. split; [done|].
    by apply Qle_bool_iff.
  - apply sort_by_rating_sorted.
  - intros Hpage. by rewrite pageSearchTerms_beyond.
Qed.

Lemma top_rated_pages_witness :
  (getTopRatedMovies
     {| searchMovies := λ _ _, {| Search := [external_entry "tt0068646"
                                               "The Godfather" "1972"];
                                  totalResults := "1";
                                  omdb_Response := "True";
                                  omdb_Error := None |};
        getMovieById := λ id, external_entry id "The Godfather" "1972" |}
     (λ _, Some 9%Q) 3).1 = [].
Proof.
  apply (top_rated_pages
           {| searchMovies := λ _ _, {| Search := [external_entry "tt0068646"
                                               "The Godfather" "1972"];
                                  totalResults := "1";
                                  omdb_Response := "True";
                                  omdb_Error := None |};
              getMovieById := λ id, external_entry id "The Godfather" "1972" |}
           (λ _, Some 9%Q) 3).
  lia.
Defined.

End movie_routes_facts.

(** ** The local catalog: search and deletion *)

Section catalog_facts.
Import Aggregator Catalog.
Context `{platform : Platform}.

Lemma like_percent_eq p s :
  like (String "%" p) s
  = (at_boundary s && like p s)
    || match s with
       | EmptyString => false
       | String _ s' => like (String "%" p) s'
       end.
Proof. destruct s; reflexivity. Qed.

Lemma like_percent p s :
  like (String "%" p) s = true
  ↔ ∃ a b, s = a +:+ b ∧ at_boundary b = true ∧ like p b = true.
Proof.
  induction s as [|c s IH]; rewrite like_percent_eq.
  - rewrite orb_false_r, andb_true_iff. split.
    + intros [Hb Hl]. by exists "", "".
    + intros (a & b & Heq & Hb & Hl). destruct a as [|c a].
      * change ("" +:+ b) with b in Heq. by subst b.
      * rewrite string_app_cons in Heq. discriminate.
  - rewrite orb_true_iff, andb_true_iff, IH. split.
    + intros [[Hb Hl]|(a & b & -> & Hb & Hl)].
      * by exists "", (String c s).
      * exists (String c a), b. by rewrite string_app_cons.
    + intros (a & b & Heq & Hb & Hl). destruct a as [|c' a].
      * change ("" +:+ b) with b in Heq. subst b. by left.
      * rewrite string_app_cons in Heq. injection Heq as -> ->.
        right. by exists a, b.
Qed.

Lemma like_plain_step c p s :
  plain_char c = true →
  like (String c p) s
  = match s with
    | String d s' => Ascii.eqb c d && like p s'
    | EmptyString => false
    end.
Proof.
  unfold plain_char. intros [[H1 H2]%andb_true_iff H3]%andb_true_iff.
  apply negb_true_iff in H1, H2, H3.
  cbn [like]. rewrite H1, H2, H3. by destruct s.
Qed.

Lemma like_plain t : plain t = true → ∀ q s,
  like (t +:+ q) s = true ↔ ∃ b, s = t +:+ b ∧ like q b = true.
Proof.
  induction t as [|c t IH]; intros Hplain q s.
  - change ("" +:+ q) with q. split; [by exists s|].
    intros (b & Heq & Hl). change ("" +:+ b) with b in Heq. by subst b.
  - cbn [plain] in Hplain. apply andb_true_iff in Hplain as [Hc Ht].
    rewrite string_app_cons, (like_plain_step _ _ _ Hc).
    destruct s as [|d s].
    + split; [done|]. intros (b & Heq & _).
      rewrite string_app_cons in Heq. discriminate.
    + rewrite andb_true_iff, (IH Ht), Ascii.eqb_eq. split.
      * intros [<- (b & -> & Hl)]. exists b. by rewrite string_app_cons.
      * intros (b & Heq & Hl). rewrite string_app_cons in Heq.
        injection Heq as -> ->. split; [done|]. by exists b.
Qed.

Lemma like_any s : like "%" s = true.
Proof.
  apply like_percent. exists s, "". by rewrite string_app_nil_r.
Qed.

(** Text of ASCII characters has a character at every byte. *)
Lemma at_boundary_ascii s : JS.is_ascii s = true → at_boundary s = true.
Proof.
  destruct s as [|c s]; [done|]. cbn [JS.is_ascii at_boundary].
  intros [Hc _]%andb_true_iff. apply negb_true_iff.
  unfold Pg.is_continuation, JS.is_ascii_char in *.
  apply N.ltb_lt in Hc. apply andb_false_iff. left. apply N.leb_gt. lia.
Qed.

Lemma like_contains t s :
  plain t = true → JS.is_ascii s = true →
  like ("%" +:+ t +:+ "%") s = true ↔ occurs_in t s.
Proof.
  intros Hplain Hascii.
  change ("%" +:+ t +:+ "%") with (String "%" (t +:+ "%")).
  rewrite like_percent. unfold occurs_in. split.
  - intros (a & b & -> & _ & Hl).
    apply (like_plain t Hplain) in Hl as (c & -> & _). by exists a, c.
  - intros (a & b & ->). exists a, (t +:+ b). split; [done|].
    rewrite is_ascii_app in Hascii.
    apply andb_true_iff in Hascii as [_ Hrest].
    split; [by apply at_boundary_ascii|].
    apply (like_plain t Hplain). exists b. split; [done|apply like_any].
Qed.

Lemma lowered_lower_ascii s : lowered s = true → JS.lower_ascii s = s.
Proof.
  induction s as [|c s IH]; [done|]. cbn [lowered JS.lower_ascii].
  intros [Hc Hs]%andb_true_iff. rewrite (IH Hs). f_equal.
  unfold lowered_char in Hc. apply andb_true_iff in Hc as [_ Hc].
  unfold JS.lower_char. apply negb_true_iff in Hc. by rewrite Hc.
Qed.

(** Where the locale lowers text of ASCII characters as A to Z, LOWER is
    that mapping on such text. *)
Lemma lower_ascii_text s :
  (∀ s, JS.is_ascii s = true → locale_LOWER s = JS.lower_ascii s) →
  JS.is_ascii s = true → lower s = JS.lower_ascii s.
Proof.
  intros Hlocale Hascii. unfold lower. destruct (lowered s) eqn:Hlow.
  - by rewrite lowered_lower_ascii.
  - by apply Hlocale.
Qed.

Lemma split_lower_ascii x y : ∀ s,
  JS.lower_ascii s = x +:+ y →
  ∃ a b, s = a +:+ b ∧ JS.lower_ascii a = x ∧ JS.lower_ascii b = y.
Proof.
  induction x as [|c x IH]; intros s Heq.
  - exists "", s. by change ("" +:+ y) with y in Heq.
  - rewrite string_app_cons in Heq. destruct s as [|d s]; [done|].
    cbn [JS.lower_ascii] in Heq. injection Heq as Hc Hrest.
    destruct (IH s Hrest) as (a & b & -> & Ha & Hb).
    exists (String d a), b. rewrite string_app_cons.
    cbn [JS.lower_ascii]. by rewrite Hc, Ha.
Qed.

Lemma caseless_lower_ascii u t :
  JS.caseless u t = true ↔ JS.lower_ascii u = JS.lower_ascii t.
Proof. by rewrite <- lower_ascii_caseless, String.eqb_eq. Qed.

Lemma occurs_lower_caseless term s :
  occurs_in (JS.lower_ascii term) (JS.lower_ascii s)
  ↔ occurs_caseless term s.
Proof.
  unfold occurs_in, occurs_caseless. split.
  - intros (a' & b' & Heq).
    apply split_lower_ascii in Heq as (a & r & -> & _ & Hr).
    apply split_lower_ascii in Hr as (u & b & -> & Hu & _).
    exists a, u, b. split; [done|]. by apply caseless_lower_ascii.
  - intros (a & u & b & -> & Hu%caseless_lower_ascii).
    exists (JS.lower_ascii a), (JS.lower_ascii b).
    by rewrite !lower_ascii_app, Hu.
Qed.

Lemma plain_char_lower c : plain_char (JS.lower_char c) = plain_char c.
Proof. destruct c as [[] [] [] [] [] [] [] []]; reflexivity. Qed.

Lemma plain_lower t : plain (JS.lower_ascii t) = plain t.
Proof.
  induction t as [|c t IH]; [done|].
  cbn [JS.lower_ascii plain]. by rewrite plain_char_lower, IH.
Qed.

Section ascii_locale.
Hypothesis locale_ascii :
  ∀ s, JS.is_ascii s = true → locale_LOWER s = JS.lower_ascii s.

Lemma lower_pattern term :
  JS.is_ascii term = true →
  lower ("%" +:+ term +:+ "%") = "%" +:+ JS.lower_ascii term +:+ "%".
Proof using locale_ascii.
  intros Hterm. rewrite lower_ascii_text, !lower_ascii_app; [done..|].
  by rewrite !is_ascii_app, Hterm.
Qed.

Lemma ilike_contains x term :
  plain term = true → JS.is_ascii term = true →
  (∀ s, x = Some s → JS.is_ascii s = true) →
  ilike x ("%" +:+ term +:+ "%") = true
  ↔ ∃ s, x = Some s ∧ occurs_caseless term s.
Proof using locale_ascii.
  intros Hplain Hterm Hx. unfold ilike. rewrite (lower_pattern _ Hterm).
  destruct x as [s|]; cbn [from_option].
  - rewrite (lower_ascii_text s locale_ascii (Hx s eq_refl)).
    rewrite like_contains;
      [|by rewrite plain_lower|by rewrite is_ascii_lower; apply Hx].
    rewrite occurs_lower_caseless. split; [by exists s|].
    by intros (? & [= <-] & ?).
  - split; [done|]. by intros (? & ? & ?).
Qed.

Lemma any_ilike_contains a term :
  plain term = true → JS.is_ascii term = true →
  (∀ l e, a = Some l → Some e ∈ l → JS.is_ascii e = true) →
  any_ilike a ("%" +:+ term +:+ "%") = true
  ↔ ∃ l e, a = Some l ∧ Some e ∈ l ∧ occurs_caseless term e.
Proof using locale_ascii.
  intros Hplain Hterm Ha. unfold any_ilike.
  destruct a as [l|]; cbn [from_option].
  - split.
    + intros (x & Hx & Hlike)%existsb_exists.
      apply list_elem_of_In in Hx.
      apply ilike_contains in Hlike as (e & -> & Hocc); [|done..|].
      * by exists l, e.
      * intros e ->. by apply (Ha l).
    + intros (? & e & [= <-] & He & Hocc). apply existsb_exists.
      exists (Some e). rewrite <- list_elem_of_In. split; [done|].
      apply ilike_contains; [done..| |by exists e].
      intros ? [= <-]. by apply (Ha l).
  - split; [done|]. by intros (? & ? & ? & ?).
Qed.

Lemma matches_mentions term m :
  plain term = true → JS.is_ascii term = true → ascii_texts m →
  matches term m = true ↔ mentions term m.
Proof using locale_ascii.
  intros Hplain Hterm (Htitle & Hdirector & Hcast & Hgenre).
  unfold matches, mentions. cbv zeta.
  rewrite !orb_true_iff.
  rewrite (ilike_contains (Some (m_title m)) _ Hplain Hterm);
    [|by intros ? [= <-]].
  rewrite (ilike_contains (m_director m) _ Hplain Hterm Hdirector).
  rewrite (any_ilike_contains (m_cast_members m) _ Hplain Hterm Hcast).
  rewrite (any_ilike_contains (m_genre m) _ Hplain Hterm Hgenre).
  split.
  - intros [[[(s & [= <-] & H)|H]|H]|H]; tauto.
  - intros [H|[H|[H|H]]]; [|tauto..]. left; left; left. by exists (m_title m).
Qed.

End ascii_locale.

Lemma search_sublist t term limit offset :
  search t term limit offset
  ⊆ List.filter (matches term) (movie <$> stored t).
Proof.
  unfold search. intros m Hm.
  apply subseteq_take, subseteq_drop in Hm.
  apply list_elem_of_In, in_rev. by apply list_elem_of_In.
Qed.

(** X19: what a search of the local catalog finds for a term of ASCII
    characters without '%', '_' and backslash, in a table whose titles,
    directors, cast members and genres are of ASCII characters, under a
    locale of the database that lowers such text as A to Z. Every movie
    found is a row of the table that has, in the title, the director, a
    cast member or a genre, a part equal to the term up to the case of
    the letters A to Z; asked for as many rows as the table has, the
    search finds every such row; and it never gives more rows than the
    limit. *)
Theorem search_plain_term t term limit offset :
  plain term = true →
  JS.is_ascii term = true →
  (∀ s, JS.is_ascii s = true → locale_LOWER s = JS.lower_ascii s) →
  (∀ m, m ∈ movie <$> stored t → ascii_texts m) →
  (∀ m, m ∈ search t term limit offset →
        m ∈ movie <$> stored t ∧ mentions term m) ∧
  (∀ m, m ∈ movie <$> stored t → mentions term m →
        m ∈ search t term (length (stored t)) 0) ∧
  (length (search t term limit offset) ≤ limit)%nat.
Proof.
  intros Hplain Hterm Hlocale Htexts. split; [|split].
  - intros m Hm%search_sublist. apply list_elem_of_In, filter_In in Hm.
    destruct Hm as [Hin%list_elem_of_In Hmatch]. split; [done|].
    by apply (matches_mentions Hlocale _ _ Hplain Hterm (Htexts m Hin)).
  - intros m Hin Hmentions. unfold search. rewrite drop_0, take_ge.
    + apply list_elem_of_In. apply -> in_rev. apply filter_In.
      split; [by apply list_elem_of_In|].
      by apply (matches_mentions Hlocale _ _ Hplain Hterm (Htexts m Hin)).
    + rewrite length_rev.
      etrans; [apply List.filter_length_le|]. by rewrite length_fmap.
  - unfold search. rewrite length_take. lia.
Qed.

Lemma all_percent_app a b :
  all_percent (a +:+ b) = all_percent a && all_percent b.
Proof.
  induction a as [|c a IH]; [done|].
  rewrite string_app_cons. cbn [all_percent]. by rewrite IH, andb_assoc.
Qed.

Lemma all_percent_lower p : all_percent p = true → lower p = p.
Proof.
  intros Hp. unfold lower.
  assert (lowered p = true) as ->; [|done].
  induction p as [|c p IH]; [done|]. cbn [all_percent lowered] in *.
  apply andb_true_iff in Hp as [->%Ascii.eqb_eq Hp]. by rewrite (IH Hp).
Qed.

Lemma like_all_percent p :
  all_percent p = true → p ≠ "" → ∀ s, like p s = true.
Proof.
  induction p as [|c p IH]; [done|]. cbn [all_percent].
  intros [->%Ascii.eqb_eq Hp]%andb_true_iff _ s.
  apply like_percent. exists s, "".
  split; [by rewrite string_app_nil_r|]. split; [done|].
  destruct p as [|c p]; [done|]. by apply IH.
Qed.

Lemma list_filter_all {A} (f : A → bool) (l : list A) :
  (∀ x, f x = true) → List.filter f l = l.
Proof.
  intros Hf. induction l as [|x l IH]; simpl; [done|]. by rewrite Hf, IH.
Qed.

(** X20: the search term is put into the LIKE pattern as it is, so its
    '%' are read as wildcards: a term made of '%' only matches every
    movie, and the search gives what the plain listing of the table
    gives. *)
Theorem search_wildcard_term t term limit offset :
  all_percent term = true →
  search t term limit offset = findAll t limit offset.
Proof.
  intros Hterm. unfold search, findAll. rewrite list_filter_all; [done|].
  intros m. unfold matches. cbv zeta.
  assert (all_percent ("%" +:+ term +:+ "%") = true) as Hpat.
  { rewrite !all_percent_app, Hterm. reflexivity. }
  assert (ilike (Some (m_title m)) ("%" +:+ term +:+ "%") = true) as ->;
    [|done].
  unfold ilike. cbn [from_option]. rewrite (all_percent_lower _ Hpat).
  apply like_all_percent; [done|]. by rewrite string_app_cons.
Qed.

(** *** The pages of the listing *)




(** *** Deleting a movie *)

Lemma list_filter_all_keep {A} (f : A → bool) (l : list A) :
  (∀ x, x ∈ l → f x = true) → List.filter f l = l.
Proof.
  induction l as [|x l IH]; intros Hf; simpl; [done|].
  rewrite (Hf x (list_elem_of_here _ _)). f_equal.
  apply IH. intros y Hy. apply Hf. by apply list_elem_of_further.
Qed.

Lemma find_by_id_present k l :
  (∃ s, s ∈ l ∧ m_id (movie s) = k) →
  ∃ s, List.find (by_id (Z.of_N k)) l = Some s.
Proof.
  intros (s & Hs & Hk).
  destruct (List.find (by_id (Z.of_N k)) l) as [s'|] eqn:Hfind; [by exists s'|].
  exfalso. apply list_elem_of_In in Hs.
  pose proof (find_none _ _ Hfind s Hs) as Hno.
  unfold by_id in Hno. apply Z.eqb_neq in Hno. lia.
Qed.

Lemma filter_key_count (l : list Stored) (k : N) :
  NoDup ((λ s, m_id (movie s)) <$> l) →
  (∃ s, s ∈ l ∧ m_id (movie s) = k) →
  (length (List.filter (λ s, negb (m_id (movie s) =? k)%N) l) + 1
   = length l)%nat.
Proof.
  intros Hkeys (s0 & Hs0 & <-).
  induction l as [|x l IH]; [by apply elem_of_nil in Hs0|].
  rewrite fmap_cons in Hkeys. apply NoDup_cons in Hkeys as [Hx Hl].
  simpl. destruct (N.eqb_spec (m_id (movie x)) (m_id (movie s0))) as [Hxs|Hxs].
  - simpl. rewrite list_filter_all_keep; [lia|].
    intros y Hy. apply negb_true_iff, N.eqb_neq. intros Hys.
    apply Hx. rewrite Hxs, <- Hys. apply list_elem_of_fmap. eauto.
  - simpl. apply elem_of_cons in Hs0 as [->|Hs0]; [done|].
    specialize (IH Hl Hs0). lia.
Qed.

(** X22: DELETE /api/movies/admin/custom-movies/:id for an id that reads
    as the integer [k]. The rows with another key stay as they are, in
    their order, and no row with key [k] is left; when the table has a row
    with key [k] the reply is 200 and the table has one row less, and when
    it has none the reply is 404 and the table is the same. A movie that
    was deleted is answered 404 by the details route. *)
Theorem delete_movie_effect int4_in t gw id k :
  int4_in id = Pg.Ok (Z.of_N k) →
  keys_unique t →
  let t' := (Omdb.delete_movie int4_in t id).1 in
  let reply := (Omdb.delete_movie int4_in t id).2 in
  stored t' = List.filter (λ s, negb (m_id (movie s) =? k)%N) (stored t) ∧
  keys_unique t' ∧
  ((∃ s, s ∈ stored t ∧ m_id (movie s) = k) →
     reply = Json 200 "Movie deleted successfully"
     ∧ (getCount t' + 1 = getCount t)%nat) ∧
  ((∀ s, s ∈ stored t → m_id (movie s) ≠ k) →
     reply = Failure 404 "Movie not found" ∧ stored t' = stored t) ∧
  Omdb.get_movie int4_in t' gw ("custom_" +:+ id)
  = Failure 404 "Movie not found".
Proof.
  intros Hid Hkeys t' reply. subst t' reply.
  unfold Omdb.delete_movie, delete. rewrite Hid.
  assert (Hsame : ∀ s, negb (by_id (Z.of_N k) s)
                       = negb (m_id (movie s) =? k)%N).
  { intros s. unfold by_id. f_equal.
    destruct (N.eqb_spec (m_id (movie s)) k) as [->|Hne].
    - apply Z.eqb_refl.
    - apply Z.eqb_neq. lia. }
  assert (Hleft : List.filter (λ s, negb (by_id (Z.of_N k) s)) (stored t)
                  = List.filter (λ s, negb (m_id (movie s) =? k)%N)
                      (stored t)).
  { apply filter_ext. intros s. apply Hsame. }
  set (found := List.find (by_id (Z.of_N k)) (stored t)).
  assert (Hstored :
    stored (match movie <$> found with
            | Some _ =>
                ({| stored := List.filter (λ s, negb (by_id (Z.of_N k) s))
                                (stored t);
                    movies_id_seq := movies_id_seq t |},
                 Json 200 "Movie deleted successfully")
            | None =>
                ({| stored := List.filter (λ s, negb (by_id (Z.of_N k) s))
                                (stored t);
                    movies_id_seq := movies_id_seq t |},
                 Failure 404 "Movie not found")
            end).1
    = List.filter (λ s, negb (m_id (movie s) =? k)%N) (stored t)).
  { by destruct found. }
  split; [exact Hstored|]. split; [|split; [|split]].
  - unfold keys_unique. rewrite Hstored.
    by apply NoDup_fmap_list_filter.
  - intros Hpresent.
    destruct (find_by_id_present k (stored t) Hpresent) as [s Hs].
    fold found in Hs. rewrite Hs. cbn [fmap option_fmap option_map fst snd].
    split; [done|]. unfold getCount. cbn [stored]. rewrite Hleft.
    by apply filter_key_count.
  - intros Habsent.
    assert (found = None) as ->.
    { subst found. destruct (List.find _ _) as [s|] eqn:Hfind; [|done].
      apply find_some in Hfind as [Hin Hk]. apply list_elem_of_In in Hin.
      unfold by_id in Hk. apply Z.eqb_eq in Hk.
      exfalso. apply (Habsent s Hin). lia. }
    cbn [fmap option_fmap option_map fst snd stored]. split; [done|].
    rewrite Hleft. apply list_filter_all_keep.
    intros s Hs. apply negb_true_iff, N.eqb_neq. by apply Habsent.
  - unfold Omdb.get_movie. rewrite decode_prefixed.
    unfold findById. rewrite Hid. cbn [Pg.bind]. rewrite Hstored.
    destruct (List.find (by_id (Z.of_N k)) (List.filter _ _)) as [s|]
      eqn:Hfind; [|done].
    apply find_some in Hfind as [Hin Hk].
    apply filter_In in Hin as [_ Hne].
    unfold by_id in Hk. apply Z.eqb_eq in Hk.
    apply negb_true_iff, N.eqb_neq in Hne. lia.
Qed.

Lemma delete_movie_effect_witness :
  stored (Omdb.delete_movie Omdb.decimal_input Omdb.sample_catalog "3").1
  = List.filter (λ s, negb (m_id (movie s) =? 3)%N)
      (stored Omdb.sample_catalog).
Proof.
  refine (proj1 (delete_movie_effect Omdb.decimal_input Omdb.sample_catalog
                   Omdb.sample_gateway "3" 3 eq_refl _)).
  unfold keys_unique. vm_compute.
  apply NoDup_cons. split; [|apply NoDup_singleton].
  intros Hin%list_elem_of_singleton. discriminate.
Defined.

(** *** The combined search, from the query *)


End catalog_facts.

Section catalog_examples.
Import Aggregator Catalog.
#[local] Existing Instance sample_platform.

Lemma sample_catalog_ascii m :
  m ∈ movie <$> stored Omdb.sample_catalog → ascii_texts m.
Proof.
  intros Hm. apply list_elem_of_In in Hm. simpl in Hm.
  destruct Hm as [<-|[<-|[]]]; by repeat split.
Qed.

Lemma search_plain_term_witness :
  local_row 3 "Dune" (Some 2021%Z)
  ∈ search Omdb.sample_catalog "dun" (length (stored Omdb.sample_catalog)) 0.
Proof.
  apply (proj1 (proj2 (search_plain_term (platform := sample_platform)
                         Omdb.sample_catalog "dun" 20 0 eq_refl eq_refl
                         (λ s _, eq_refl (JS.lower_ascii s))
                         sample_catalog_ascii))).
  - apply list_elem_of_here.
  - left. by exists "", "Dun", "e".
Defined.

(** The search finds the title whatever the case of the term. *)
Example search_upper_case_term :
  search Omdb.sample_catalog "DUNE" 20 0 = [local_row 3 "Dune" (Some 2021%Z)].
Proof. reflexivity. Qed.

Lemma search_wildcard_term_witness :
  search {| stored := [{| movie := local_row 3 "Dune" (Some 2021%Z);
                          created_by := Some 1%N |}];
            movies_id_seq := 3 |} "%" 20 0
  = findAll {| stored := [{| movie := local_row 3 "Dune" (Some 2021%Z);
                             created_by := Some 1%N |}];
               movies_id_seq := 3 |} 20 0.
Proof.
  apply (search_wildcard_term
           {| stored := [{| movie := local_row 3 "Dune" (Some 2021%Z);
                            created_by := Some 1%N |}];
              movies_id_seq := 3 |} "%" 20 0).
  reflexivity.
Defined.


(** Page 10^18: the offset is beyond what the database takes. *)
Example get_search_far_page beyond :
  Omdb.get_search beyond Omdb.sample_catalog Omdb.sample_gateway "dune"
    (Some (10 ^ 18)%Z)
  = Failure 500 "Search failed".
Proof. reflexivity. Qed.

End catalog_examples.

(** ** Environment validation *)

Section env_facts.
Import Env.

Lemma is_set_insert_ne env k k' d :
  k ≠ k' → is_set (<[k := d]> env) k' = is_set env k'.
Proof. intros Hne. unfold is_set. by rewrite lookup_insert_ne. Qed.

Lemma set_default_eq env w k d :
  set_default (env, w) (k, d)
  = if negb (is_set env k)
    then (<[k := d]> env, w ++ [k +:+ " not set, using default: " +:+ d])
    else (env, w).
Proof. reflexivity. Qed.

Lemma set_default_other env w k d k' :
  k ≠ k' →
  (set_default (env, w) (k, d)).1 !! k' = env !! k'
  ∧ is_set (set_default (env, w) (k, d)).1 k' = is_set env k'.
Proof.
  intros Hne. rewrite set_default_eq.
  destruct (negb (is_set env k)); cbn [fst].
  - by rewrite lookup_insert_ne, is_set_insert_ne.
  - done.
Qed.

Lemma set_defaults_other l : ∀ env w k,
  k ∉ l.*1 → (foldl set_default (env, w) l).1 !! k = env !! k.
Proof.
  induction l as [|[k0 d0] l IH]; intros env w k Hk; [done|].
  rewrite fmap_cons in Hk. apply not_elem_of_cons in Hk as [Hne Hk].
  cbn [foldl]. destruct (set_default (env, w) (k0, d0)) as [env1 w1] eqn:Hstep.
  rewrite (IH env1 w1 k Hk).
  pose proof (set_default_other env w k0 d0 k) as Hother.
  rewrite Hstep in Hother. apply Hother. by intros ->.
Qed.

Lemma set_defaults_lookup l : NoDup l.*1 → ∀ env w k d,
  (k, d) ∈ l →
  (foldl set_default (env, w) l).1 !! k
  = if is_set env k then env !! k else Some d.
Proof.
  induction l as [|[k0 d0] l IH]; intros Hnodup env w k d Hin;
    [by apply elem_of_nil in Hin|].
  rewrite fmap_cons in Hnodup. apply NoDup_cons in Hnodup as [Hk0 Hl].
  cbn [foldl]. destruct (set_default (env, w) (k0, d0)) as [env1 w1] eqn:Hstep.
  apply elem_of_cons in Hin as [[= -> ->]|Hin].
  - rewrite (set_defaults_other l env1 w1 k0 Hk0).
    rewrite set_default_eq in Hstep.
    destruct (is_set env k0); cbn [negb] in Hstep.
    + by injection Hstep as <- _.
    + injection Hstep as <- _. by rewrite lookup_insert_eq.
  - assert (k0 ≠ k) as Hne.
    { intros ->. apply Hk0. apply list_elem_of_fmap. by exists (k, d). }
    rewrite (IH Hl env1 w1 k d Hin).
    pose proof (set_default_other env w k0 d0 k Hne) as [Hlook Hset].
    rewrite Hstep in Hlook, Hset. cbn [fst] in Hlook, Hset.
    by rewrite Hlook, Hset.
Qed.

Lemma set_defaults_all_set l : ∀ env w,
  (∀ k d, (k, d) ∈ l → is_set env k = true) →
  foldl set_default (env, w) l = (env, w).
Proof.
  induction l as [|[k0 d0] l IH]; intros env w Hset; [done|].
  cbn [foldl]. rewrite set_default_eq.
  rewrite (Hset k0 d0 (list_elem_of_here _ _)). cbn [negb].
  apply IH. intros k d Hin. apply (Hset k d). by apply list_elem_of_further.
Qed.

Lemma set_defaults_warnings l : NoDup l.*1 → ∀ env w,
  ∃ defaults,
    (foldl set_default (env, w) l).2 = w ++ defaults ∧
    length defaults
    = length (List.filter (λ entry, negb (is_set env entry.1)) l).
Proof.
  induction l as [|[k0 d0] l IH]; intros Hnodup env w.
  { exists []. by rewrite app_nil_r. }
  rewrite fmap_cons in Hnodup. apply NoDup_cons in Hnodup as [Hk0 Hl].
  cbn [foldl]. destruct (set_default (env, w) (k0, d0)) as [env1 w1] eqn:Hstep.
  destruct (IH Hl env1 w1) as (defaults & Hw & Hlen).
  assert (Hsame : List.filter (λ entry, negb (is_set env1 entry.1)) l
                  = List.filter (λ entry, negb (is_set env entry.1)) l).
  { apply filter_ext_in. intros [k d] Hin. cbn [fst]. f_equal.
    assert (k0 ≠ k) as Hne.
    { intros ->. apply Hk0. apply list_elem_of_fmap. exists (k, d).
      split; [done|]. by apply list_elem_of_In. }
    pose proof (set_default_other env w k0 d0 k Hne) as [_ Hset].
    by rewrite Hstep in Hset. }
  rewrite Hsame in Hlen. rewrite set_default_eq in Hstep.
  cbn [List.filter fst]. destruct (negb (is_set env k0)).
  - injection Hstep as <- <-.
    exists ((k0 +:+ " not set, using default: " +:+ d0) :: defaults).
    rewrite Hw, <- app_assoc. split; [done|]. simpl. by rewrite Hlen.
  - injection Hstep as <- <-. by exists defaults.
Qed.

Ltac decide_names :=
  match goal with
  | |- ?P => refine (bool_decide_unpack P _); vm_compute; exact I
  end.

Lemma optional_keys_distinct : NoDup OPTIONAL_ENV_VARS.*1.
Proof. decide_names. Qed.

Lemma optional_defaults_nonempty k d :
  (k, d) ∈ OPTIONAL_ENV_VARS → d ≠ "".
Proof.
  unfold OPTIONAL_ENV_VARS. rewrite !elem_of_cons, elem_of_nil.
  intros [H|[H|[H|[H|[]]]]]; injection H as _ ->; discriminate.
Qed.

Lemma env_after_optional env k d :
  (k, d) ∈ OPTIONAL_ENV_VARS →
  (set_defaults env []).1 !! k = (if is_set env k then env !! k else Some d)
  ∧ is_set (set_defaults env []).1 k = true.
Proof.
  intros Hin. unfold set_defaults.
  pose proof (set_defaults_lookup _ optional_keys_distinct env [] k d Hin)
    as Hlook.
  split; [done|]. unfold is_set at 1. rewrite Hlook.
  destruct (is_set env k) eqn:Hset; [exact Hset|].
  pose proof (optional_defaults_nonempty k d Hin). by destruct d.
Qed.

Lemma env_after_other env k :
  k ∉ OPTIONAL_ENV_VARS.*1 →
  (set_defaults env []).1 !! k = env !! k
  ∧ is_set (set_defaults env []).1 k = is_set env k.
Proof.
  intros Hk. unfold set_defaults.
  pose proof (set_defaults_other OPTIONAL_ENV_VARS env [] k Hk) as Hlook.
  split; [done|]. unfold is_set. by rewrite Hlook.
Qed.

Lemma push_if_app c msg arr : push_if c msg arr = arr ++ push_if c msg [].
Proof. destruct c; simpl; [done|by rewrite app_nil_r]. Qed.

Lemma validateSpecificVariables_app env w :
  validateSpecificVariables env w = w ++ validateSpecificVariables env [].
Proof.
  unfold validateSpecificVariables. cbv zeta.
  rewrite (push_if_app _ _ (push_if _ _ (push_if _ _ (push_if _ _ w)))).
  rewrite (push_if_app _ _ (push_if _ _ (push_if _ _ w))).
  rewrite (push_if_app _ _ (push_if _ _ w)).
  rewrite (push_if_app _ _ w).
  rewrite (push_if_app _ _ (push_if _ _ (push_if _ _ (push_if _ _ [])))).
  rewrite (push_if_app _ _ (push_if _ _ (push_if _ _ []))).
  rewrite (push_if_app _ _ (push_if _ _ [])).
  by rewrite <- !app_assoc.
Qed.

Lemma validateEnvironment_fields env :
  env_after (validateEnvironment env) = (set_defaults env []).1 ∧
  errors (validateEnvironment env)
  = check_database env (check_required env []) ∧
  warnings (validateEnvironment env)
  = validateSpecificVariables (set_defaults env []).1 (set_defaults env []).2 ∧
  outcome (validateEnvironment env)
  = (if (0 <? length (check_database env (check_required env [])))%nat
     then Thrown
            "Environment validation failed. Check the logs above for details."
     else Returned true).
Proof.
  unfold validateEnvironment. destruct (set_defaults env []) as [env' w].
  repeat split; reflexivity.
Qed.

Lemma database_vars_set env :
  hasIndividualDbVars env = true
  ↔ ∀ v, v ∈ DATABASE_VARS → is_set env v = true.
Proof.
  unfold hasIndividualDbVars. rewrite forallb_forall.
  split; intros H v Hv; apply H; by apply list_elem_of_In.
Qed.

Lemma outcome_returned env :
  outcome (validateEnvironment env) = Returned true
  ↔ is_set env "JWT_SECRET" = true ∧ is_set env "OMDB_API_KEY" = true
    ∧ (is_set env "DATABASE_URL" = true
       ∨ ∀ v, v ∈ DATABASE_VARS → is_set env v = true).
Proof.
  destruct (validateEnvironment_fields env) as (_ & _ & _ & ->).
  rewrite <- database_vars_set.
  unfold check_database, check_required, hasDatabaseUrl. cbn [foldl REQUIRED_ENV_VARS].
  destruct (is_set env "JWT_SECRET"), (is_set env "OMDB_API_KEY"),
    (is_set env "DATABASE_URL"), (hasIndividualDbVars env);
    cbn [negb andb push_if app length Nat.ltb Nat.leb];
    rewrite ?length_app; cbn [length Nat.add Nat.ltb Nat.leb];
    split; try done; try (intros (? & ? & [?|?]); done); intuition.
Qed.

(** X24: validateEnvironment returns true exactly when JWT_SECRET and
    OMDB_API_KEY are set to non-empty values and either DATABASE_URL or
    each of the five database variables is; otherwise it throws, with one
    error for each of the (at most three) things missing. What the other
    variables hold only gives warnings and never makes it throw. *)
Theorem validateEnvironment_outcome env :
  let run := validateEnvironment env in
  (outcome run = Returned true
   ↔ is_set env "JWT_SECRET" = true ∧ is_set env "OMDB_API_KEY" = true
     ∧ (is_set env "DATABASE_URL" = true
        ∨ ∀ v, v ∈ DATABASE_VARS → is_set env v = true)) ∧
  (outcome run = Returned true ↔ errors run = []) ∧
  (outcome run = Returned true
   ∨ outcome run
     = Thrown
         "Environment validation failed. Check the logs above for details.") ∧
  length (errors run)
  = (Nat.b2n (negb (is_set env "JWT_SECRET"))
     + Nat.b2n (negb (is_set env "OMDB_API_KEY"))
     + Nat.b2n (negb (is_set env "DATABASE_URL")
                && negb (hasIndividualDbVars env)))%nat.
Proof.
  intros run. subst run. split; [apply outcome_returned|].
  destruct (validateEnvironment_fields env) as (_ & -> & _ & ->).
  unfold check_database, check_required, hasDatabaseUrl.
  cbn [foldl REQUIRED_ENV_VARS].
  destruct (is_set env "JWT_SECRET"), (is_set env "OMDB_API_KEY"),
    (is_set env "DATABASE_URL"), (hasIndividualDbVars env);
    cbn [negb andb push_if app length Nat.ltb Nat.leb Nat.b2n Nat.add];
    (split; [split; done|]); (split; [by (left + right)|done]).
Qed.

(** X25: the defaults of validateEnvironment. After the call each of PORT,
    NODE_ENV, BCRYPT_ROUNDS and JWT_EXPIRES_IN holds the value it had when
    that was non-empty and its default otherwise, and no other variable is
    touched. A second call changes nothing more and ends as the first did,
    with the same errors; its warnings are those of the first call without
    the leading notices of a default, one for each variable that was not
    set. *)
Theorem validateEnvironment_defaults env :
  let run := validateEnvironment env in
  let again := validateEnvironment (env_after run) in
  (∀ k d, (k, d) ∈ OPTIONAL_ENV_VARS →
     env_after run !! k = if is_set env k then env !! k else Some d) ∧
  (∀ k, k ∉ OPTIONAL_ENV_VARS.*1 → env_after run !! k = env !! k) ∧
  env_after again = env_after run ∧
  errors again = errors run ∧
  outcome again = outcome run ∧
  ∃ defaults,
    warnings run = defaults ++ warnings again ∧
    length defaults
    = length (List.filter (λ entry, negb (is_set env entry.1))
                OPTIONAL_ENV_VARS).
Proof.
  intros run again. subst run again.
  destruct (validateEnvironment_fields env) as (Henv & Herr & Hwarn & Hout).
  destruct (validateEnvironment_fields (env_after (validateEnvironment env)))
    as (Henv2 & Herr2 & Hwarn2 & Hout2).
  rewrite Henv in *. set (env' := (set_defaults env []).1) in *.
  assert (Hagain : set_defaults env' [] = (env', [])).
  { apply set_defaults_all_set. intros k d Hin.
    by apply (env_after_optional env k d). }
  assert (Hset : ∀ k, k ∉ OPTIONAL_ENV_VARS.*1 → is_set env' k = is_set env k).
  { intros k Hk. by apply env_after_other. }
  assert (Herrors : check_database env' (check_required env' [])
                    = check_database env (check_required env [])).
  { unfold check_database, check_required, hasDatabaseUrl,
      hasIndividualDbVars.
    cbn [foldl REQUIRED_ENV_VARS forallb DATABASE_VARS].
    rewrite !Hset; [done|decide_names..]. }
  split; [intros k d Hin; by apply env_after_optional|].
  split; [intros k Hk; by apply env_after_other|].
  split; [by rewrite Henv2, Hagain|].
  split; [by rewrite Herr2, Herr, Herrors|].
  split; [by rewrite Hout2, Hout, Herrors|].
  rewrite Hwarn, Hwarn2, Hagain. cbn [fst snd].
  destruct (set_defaults_warnings _ optional_keys_distinct env [])
    as (defaults & Hw & Hlen).
  exists defaults. split; [|done].
  unfold set_defaults. rewrite Hw. cbn [app].
  apply validateSpecificVariables_app.
Qed.

(** X26: the environment of a server that started. When
    validateEnvironment returned, the health check reports hasDatabase,
    hasOMDB and hasJWTSecret as true and the OMDB service as configured,
    the four variables with defaults are set, and the server listens on
    the text of PORT: the fallback 5000 of server.js is never used. *)
Theorem started_server_environment env :
  outcome (validateEnvironment env) = Returned true →
  let env' := env_after (validateEnvironment env) in
  let info := getEnvironmentInfo env' in
  hasDatabase info = true ∧ hasOMDB info = true ∧ hasJWTSecret info = true ∧
  omdb_service env' = "configured" ∧
  (∀ k, k ∈ OPTIONAL_ENV_VARS.*1 → is_set env' k = true) ∧
  (∃ text, port info = Some text ∧ text ≠ "" ∧ listen_port env' = inl text).
Proof.
  intros (Hjwt & Homdb & Hdb)%outcome_returned env' info. subst info env'.
  destruct (validateEnvironment_fields env) as (-> & _).
  set (env' := (set_defaults env []).1).
  assert (Hset : ∀ k, k ∉ OPTIONAL_ENV_VARS.*1 → is_set env' k = is_set env k).
  { intros k Hk. by apply env_after_other. }
  assert (Hopt : ∀ k, k ∈ OPTIONAL_ENV_VARS.*1 → is_set env' k = true).
  { intros k ([k' d] & -> & Hin)%list_elem_of_fmap.
    by apply (env_after_optional env k' d). }
  unfold getEnvironmentInfo, omdb_service.
  cbn [hasDatabase hasOMDB hasJWTSecret port].
  rewrite !Hset by decide_names.
  rewrite Hjwt, Homdb. split; [|split; [done|split; [done|split; [done|]]]].
  - destruct Hdb as [->|Hall]; [done|].
    rewrite (Hall "DB_HOST") by decide_names.
    apply orb_true_r.
  - split; [done|].
    assert (is_set env' "PORT" = true) as Hport
      by (apply Hopt; decide_names).
    unfold is_set in Hport. unfold listen_port.
    destruct (env' !! "PORT") as [[|c text]|]; [done| |done].
    by exists (String c text).
Qed.

Lemma started_server_environment_witness :
  listen_port (env_after (validateEnvironment sample_env)) = inl "abc".
Proof.
  destruct (started_server_environment sample_env eq_refl)
    as (_ & _ & _ & _ & _ & text & Hport & _ & Hlisten).
  rewrite Hlisten. f_equal.
  assert (port (getEnvironmentInfo (env_after (validateEnvironment sample_env)))
          = Some "abc") as Hsample by by vm_compute.
  congruence.
Defined.

Lemma is_set_given env k : is_set env k = true ↔ given (env !! k).
Proof.
  unfold is_set, given. destruct (env !! k) as [[|c s]|]; split; try done.
  - by intros (? & ? & [=]).
  - intros _. by exists c, s.
  - by intros (? & ? & [=]).
Qed.

(** X27: the pool of connections of a server that started is fully
    configured: when validateEnvironment returns, the pool is made from a
    non-empty connection string or from five values that are all given;
    and the defaults that the validation writes do not change what the
    pool is made from, whether the pool is made before the validation or
    after it. *)
Theorem poolConfig_validated env :
  outcome (validateEnvironment env) = Returned true →
  poolConfig (env_after (validateEnvironment env)) = poolConfig env ∧
  ((∃ connectionString ssl,
      poolConfig env = ByConnectionString connectionString ssl
      ∧ connectionString ≠ ""
      ∧ (ssl = true ↔ env !! "NODE_ENV" = Some "production"))
   ∨ (∃ host port database user password,
        poolConfig env = ByVariables host port database user password
        ∧ given host ∧ given port ∧ given database ∧ given user
        ∧ given password)).
Proof.
  intros (_ & _ & Hdb)%outcome_returned.
  destruct (validateEnvironment_fields env) as (-> & _).
  set (env' := (set_defaults env []).1).
  assert (Hsame : ∀ k, k ∉ OPTIONAL_ENV_VARS.*1 → env' !! k = env !! k).
  { intros k Hk. by apply env_after_other. }
  assert (Hnode : env' !! "NODE_ENV" = Some "production"
                  ↔ env !! "NODE_ENV" = Some "production").
  { pose proof (env_after_optional env "NODE_ENV" "development"
                  ltac:(decide_names)) as [Hlook _].
    fold env' in Hlook. rewrite Hlook. unfold is_set.
    destruct (env !! "NODE_ENV") as [[|c s]|]; split; done. }
  split.
  - unfold poolConfig. rewrite !Hsame by decide_names.
    destruct (env !! "DATABASE_URL") as [[|c s]|]; [done| |done].
    f_equal. apply bool_decide_ext. exact Hnode.
  - unfold poolConfig.
    destruct (env !! "DATABASE_URL") as [[|c s]|] eqn:Hurl.
    + right. destruct Hdb as [Hset|Hall];
        [unfold is_set in Hset; by rewrite Hurl in Hset|].
      do 5 eexists. split; [done|].
      repeat split; apply is_set_given, Hall; decide_names.
    + left. exists (String c s), (bool_decide (env !! "NODE_ENV" = Some "production")).
      split; [done|]. split; [done|]. by rewrite bool_decide_eq_true.
    + right. destruct Hdb as [Hset|Hall];
        [unfold is_set in Hset; by rewrite Hurl in Hset|].
      do 5 eexists. split; [done|].
      repeat split; apply is_set_given, Hall; decide_names.
Qed.

Lemma poolConfig_validated_witness :
  poolConfig (env_after (validateEnvironment sample_env))
  = poolConfig sample_env.
Proof. exact (proj1 (poolConfig_validated sample_env eq_refl)). Defined.

End env_facts.
